(** * Consensus aggregation of bootstrap clusterings

    A shallow embedding of the consensus-clustering part of
    [src/sample_clustering_toolbox.py] and of the two accumulator updates it
    calls, [update_indicator_matrix] and [update_linkage_matrix], whose text
    is kept in [test/unit/toolbox_test.py].

    Conventions of the embedding.
    - A numpy matrix is the list of its rows.  The accumulators are created
      by [np.zeros] and only ever incremented by one, so their float entries
      are whole numbers; they are modelled in [Z].  The quotient taken by
      [form_consensus_matrix] is modelled in [Q].
    - A permutation vector and an assignment vector are one-dimensional
      arrays of indices ([np.random.permutation], [np.argmax]); they are
      modelled as [list nat].
    - A Python exception is a value of [exn]; a call that may raise returns
      a [result].
    - The temporary directory is a finite map from file names to the arrays
      dumped in them; a directory tree is a finite map from directory paths
      to such maps. *)

From Stdlib Require Import ZArith QArith Qfield String Ascii List Lia.
From stdpp Require Import gmap strings list fin_maps pretty.

Close Scope Q_scope.
Open Scope Z_scope.
Open Scope nat_scope.
Open Scope string_scope.
Open Scope list_scope.

(** ** Exceptions *)

Inductive exn : Type :=
| ValueError (msg : string)
| IndexError
| KeyError (key : string)
| FileNotFoundError (path : string)
| FileExistsError (path : string)
| TypeError (msg : string).

Inductive result (A : Type) : Type :=
| Ok (a : A)
| Raise (e : exn).

Arguments Ok {A} a.
Arguments Raise {A} e.

#[global] Instance result_ret : MRet result := λ A a, Ok a.
#[global] Instance result_bind : MBind result := λ A B f m,
  match m with
  | Ok a => f a
  | Raise e => Raise e
  end.

Definition is_Ok {A} (r : result A) : Prop := ∃ a, r = Ok a.

(** ** Arrays *)

Module Np.

Abbreviation matrix := (list (list Z)).

(** [np.zeros((n, m))] *)
Definition zeros (n m : nat) : matrix := replicate n (replicate m 0%Z).

(** [a.shape[0]] and [a.shape[1]] *)
Definition shape0 (a : matrix) : nat := length a.
Definition shape1 (a : matrix) : nat :=
  match a with
  | [] => 0
  | row :: _ => length row
  end.

(** [a[i][j]] for an index pair inside the array *)
Definition entry {A} (a : list (list A)) (i j : nat) : option A :=
  row ← a !! i; row !! j.

(** [a[idx[:, None], idx] += 1].  The index pairs are the product of
    [idx] with itself; numpy evaluates [a[..] + 1] once and stores it back,
    so a cell addressed several times (a repeated index) still grows by
    one.  An index outside the array raises [IndexError]. *)
Definition iadd_outer (idx : list nat) (a : matrix) : result matrix :=
  if bool_decide (Forall (λ i, i < shape0 a ∧ i < shape1 a) idx)
  then Ok (imap (λ i row,
             if bool_decide (i ∈ idx)
             then imap (λ j x, if bool_decide (j ∈ idx) then (x + 1)%Z else x) row
             else row) a)
  else Raise IndexError.

(** [arr[mask]] with a boolean mask: the entries at the positions where
    the mask is true; a mask of another length raises [IndexError]. *)
Fixpoint select {A} (arr : list A) (mask : list bool) : list A :=
  match arr, mask with
  | x :: arr', b :: mask' => if b then x :: select arr' mask' else select arr' mask'
  | _, _ => []
  end.

Definition take_mask {A} (arr : list A) (mask : list bool) : result (list A) :=
  if bool_decide (length mask = length arr)
  then Ok (select arr mask)
  else Raise IndexError.

(** [arr == c], element-wise *)
Definition eq_scalar (arr : list nat) (c : nat) : list bool :=
  (λ x, bool_decide (x = c)) <$> arr.

(** Position of the first greatest entry of a non-empty vector. *)
Fixpoint argmax_from (best_i : nat) (best : Q) (i : nat) (xs : list Q) : nat :=
  match xs with
  | [] => best_i
  | x :: xs' =>
      if Qle_bool x best
      then argmax_from best_i best (S i) xs'
      else argmax_from i x (S i) xs'
  end.

Definition argmax1 (xs : list Q) : result nat :=
  match xs with
  | [] => Raise (ValueError "attempt to get argmax of an empty sequence")
  | x :: xs' => Ok (argmax_from 0 x 1 xs')
  end.

(** Column [j] of a matrix given by rows. *)
Definition column (h : list (list Q)) (j : nat) : list Q :=
  (λ row, nth j row 0%Q) <$> h.

(** [np.argmax(h, 0)]: for each column the row of its first greatest
    entry.  A matrix without rows has nothing to reduce over and raises
    [ValueError]. *)
Definition argmax0 (h : list (list Q)) : result (list nat) :=
  match h with
  | [] => Raise (ValueError "attempt to get argmax of an empty sequence")
  | row :: _ => mapM (λ j, argmax1 (column h j)) (seq 0 (length row))
  end.

(** [np.maximum(a, c)] with a scalar [c] *)
Definition maximum (a : matrix) (c : Z) : matrix :=
  (λ row : list Z, (λ x, Z.max x c) <$> row) <$> a.

(** [a / b], element-wise, for operands of one shape.  (The broadcasting
    of a one-row or one-column operand is left out: both operands are the
    N×N accumulators at the only call.) *)
Definition divide (a b : matrix) : result (list (list Q)) :=
  if bool_decide (length <$> a = length <$> b)
  then Ok (zip_with (zip_with (λ x y, (inject_Z x / inject_Z y)%Q)) a b)
  else Raise (ValueError "operands could not be broadcast together").

End Np.

(** Python's builtin [max] over a one-dimensional array. *)
Definition py_max (xs : list nat) : result nat :=
  match xs with
  | [] => Raise (ValueError "max() arg is an empty sequence")
  | x :: xs' => Ok (foldl Nat.max x xs')
  end.

(** ** The accumulator updates (knpackage.toolbox) *)

(** [encode_mat] is either the assignment vector ([ndim == 1]) or the factor
    matrix it is the arg-max of. *)
Inductive encoding : Type :=
| Labels (cluster_id : list nat)
| Factors (h_matrix : list (list Q)).

(** The loop [for cluster in range(0, num_clusters)] of
    [update_linkage_matrix]. *)
Fixpoint cluster_loop (clusters : list nat) (cluster_id sample_perm : list nat)
    (linkage_matrix : Np.matrix) : result Np.matrix :=
  match clusters with
  | [] => Ok linkage_matrix
  | cluster :: clusters' =>
      slice_id ← Np.take_mask sample_perm (Np.eq_scalar cluster_id cluster);
      linkage_matrix' ← Np.iadd_outer slice_id linkage_matrix;
      cluster_loop clusters' cluster_id sample_perm linkage_matrix'
  end.

Definition update_linkage_matrix (encode_mat : encoding) (sample_perm : list nat)
    (linkage_matrix : Np.matrix) : result Np.matrix :=
  '(num_clusters, cluster_id) ←
    match encode_mat with
    | Labels e => m ← py_max e; Ok (m + 1, e)
    | Factors h => c ← Np.argmax0 h; Ok (length h, c)
    end;
  cluster_loop (seq 0 num_clusters) cluster_id sample_perm linkage_matrix.

Definition update_indicator_matrix (sample_perm : list nat)
    (indicator_matrix : Np.matrix) : result Np.matrix :=
  Np.iadd_outer sample_perm indicator_matrix.

(** ** Paths (Python's posixpath) *)

Module OsPath.

Definition endswith_sep (s : string) : bool :=
  bool_decide (String.get (String.length s - 1) s = Some "/"%char).

(** [os.path.join(a, b)] *)
Definition join (a b : string) : string :=
  if String.prefix "/" b then b
  else if bool_decide (a = "") || endswith_sep a then a +:+ b
  else a +:+ "/" +:+ b.

(** [p.split('/')], with [cur] the component being read *)
Fixpoint split_sep (cur p : string) : list string :=
  match p with
  | EmptyString => [cur]
  | String c p' =>
      if Ascii.eqb c "/" then cur :: split_sep "" p'
      else split_sep (cur +:+ String c "") p'
  end.

(** [os.path.basename(p)]: what follows the last separator *)
Definition basename (p : string) : string := List.last (split_sep "" p) "".

Definition initial_slashes (p : string) : nat :=
  if String.prefix "/" p
  then if String.prefix "//" p && negb (String.prefix "///" p) then 2 else 1
  else 0.

(** One round of the component loop of [normpath]; [new_comps] is kept
    with its last component first. *)
Definition norm_step (slashes : nat) (new_comps : list string) (comp : string)
    : list string :=
  if bool_decide (comp = "" ∨ comp = ".") then new_comps
  else if bool_decide (comp ≠ ".." ∨ (slashes = 0 ∧ new_comps = [])
                       ∨ head new_comps = Some "..")
  then comp :: new_comps
  else tail new_comps.

Fixpoint join_sep (comps : list string) : string :=
  match comps with
  | [] => ""
  | [c] => c
  | c :: comps' => c +:+ "/" +:+ join_sep comps'
  end.

Fixpoint repeat_sep (n : nat) : string :=
  match n with
  | 0 => ""
  | S n' => "/" +:+ repeat_sep n'
  end.

(** [os.path.normpath(p)] *)
Definition normpath (p : string) : string :=
  if bool_decide (p = "") then "."
  else
    let slashes := initial_slashes p in
    let comps := rev (foldl (norm_step slashes) [] (split_sep "" p)) in
    let path := repeat_sep slashes +:+ join_sep comps in
    if bool_decide (path = "") then "." else path.

End OsPath.

(** ** Run parameters *)

(** The values a run-parameter dictionary holds. *)
Inductive pyval : Type :=
| PStr (s : string)
| PInt (z : Z)
| PFloat (q : Q).

(** [run_parameters[key]] *)
Definition getitem (run_parameters : gmap string pyval) (key : string) : result pyval :=
  match run_parameters !! key with
  | Some v => Ok v
  | None => Raise (KeyError key)
  end.

(** [value == 'literal'] *)
Definition eq_str (v : pyval) (s : string) : bool :=
  match v with
  | PStr s' => bool_decide (s' = s)
  | _ => false
  end.

(** A value used where a path is expected. *)
Definition as_path (v : pyval) : result string :=
  match v with
  | PStr s => Ok s
  | _ => Raise (TypeError "expected str, bytes or os.PathLike object")
  end.

(** ** The persistence store *)

(** A directory tree: directory path to (file name to dumped array). *)
Record world : Type := World {
  fs : gmap string (gmap string (list nat));
  time_time : Q
}.

(** [os.listdir(d)].  The order in which the system enumerates a directory
    is not specified; [order] stands for it. *)
Definition os_listdir (order : list string → list string)
    (tree : gmap string (gmap string (list nat))) (d : string) : result (list string) :=
  match tree !! d with
  | Some files => Ok (order (elements (dom files)))
  | None => Raise (FileNotFoundError d)
  end.

(** [np.load(os.path.join(d, f))]: a file is addressed by its directory and
    its name, the two arguments of [os.path.join] at every call site. *)
Definition np_load (tree : gmap string (gmap string (list nat))) (d f : string)
    : result (list nat) :=
  match tree !! d ≫= (λ files, files !! f) with
  | Some arr => Ok arr
  | None => Raise (FileNotFoundError (OsPath.join d f))
  end.

(** ** The consensus aggregator *)

(** [tmp_f[0:6] == 'temp_p'] *)
Definition is_temp_p (tmp_f : string) : bool :=
  bool_decide (substring 0 6 tmp_f = "temp_p").

(** [tmp_f[0:5] + 'h' + tmp_f[6:len(tmp_f)]] *)
Definition h_name (tmp_f : string) : string :=
  substring 0 5 tmp_f +:+ "h" +:+ substring 6 (String.length tmp_f - 6) tmp_f.

(** The directory both scans read (their first five lines). *)
Definition scan_directory (run_parameters : gmap string pyval) : result string :=
  method ← getitem run_parameters "processing_method";
  if eq_str method "distribute"
  then
    volume ← getitem run_parameters "cluster_shared_volumn";
    tmp_directory ← getitem run_parameters "tmp_directory";
    tmp_directory ← as_path tmp_directory;
    volume ← as_path volume;
    Ok (OsPath.join volume (OsPath.basename (OsPath.normpath tmp_directory)))
  else
    tmp_directory ← getitem run_parameters "tmp_directory";
    as_path tmp_directory.

(** The loops [for tmp_f in dir_list] of the two scans. *)
Fixpoint indicator_scan (tree : gmap string (gmap string (list nat))) (tmp_dir : string)
    (dir_list : list string) (indicator_matrix : Np.matrix) : result Np.matrix :=
  match dir_list with
  | [] => Ok indicator_matrix
  | tmp_f :: dir_list' =>
      indicator_matrix' ←
        (if is_temp_p tmp_f
         then sample_permutation ← np_load tree tmp_dir tmp_f;
              update_indicator_matrix sample_permutation indicator_matrix
         else Ok indicator_matrix);
      indicator_scan tree tmp_dir dir_list' indicator_matrix'
  end.

Fixpoint linkage_scan (tree : gmap string (gmap string (list nat))) (tmp_dir : string)
    (dir_list : list string) (linkage_matrix : Np.matrix) : result Np.matrix :=
  match dir_list with
  | [] => Ok linkage_matrix
  | tmp_f :: dir_list' =>
      linkage_matrix' ←
        (if is_temp_p tmp_f
         then sample_permutation ← np_load tree tmp_dir tmp_f;
              h_mat ← np_load tree tmp_dir (h_name tmp_f);
              update_linkage_matrix (Labels h_mat) sample_permutation linkage_matrix
         else Ok linkage_matrix);
      linkage_scan tree tmp_dir dir_list' linkage_matrix'
  end.

(** Both scans update the accumulator they are given in place and return
    it: the value returned here is also the new content of the caller's
    array. *)
Definition get_indicator_matrix (order : list string → list string)
    (tree : gmap string (gmap string (list nat)))
    (run_parameters : gmap string pyval) (indicator_matrix : Np.matrix)
    : result Np.matrix :=
  tmp_dir ← scan_directory run_parameters;
  dir_list ← os_listdir order tree tmp_dir;
  indicator_scan tree tmp_dir dir_list indicator_matrix.

Definition get_linkage_matrix (order : list string → list string)
    (tree : gmap string (gmap string (list nat)))
    (run_parameters : gmap string pyval) (linkage_matrix : Np.matrix)
    : result Np.matrix :=
  tmp_dir ← scan_directory run_parameters;
  dir_list ← os_listdir order tree tmp_dir;
  linkage_scan tree tmp_dir dir_list linkage_matrix.

Definition form_consensus_matrix (order : list string → list string)
    (tree : gmap string (gmap string (list nat)))
    (run_parameters : gmap string pyval) (linkage_matrix indicator_matrix : Np.matrix)
    : result (list (list Q)) :=
  indicator_matrix ← get_indicator_matrix order tree run_parameters indicator_matrix;
  linkage_matrix ← get_linkage_matrix order tree run_parameters linkage_matrix;
  Np.divide linkage_matrix (Np.maximum indicator_matrix 1).

(** ** Effects *)

(** A computation that reads and changes the world and may raise; what was
    done before an exception stays done. *)
Definition io (A : Type) : Type := world → result A * world.

#[global] Instance io_ret : MRet io := λ A a w, (Ok a, w).
#[global] Instance io_bind : MBind io := λ A B f m w,
  match m w with
  | (Ok a, w') => f a w'
  | (Raise e, w') => (Raise e, w')
  end.

Definition raise {A} (e : exn) : io A := λ w, (Raise e, w).
Definition lift {A} (r : result A) : io A := λ w, (r, w).
Definition reading {A} (f : world → result A) : io A := λ w, (f w, w).

(** [os.mkdir(d)] *)
Definition os_mkdir (d : string) : io unit := λ w,
  match fs w !! d with
  | Some _ => (Raise (FileExistsError d), w)
  | None => (Ok (), World (<[d := ∅]> (fs w)) (time_time w))
  end.

(** [os.makedirs(d, mode=0o755, exist_ok=True)] *)
Definition os_makedirs (d : string) : io unit := λ w,
  match fs w !! d with
  | Some _ => (Ok (), w)
  | None => (Ok (), World (<[d := ∅]> (fs w)) (time_time w))
  end.

(** [with open(os.path.join(d, f), 'wb') as fh: arr.dump(fh)] *)
Definition dump (d f : string) (arr : list nat) : io unit := λ w,
  match fs w !! d with
  | Some files => (Ok (), World (<[d := <[f := arr]> files]> (fs w)) (time_time w))
  | None => (Raise (FileNotFoundError (OsPath.join d f)), w)
  end.

(** [kn.remove_dir(d)]: remove the files of [d], then [d]. *)
Definition remove_dir (d : string) : io unit := λ w,
  match fs w !! d with
  | Some _ => (Ok (), World (delete d (fs w)) (time_time w))
  | None => (Raise (FileNotFoundError d), w)
  end.

(** [int(x)] of a float: truncation towards zero *)
Definition py_int (x : Q) : Z := Z.quot (Qnum x) (Z.pos (Qden x)).

(** [kn.get_timestamp(stamp_units)] *)
Definition get_timestamp (stamp_units : Q) : io string := λ w,
  let units := if Qle_bool stamp_units 1 then 1%Q else stamp_units in
  (Ok (pretty (py_int (time_time w * units)%Q)), w).

(** [kn.create_dir(dir_path, dir_name, timestamp=None)] *)
Definition create_dir (dir_path dir_name : string) (timestamp : option string)
    : io string :=
  timestamp ← match timestamp with
              | None => get_timestamp (1000000 # 1)
              | Some t => mret t
              end;
  let new_dir_name := OsPath.join dir_path (dir_name +:+ timestamp) in
  _ ← os_mkdir new_dir_name;
  mret new_dir_name.

Definition update_tmp_directory (run_parameters : gmap string pyval) (tmp_dir : string)
    : io (gmap string pyval) :=
  method ← lift (getitem run_parameters "processing_method");
  if eq_str method "distribute"
  then
    volume ← lift (getitem run_parameters "cluster_shared_volumn" ≫= as_path);
    d ← create_dir volume tmp_dir None;
    mret (<["tmp_directory" := PStr d]> run_parameters)
  else
    run_directory ← lift (getitem run_parameters "run_directory" ≫= as_path);
    d ← create_dir run_directory tmp_dir None;
    mret (<["tmp_directory" := PStr d]> run_parameters).

(** ** External collaborators

    What the toolbox calls and does not define: the factorisation and
    smoothing engines, the readers of spreadsheets and networks, the job
    dispatchers, the writers of the final reports and the naming helper of
    knpackage.  They are specified only by their types. *)
Class Collaborators : Type := {
  dataframe : Type;
  spreadsheet : Type;
  network_frame : Type;
  sparse : Type;
  names : Type;
  (** the order in which the system lists a directory *)
  listdir_order : list string → list string;
  (** [float(s)] of a string *)
  float_of_str : string → result Q;
  (** [kn.create_timestamped_filename(name_base, name_extension, precision)] *)
  kn_create_timestamped_filename : string → option string → Q → io string;
  kn_get_spreadsheet_df : pyval → world → result dataframe;
  kn_get_network_df : pyval → world → result network_frame;
  as_matrix : dataframe → spreadsheet;
  columns : dataframe → list string;
  shape_1 : spreadsheet → nat;
  kn_get_quantile_norm_matrix : spreadsheet → result spreadsheet;
  kn_extract_network_node_names : network_frame → result (names * names);
  kn_find_unique_node_names : names → names → result names;
  names_len : names → nat;
  kn_create_node_names_dict : names → result (gmap string nat);
  kn_map_node_names_to_index : network_frame → gmap string nat → string → result network_frame;
  kn_symmetrize_df : network_frame → result network_frame;
  kn_convert_network_df_to_sparse : network_frame → nat → nat → result sparse;
  kn_normalize_sparse_mat_by_diagonal : sparse → result sparse;
  kn_form_network_laplacian_matrix : sparse → result (sparse * sparse);
  kn_update_spreadsheet_df : dataframe → names → result dataframe;
  kn_sample_a_matrix : spreadsheet → Q → Q → io (spreadsheet * list nat);
  kn_smooth_matrix_with_rwr : spreadsheet → sparse → gmap string pyval → result (spreadsheet * nat);
  kn_perform_nmf : spreadsheet → gmap string pyval → io (list (list Q));
  kn_perform_net_nmf : spreadsheet → sparse → sparse → gmap string pyval → io (list (list Q));
  kn_perform_kmeans : list (list Q) → pyval → result (list nat);
  dstutil_parallelize_processes_locally :
    ∀ A : Type, (A → io unit) → list A → pyval → io unit;
  dstutil_execute_distribute_computing_job :
    pyval → pyval → (pyval → io unit) → io unit;
  save_consensus_clustering :
    list (list Q) → list string → list nat → gmap string pyval → io unit;
  save_final_samples_clustering :
    list string → list nat → gmap string pyval → io unit;
  save_spreadsheet_and_variance_heatmap :
    dataframe → list nat → gmap string pyval → option sparse → io unit
}.

(** [float(v)] *)
Definition py_float `{Collaborators} (v : pyval) : result Q :=
  match v with
  | PFloat q => Ok q
  | PInt z => Ok (inject_Z z)
  | PStr s => float_of_str s
  end.

(** [range(0, v)] *)
Definition py_range (v : pyval) : result (list nat) :=
  match v with
  | PInt z => Ok (seq 0 (Z.to_nat z))
  | _ => Raise (TypeError "object cannot be interpreted as an integer")
  end.

Section Toolbox.
Context `{Collaborators}.

(** ** The replicate worker's last step *)

Definition save_a_clustering_to_tmp (h_matrix : list (list Q))
    (sample_permutation : list nat) (run_parameters : gmap string pyval)
    (sequence_number : nat) : io unit :=
  tmp_dir ← lift (getitem run_parameters "tmp_directory");
  time_stamp ← kn_create_timestamped_filename
                 ("_N" +:+ pretty sequence_number) None (1000000000000 # 1);
  tmp_dir ← lift (as_path tmp_dir);
  _ ← os_makedirs tmp_dir;
  let hname := "temp_h" +:+ time_stamp in
  let pname := "temp_p" +:+ time_stamp in
  cluster_id ← lift (Np.argmax0 h_matrix);
  _ ← dump tmp_dir hname cluster_id;
  dump tmp_dir pname sample_permutation.

Definition run_cc_nmf_clusters_worker (spreadsheet_mat : spreadsheet)
    (run_parameters : gmap string pyval) (sample : nat) : io unit :=
  rows ← lift (getitem run_parameters "rows_sampling_fraction" ≫= py_float);
  cols ← lift (getitem run_parameters "cols_sampling_fraction" ≫= py_float);
  '(sample_random, sample_permutation) ← kn_sample_a_matrix spreadsheet_mat rows cols;
  h_mat ← kn_perform_nmf sample_random run_parameters;
  save_a_clustering_to_tmp h_mat sample_permutation run_parameters sample.

Definition run_cc_net_nmf_clusters_worker (network_mat : sparse)
    (spreadsheet_mat : spreadsheet) (lap_dag lap_val : sparse)
    (run_parameters : gmap string pyval) (sample : nat) : io unit :=
  rows ← lift (getitem run_parameters "rows_sampling_fraction" ≫= py_float);
  cols ← lift (getitem run_parameters "cols_sampling_fraction" ≫= py_float);
  '(sample_random, sample_permutation) ← kn_sample_a_matrix spreadsheet_mat rows cols;
  '(sample_smooth, iterations) ←
    lift (kn_smooth_matrix_with_rwr sample_random network_mat run_parameters);
  sample_quantile_norm ← lift (kn_get_quantile_norm_matrix sample_smooth);
  h_mat ← kn_perform_net_nmf sample_quantile_norm lap_val lap_dag run_parameters;
  save_a_clustering_to_tmp h_mat sample_permutation run_parameters sample.

(** [dstutil.zip_parameters] pairs the shared arguments with each job id;
    the worker is then applied to each tuple. *)
Definition find_and_save_cc_nmf_clusters_parallel (spreadsheet_mat : spreadsheet)
    (run_parameters : gmap string pyval) (number_of_loops : pyval) : io unit :=
  jobs_id ← lift (py_range number_of_loops);
  dstutil_parallelize_processes_locally nat
    (run_cc_nmf_clusters_worker spreadsheet_mat run_parameters)
    jobs_id number_of_loops.

Definition find_and_save_cc_net_nmf_clusters_parallel (network_mat : sparse)
    (spreadsheet_mat : spreadsheet) (lap_diag lap_pos : sparse)
    (run_parameters : gmap string pyval) (number_of_loops : pyval) : io unit :=
  jobs_id ← lift (py_range number_of_loops);
  dstutil_parallelize_processes_locally nat
    (run_cc_net_nmf_clusters_worker network_mat spreadsheet_mat lap_diag lap_pos
       run_parameters)
    jobs_id number_of_loops.

(** [for sample in range(..): worker(sample)] *)
Fixpoint serial_loop (worker : nat → io unit) (samples : list nat) : io unit :=
  match samples with
  | [] => mret ()
  | sample :: samples' => _ ← worker sample; serial_loop worker samples'
  end.

(** The three execution strategies, or the refusal of any other value. *)
Definition dispatch (run_parameters : gmap string pyval)
    (in_parallel : pyval → io unit) (worker : nat → io unit) : io unit :=
  method ← lift (getitem run_parameters "processing_method");
  if eq_str method "parallel"
  then
    number_of_loops ← lift (getitem run_parameters "number_of_bootstraps");
    in_parallel number_of_loops
  else
    method ← lift (getitem run_parameters "processing_method");
    if eq_str method "serial"
    then
      samples ← lift (getitem run_parameters "number_of_bootstraps" ≫= py_range);
      serial_loop worker samples
    else
      method ← lift (getitem run_parameters "processing_method");
      if eq_str method "distribute"
      then
        address ← lift (getitem run_parameters "cluster_ip_address");
        number_of_bootstraps ← lift (getitem run_parameters "number_of_bootstraps");
        dstutil_execute_distribute_computing_job address number_of_bootstraps in_parallel
      else raise (ValueError "processing_method contains bad value.").

(** The last lines of both wrappers: aggregate, cluster, report, clean. *)
Definition aggregate_and_report (run_parameters : gmap string pyval)
    (spreadsheet_df : dataframe) (spreadsheet_mat : spreadsheet)
    (network_mat : option sparse) : io unit :=
  let linkage_matrix := Np.zeros (shape_1 spreadsheet_mat) (shape_1 spreadsheet_mat) in
  let indicator_matrix := linkage_matrix in
  consensus_matrix ←
    reading (λ w, form_consensus_matrix listdir_order (fs w) run_parameters
                    linkage_matrix indicator_matrix);
  labels ← lift (number_of_clusters ← getitem run_parameters "number_of_clusters";
                 kn_perform_kmeans consensus_matrix number_of_clusters);
  let sample_names := columns spreadsheet_df in
  _ ← save_consensus_clustering consensus_matrix sample_names labels run_parameters;
  _ ← save_final_samples_clustering sample_names labels run_parameters;
  _ ← save_spreadsheet_and_variance_heatmap spreadsheet_df labels run_parameters
        network_mat;
  tmp_directory ← lift (getitem run_parameters "tmp_directory" ≫= as_path);
  remove_dir tmp_directory.

Definition run_cc_nmf (run_parameters : gmap string pyval) : io unit :=
  let tmp_dir := "tmp_cc_nmf" in
  run_parameters ← update_tmp_directory run_parameters tmp_dir;
  spreadsheet_df ←
    reading (λ w, path ← getitem run_parameters "spreadsheet_name_full_path";
                  kn_get_spreadsheet_df path w);
  let spreadsheet_mat := as_matrix spreadsheet_df in
  spreadsheet_mat ← lift (kn_get_quantile_norm_matrix spreadsheet_mat);
  _ ← dispatch run_parameters
        (find_and_save_cc_nmf_clusters_parallel spreadsheet_mat run_parameters)
        (run_cc_nmf_clusters_worker spreadsheet_mat run_parameters);
  aggregate_and_report run_parameters spreadsheet_df spreadsheet_mat None.

(** Lines 130--149 of [run_cc_net_nmf]: reading and preparing the network. *)
Definition prepare_network (run_parameters : gmap string pyval)
    : io (dataframe * sparse * sparse * sparse) :=
  spreadsheet_df ←
    reading (λ w, path ← getitem run_parameters "spreadsheet_name_full_path";
                  kn_get_spreadsheet_df path w);
  network_df ←
    reading (λ w, path ← getitem run_parameters "gg_network_name_full_path";
                  kn_get_network_df path w);
  lift (
    '(node_1_names, node_2_names) ← kn_extract_network_node_names network_df;
    unique_gene_names ← kn_find_unique_node_names node_1_names node_2_names;
    genes_lookup_table ← kn_create_node_names_dict unique_gene_names;
    network_df ← kn_map_node_names_to_index network_df genes_lookup_table "node_1";
    network_df ← kn_map_node_names_to_index network_df genes_lookup_table "node_2";
    network_df ← kn_symmetrize_df network_df;
    network_mat ← kn_convert_network_df_to_sparse network_df
                    (names_len unique_gene_names) (names_len unique_gene_names);
    network_mat ← kn_normalize_sparse_mat_by_diagonal network_mat;
    '(lap_diag, lap_pos) ← kn_form_network_laplacian_matrix network_mat;
    spreadsheet_df ← kn_update_spreadsheet_df spreadsheet_df unique_gene_names;
    Ok (spreadsheet_df, network_mat, lap_diag, lap_pos)).

Definition run_cc_net_nmf (run_parameters : gmap string pyval) : io unit :=
  let tmp_dir := "tmp_cc_net_nmf" in
  run_parameters ← update_tmp_directory run_parameters tmp_dir;
  '(spreadsheet_df, network_mat, lap_diag, lap_pos) ← prepare_network run_parameters;
  let spreadsheet_mat := as_matrix spreadsheet_df in
  _ ← dispatch run_parameters
        (find_and_save_cc_net_nmf_clusters_parallel network_mat spreadsheet_mat
           lap_diag lap_pos run_parameters)
        (run_cc_net_nmf_clusters_worker network_mat spreadsheet_mat lap_diag lap_pos
           run_parameters);
  aggregate_and_report run_parameters spreadsheet_df spreadsheet_mat (Some network_mat).

End Toolbox.

(** ** The wrappers without resampling *)

(** The accumulators are float arrays whose entries are whole numbers;
    where one of them is handed on as a float matrix its entries are read
    as rationals. *)
Definition to_float (a : Np.matrix) : list (list Q) :=
  (λ row : list Z, inject_Z <$> row) <$> a.

(** [kn.create_timestamped_filename(name_base, stamp_units)], as kept with
    the tests. *)
Definition create_timestamped_filename (name_base : string) (stamp_units : Q)
    : io string :=
  timestamp ← get_timestamp stamp_units;
  mret (name_base +:+ "_" +:+ timestamp).

Section Wrappers.
Context `{Collaborators}.

Definition run_nmf (run_parameters : gmap string pyval) : io unit :=
  spreadsheet_df ←
    reading (λ w, path ← getitem run_parameters "spreadsheet_name_full_path";
                  kn_get_spreadsheet_df path w);
  let spreadsheet_mat := as_matrix spreadsheet_df in
  spreadsheet_mat ← lift (kn_get_quantile_norm_matrix spreadsheet_mat);
  h_mat ← kn_perform_nmf spreadsheet_mat run_parameters;
  let linkage_matrix := Np.zeros (shape_1 spreadsheet_mat) (shape_1 spreadsheet_mat) in
  let sample_perm := seq 0 (shape_1 spreadsheet_mat) in
  linkage_matrix ← lift (update_linkage_matrix (Factors h_mat) sample_perm linkage_matrix);
  labels ← lift (number_of_clusters ← getitem run_parameters "number_of_clusters";
                 kn_perform_kmeans (to_float linkage_matrix) number_of_clusters);
  let sample_names := columns spreadsheet_df in
  _ ← save_final_samples_clustering sample_names labels run_parameters;
  save_spreadsheet_and_variance_heatmap spreadsheet_df labels run_parameters None.

Definition run_net_nmf (run_parameters : gmap string pyval) : io unit :=
  '(spreadsheet_df, network_mat, lap_diag, lap_pos) ← prepare_network run_parameters;
  let spreadsheet_mat := as_matrix spreadsheet_df in
  let sample_names := columns spreadsheet_df in
  '(sample_smooth, iterations) ←
    lift (kn_smooth_matrix_with_rwr spreadsheet_mat network_mat run_parameters);
  sample_quantile_norm ← lift (kn_get_quantile_norm_matrix sample_smooth);
  h_mat ← kn_perform_net_nmf sample_quantile_norm lap_pos lap_diag run_parameters;
  let linkage_matrix := Np.zeros (shape_1 spreadsheet_mat) (shape_1 spreadsheet_mat) in
  let sample_perm := seq 0 (shape_1 spreadsheet_mat) in
  linkage_matrix ← lift (update_linkage_matrix (Factors h_mat) sample_perm linkage_matrix);
  labels ← lift (number_of_clusters ← getitem run_parameters "number_of_clusters";
                 kn_perform_kmeans (to_float linkage_matrix) number_of_clusters);
  _ ← save_final_samples_clustering sample_names labels run_parameters;
  save_spreadsheet_and_variance_heatmap spreadsheet_df labels run_parameters
    (Some network_mat).

End Wrappers.

(** * Vocabulary of the properties *)

(** ** Adding a table of increments to an accumulator *)

(** Every update of an accumulator adds, cell by cell, a table of
    increments that does not depend on the accumulator's content. *)
Definition add_table (D : nat → nat → Z) (a : Np.matrix) : Np.matrix :=
  imap (λ i row, imap (λ j x, (x + D i j)%Z) row) a.

(** The row lengths of an array: its shape, also when there is no row. *)
Definition row_lengths (a : Np.matrix) : list nat := length <$> a.

(** An N×N array. *)
Definition square (N : nat) (a : Np.matrix) : Prop :=
  row_lengths a = replicate N N.

(** The increments of [a[idx[:, None], idx] += 1]. *)
Definition outer (idx : list nat) (i j : nat) : Z :=
  if bool_decide (i ∈ idx ∧ j ∈ idx) then 1%Z else 0%Z.

(** A step maps an accumulator to an updated one, or raises.  It is
    uniform when its success and its increments are the same for all
    accumulators of one shape. *)
Definition uniform (step : Np.matrix → result Np.matrix) : Prop :=
  ∀ a a', step a = Ok a' →
    ∃ D, a' = add_table D a ∧
         ∀ b, row_lengths b = row_lengths a → step b = Ok (add_table D b).

(** What one directory entry does to each accumulator. *)
Definition indicator_step (tree : gmap string (gmap string (list nat)))
    (tmp_dir tmp_f : string) (indicator_matrix : Np.matrix) : result Np.matrix :=
  if is_temp_p tmp_f
  then sample_permutation ← np_load tree tmp_dir tmp_f;
       update_indicator_matrix sample_permutation indicator_matrix
  else Ok indicator_matrix.

Definition linkage_step (tree : gmap string (gmap string (list nat)))
    (tmp_dir tmp_f : string) (linkage_matrix : Np.matrix) : result Np.matrix :=
  if is_temp_p tmp_f
  then sample_permutation ← np_load tree tmp_dir tmp_f;
       h_mat ← np_load tree tmp_dir (h_name tmp_f);
       update_linkage_matrix (Labels h_mat) sample_permutation linkage_matrix
  else Ok linkage_matrix.

(** ** Scans as sequences of steps *)

Fixpoint run_steps (steps : list (Np.matrix → result Np.matrix)) (a : Np.matrix)
    : result Np.matrix :=
  match steps with
  | [] => Ok a
  | step :: steps' => step a ≫= run_steps steps'
  end.

(** An enumeration order lists what is there, each entry once. *)
Definition enumeration (order : list string → list string) : Prop :=
  ∀ l, order l ≡ₚ l.

(** ** What one record adds *)

(** Samples [i] and [j] are both retained by a record. *)
Definition co_sampled (perm : list nat) (i j : nat) : Prop := i ∈ perm ∧ j ∈ perm.

(** Samples [i] and [j] are both retained and carry the same cluster id. *)
Definition co_clustered (perm assign : list nat) (i j : nat) : Prop :=
  Exists (λ ic, ic.1 = i ∧ (j, ic.2) ∈ zip perm assign) (zip perm assign).

#[global] Instance co_sampled_dec perm i j : Decision (co_sampled perm i j).
Proof. unfold co_sampled. apply _. Defined.

#[global] Instance co_clustered_dec perm assign i j :
  Decision (co_clustered perm assign i j).
Proof. unfold co_clustered. apply _. Defined.

(** The increments of the cluster loop. *)
Definition cluster_table (clusters cluster_id sample_perm : list nat) (i j : nat) : Z :=
  foldr (λ c acc, (outer (Np.select sample_perm (Np.eq_scalar cluster_id c)) i j + acc)%Z)
        0%Z clusters.

(** One record's contribution to the linkage accumulator. *)
Definition linked (perm assign : list nat) (i j : nat) : Z :=
  if bool_decide (co_clustered perm assign i j) then 1%Z else 0%Z.

(** One record's contribution to the indicator accumulator. *)
Definition sampled (perm : list nat) (i j : nat) : Z :=
  if bool_decide (co_sampled perm i j) then 1%Z else 0%Z.

(** ** The records behind a scan *)

(** A persisted record: the permutation and the assignment vector. *)
Definition record : Type := list nat * list nat.

(** The record a directory entry stands for: a [temp_p] file together with
    the [temp_h] file the linkage scan pairs with it. *)
Definition record_of (tree : gmap string (gmap string (list nat)))
    (tmp_dir tmp_f : string) : option record :=
  if is_temp_p tmp_f
  then perm ← tree !! tmp_dir ≫= (λ files, files !! tmp_f);
       assign ← tree !! tmp_dir ≫= (λ files, files !! h_name tmp_f);
       Some (perm, assign)
  else None.

Definition persisted_records (tree : gmap string (gmap string (list nat)))
    (tmp_dir : string) (dir_list : list string) : list record :=
  omap (record_of tree tmp_dir) dir_list.

(** The records of the directory a run scans. *)
Definition scanned_records (order : list string → list string)
    (tree : gmap string (gmap string (list nat)))
    (run_parameters : gmap string pyval) : list record :=
  match scan_directory run_parameters with
  | Ok tmp_dir =>
      match tree !! tmp_dir with
      | Some files => persisted_records tree tmp_dir (order (elements (dom files)))
      | None => []
      end
  | Raise _ => []
  end.

(** Number of records in which [i] and [j] are linked, resp. sampled. *)
Definition linkage_count (records : list record) (i j : nat) : Z :=
  foldr (λ r acc, (linked r.1 r.2 i j + acc)%Z) 0%Z records.

Definition indicator_count (records : list record) (i j : nat) : Z :=
  foldr (λ r acc, (sampled r.1 i j + acc)%Z) 0%Z records.

(** Both scans succeed on N×N accumulators when every [temp_p] entry has
    its [temp_h] partner and the records are well formed and not empty. *)
Definition well_formed (N : nat) (r : record) : Prop :=
  NoDup r.1 ∧ Forall (λ i, i < N) r.1 ∧ length r.2 = length r.1.

Definition paired (tree : gmap string (gmap string (list nat)))
    (tmp_dir : string) (dir_list : list string) : Prop :=
  ∀ tmp_f, tmp_f ∈ dir_list → is_temp_p tmp_f → is_Some (record_of tree tmp_dir tmp_f).

(** An accumulator reads the same across its diagonal. *)
Definition symmetric (a : Np.matrix) : Prop :=
  ∀ i j, Np.entry a i j = Np.entry a j i.

(** Two directories hold the same records: they agree on every [temp_p]
    file and on the [temp_h] file paired with it. *)
Definition same_records (files1 files2 : gmap string (list nat)) : Prop :=
  ∀ tmp_f, is_temp_p tmp_f →
    files1 !! tmp_f = files2 !! tmp_f ∧
    (is_Some (files1 !! tmp_f) → files1 !! h_name tmp_f = files2 !! h_name tmp_f).

(** Linkage entries lie between zero and the indicator entries. *)
Definition dominated (L I : Np.matrix) : Prop :=
  ∀ i j l k, Np.entry L i j = Some l → Np.entry I i j = Some k → (0 ≤ l ≤ k)%Z.

(** Linkage and indicator entries are not negative, and the linkage entry
    is zero where the indicator entry is. *)
Definition supported (L I : Np.matrix) : Prop :=
  ∀ i j l k, Np.entry L i j = Some l → Np.entry I i j = Some k →
    (0 ≤ l)%Z ∧ (0 ≤ k)%Z ∧ (k = 0%Z → l = 0%Z).

(** Two readings of a consensus entry that agree in value. *)
Definition same_value (c1 c2 : option Q) : Prop :=
  match c1, c2 with
  | Some x, Some y => (x == y)%Q
  | None, None => True
  | _, _ => False
  end.

(** Entry [r], [j] of a factor matrix given by rows. *)
Definition cell (h_matrix : list (list Q)) (r j : nat) : Q :=
  nth j (nth r h_matrix []) 0%Q.

(** [r] is the dominant factor of column [j]: the first row that holds the
    greatest entry of the column. *)
Definition dominant (h_matrix : list (list Q)) (j r : nat) : Prop :=
  r < length h_matrix ∧
  (∀ r', r' < length h_matrix → (cell h_matrix r' j <= cell h_matrix r j)%Q) ∧
  (∀ r', r' < r → (cell h_matrix r' j < cell h_matrix r j)%Q).

(** The content of a directory, empty when it does not exist yet. *)
Definition files_of (w : world) (d : string) : gmap string (list nat) :=
  default ∅ (fs w !! d).

(** What a refused run leaves behind: nothing, or one new directory with
    no file in it. *)
Definition left_behind (w w' : world) : Prop :=
  w' = w ∨
  ∃ d, fs w !! d = None ∧ w' = World (<[d := ∅]> (fs w)) (time_time w).

(** ** Characters of a name *)

(** The character [c] occurs in the string [s]. *)
Fixpoint occurs (c : ascii) (s : string) : bool :=
  match s with
  | EmptyString => false
  | String c' s' => Ascii.eqb c' c || occurs c s'
  end.

(** ** A small store used in the worked examples *)

Module Ex.

(** One record: samples 0 and 1 retained, both in cluster 0. *)
Definition files_base : gmap string (list nat) :=
  {[ "temp_p_N0_1" := [0; 1]; "temp_h_N0_1" := [0; 0] ]}.

(** The same record next to a file that is no record. *)
Definition files1 : gmap string (list nat) := <["notes" := [7]]> files_base.

Definition tree1 : gmap string (gmap string (list nat)) := {[ "tmp" := files1 ]}.

Definition tree2 : gmap string (gmap string (list nat)) := {[ "tmp" := files_base ]}.

Definition params1 : gmap string pyval :=
  {[ "processing_method" := PStr "serial"; "tmp_directory" := PStr "tmp" ]}.

(** A directory all of whose workers were lost. *)
Definition files_lost : gmap string (list nat) := {[ "notes" := [7] ]}.

Definition tree_lost : gmap string (gmap string (list nat)) :=
  {[ "tmp" := files_lost ]}.

(** Collaborators for the examples: no data, no network, a clock-stamped
    name after the copy of the naming helper kept with the tests
    ([name_base + '_' + timestamp]); the dispatchers run every job in
    turn. *)
#[local] Instance stub : Collaborators := {|
  dataframe := unit;
  spreadsheet := unit;
  network_frame := unit;
  sparse := unit;
  names := unit;
  listdir_order := id;
  float_of_str := λ _, Raise (ValueError "could not convert string to float");
  kn_create_timestamped_filename := λ name_base _ precision w,
    (Ok (name_base +:+ "_" +:+ pretty (py_int (time_time w * precision)%Q)), w);
  kn_get_spreadsheet_df := λ _ _, Ok ();
  kn_get_network_df := λ _ _, Ok ();
  as_matrix := λ _, ();
  columns := λ _, ["a"; "b"];
  shape_1 := λ _, 2;
  kn_get_quantile_norm_matrix := λ _, Ok ();
  kn_extract_network_node_names := λ _, Ok ((), ());
  kn_find_unique_node_names := λ _ _, Ok ();
  names_len := λ _, 0;
  kn_create_node_names_dict := λ _, Ok ∅;
  kn_map_node_names_to_index := λ _ _ _, Ok ();
  kn_symmetrize_df := λ _, Ok ();
  kn_convert_network_df_to_sparse := λ _ _ _, Ok ();
  kn_normalize_sparse_mat_by_diagonal := λ _, Ok ();
  kn_form_network_laplacian_matrix := λ _, Ok ((), ());
  kn_update_spreadsheet_df := λ _ _, Ok ();
  kn_sample_a_matrix := λ _ _ _ w, (Ok ((), [0; 1]), w);
  kn_smooth_matrix_with_rwr := λ _ _ _, Ok ((), 0);
  kn_perform_nmf := λ _ _ w, (Ok [[1; 0]; [0; 1]]%Q, w);
  kn_perform_net_nmf := λ _ _ _ _ w, (Ok [[1; 0]; [0; 1]]%Q, w);
  kn_perform_kmeans := λ _ _, Ok [0; 1];
  dstutil_parallelize_processes_locally := λ A worker jobs _,
    foldr (λ job rest, _ ← worker job; rest) (mret ()) jobs;
  dstutil_execute_distribute_computing_job := λ _ number in_parallel,
    in_parallel number;
  save_consensus_clustering := λ _ _ _ _, mret ();
  save_final_samples_clustering := λ _ _ _, mret ();
  save_spreadsheet_and_variance_heatmap := λ _ _ _ _, mret ()
|}.

(** A run directory with nothing in it yet, at a quarter past. *)
Definition world0 : world := World {[ "/run" := ∅ ]} (15 # 1)%Q.

(** A world whose temporary directory exists and is empty. *)
Definition world_tmp : world := World {[ "tmp" := ∅ ]} (15 # 1)%Q.

(** A configuration with a misspelt execution strategy. *)
Definition params_bad : gmap string pyval :=
  {[ "processing_method" := PStr "paralel";
     "run_directory" := PStr "/run";
     "spreadsheet_name_full_path" := PStr "/data/spreadsheet.tsv";
     "gg_network_name_full_path" := PStr "/data/network.edge";
     "number_of_bootstraps" := PInt 3;
     "number_of_clusters" := PInt 2 ]}.

(** A two-factor matrix over three retained samples. *)
Definition h3 : list (list Q) :=
  [[3 # 1; 1 # 2; 2 # 1]; [1 # 1; 4 # 1; 2 # 1]]%Q.

End Ex.

(** * Properties *)

Example update_indicator_matrix_ex :
  update_indicator_matrix [2; 0] (Np.zeros 3 3)
  = Ok [[1; 0; 1]; [0; 0; 0]; [1; 0; 1]]%Z.
Proof. vm_compute. reflexivity. Qed.

Example update_linkage_matrix_ex :
  update_linkage_matrix (Labels [1; 0; 1]) [2; 0; 1] (Np.zeros 3 3)
  = Ok [[1; 0; 0]; [0; 1; 1]; [0; 1; 1]]%Z.
Proof. vm_compute. reflexivity. Qed.

Example join_ex : OsPath.join "/run" "tmp_cc_nmf17" = "/run/tmp_cc_nmf17".
Proof. reflexivity. Qed.

Example basename_normpath_ex :
  OsPath.basename (OsPath.normpath "/run//a/../tmp_cc_nmf17/") = "tmp_cc_nmf17".
Proof. vm_compute. reflexivity. Qed.

Lemma entry_add_table D a i j :
    Np.entry (add_table D a) i j = (λ x, (x + D i j)%Z) <$> Np.entry a i j.
  Proof.
    unfold Np.entry, add_table. rewrite list_lookup_imap.
    destruct (a !! i) as [row|]; simpl; [|done].
    by rewrite list_lookup_imap.
  Qed.

Lemma row_lengths_add_table D a : row_lengths (add_table D a) = row_lengths a.
  Proof.
    unfold row_lengths, add_table. rewrite fmap_imap.
    rewrite <- (imap_const length a) at 1. apply imap_ext.
    intros i row _. simpl. by rewrite length_imap.
  Qed.

Lemma add_table_ext D E a :
    (∀ i j, D i j = E i j) → add_table D a = add_table E a.
  Proof.
    intros HDE. unfold add_table. apply imap_ext. intros i row _.
    apply imap_ext. intros j x _. by rewrite HDE.
  Qed.

Lemma imap_imap {A B C} (f : nat → B → C) (g : nat → A → B) (l : list A) :
    imap f (imap g l) = imap (λ i x, f i (g i x)) l.
  Proof.
    revert f g. induction l as [|x l IH]; intros f g; [done|].
    simpl. f_equal. apply IH.
  Qed.

Lemma add_table_add_table D E a :
    add_table D (add_table E a) = add_table (λ i j, (E i j + D i j)%Z) a.
  Proof.
    unfold add_table. rewrite imap_imap. apply imap_ext. intros i row _.
    rewrite imap_imap. apply imap_ext. intros j x _. lia.
  Qed.

Lemma add_table_comm D E a :
    add_table D (add_table E a) = add_table E (add_table D a).
  Proof.
    rewrite !add_table_add_table. apply add_table_ext. intros; lia.
  Qed.

Lemma add_table_zero a : add_table (λ _ _, 0%Z) a = a.
  Proof.
    apply list_eq. intros i. unfold add_table. rewrite list_lookup_imap.
    destruct (a !! i) as [row|]; simpl; [|done]. f_equal.
    apply list_eq. intros j. rewrite list_lookup_imap.
    destruct (row !! j); simpl; [|done]. f_equal. lia.
  Qed.

Lemma shape0_row_lengths a b :
    row_lengths a = row_lengths b → Np.shape0 a = Np.shape0 b.
  Proof.
    unfold row_lengths, Np.shape0. intros Hab.
    by rewrite <- (length_fmap length a), Hab, length_fmap.
  Qed.

Lemma shape1_row_lengths a b :
    row_lengths a = row_lengths b → Np.shape1 a = Np.shape1 b.
  Proof.
    unfold row_lengths. destruct a, b; simpl; intros Hab; by simplify_eq.
  Qed.

Lemma square_zeros N : square N (Np.zeros N N).
  Proof.
    unfold square, row_lengths, Np.zeros.
    by rewrite fmap_replicate, length_replicate.
  Qed.

Lemma square_add_table N D a : square N a → square N (add_table D a).
  Proof. unfold square. by rewrite row_lengths_add_table. Qed.

Lemma square_shape0 N a : square N a → Np.shape0 a = N.
  Proof.
    unfold square, row_lengths, Np.shape0. intros Ha.
    by rewrite <- (length_fmap length a), Ha, length_replicate.
  Qed.

Lemma square_shape1 N a : square N a → Np.shape1 a = N.
  Proof.
    unfold square, row_lengths. destruct a as [|row a], N as [|N]; simpl; try done.
    intros Ha. by simplify_eq.
  Qed.

Lemma square_entry N a i j : square N a → i < N → j < N → is_Some (Np.entry a i j).
  Proof.
    unfold square, row_lengths, Np.entry. intros Ha Hi Hj.
    assert (Hl : (length <$> a) !! i = Some N)
      by (rewrite Ha; by apply lookup_replicate_2).
    rewrite list_lookup_fmap in Hl.
    destruct (a !! i) as [row|]; simpl in *; [|done].
    apply lookup_lt_is_Some. by simplify_eq.
  Qed.

Lemma entry_zeros N i j : i < N → j < N → Np.entry (Np.zeros N N) i j = Some 0%Z.
  Proof.
    intros Hi Hj. unfold Np.entry, Np.zeros.
    rewrite lookup_replicate_2 by done. simpl. by rewrite lookup_replicate_2.
  Qed.

(** ** Steps that only depend on the accumulator's shape *)

Lemma bind_Ok {A B} (m : result A) (f : A → result B) b :
  m ≫= f = Ok b ↔ ∃ a, m = Ok a ∧ f a = Ok b.
Proof.
  destruct m as [a|e]; unfold mbind, result_bind; simpl; split.
  - eauto.
  - by intros (? & [= <-] & ?).
  - done.
  - by intros (? & ? & ?).
Qed.

Lemma result_bind_Ok {A B} (a : A) (f : A → result B) : Ok a ≫= f = f a.
Proof. done. Qed.

Lemma iadd_outer_eq idx (a : Np.matrix) :
  Np.iadd_outer idx a =
  if bool_decide (Forall (λ i, i < Np.shape0 a ∧ i < Np.shape1 a) idx)
  then Ok (add_table (outer idx) a) else Raise IndexError.
Proof.
  unfold Np.iadd_outer. case_bool_decide; [|done]. f_equal.
  unfold add_table. apply imap_ext. intros i row _. simpl.
  unfold outer. case_bool_decide as Hi.
  - apply imap_ext. intros j x _. simpl.
    repeat case_bool_decide; try lia; naive_solver.
  - rewrite <- (list_fmap_id row) at 1. rewrite <- imap_const.
    apply imap_ext. intros j x _. simpl.
    case_bool_decide; [naive_solver|]. lia.
Qed.

Lemma iadd_outer_square N idx (a : Np.matrix) :
  square N a → Forall (λ i, i < N) idx →
  Np.iadd_outer idx a = Ok (add_table (outer idx) a).
Proof.
  intros Ha Hidx. rewrite iadd_outer_eq.
  rewrite (square_shape0 N), (square_shape1 N) by done.
  rewrite bool_decide_eq_true_2; [done|].
  eapply Forall_impl; [done|]. naive_solver.
Qed.

Lemma uniform_ret : uniform Ok.
Proof.
  intros a a' [= <-]. exists (λ _ _, 0%Z). split.
  - by rewrite add_table_zero.
  - intros b _. by rewrite add_table_zero.
Qed.

Lemma uniform_bind step1 step2 :
  uniform step1 → uniform step2 → uniform (λ a, step1 a ≫= step2).
Proof.
  intros H1 H2 a a' (a1 & Ha1 & Ha')%bind_Ok.
  destruct (H1 _ _ Ha1) as (D1 & -> & Hb1).
  destruct (H2 _ _ Ha') as (D2 & -> & Hb2).
  exists (λ i j, (D1 i j + D2 i j)%Z). split.
  - apply add_table_add_table.
  - intros b Hb. rewrite (Hb1 b Hb). unfold mbind, result_bind.
    rewrite Hb2 by (by rewrite !row_lengths_add_table).
    by rewrite add_table_add_table.
Qed.

Lemma uniform_iadd_outer idx : uniform (Np.iadd_outer idx).
Proof.
  intros a a' Ha. rewrite iadd_outer_eq in Ha.
  case_bool_decide as Hin; [|done]. simplify_eq.
  exists (outer idx). split; [done|]. intros b Hb.
  rewrite iadd_outer_eq, (shape0_row_lengths b a), (shape1_row_lengths b a) by done.
  by rewrite bool_decide_eq_true_2.
Qed.

Lemma uniform_raise e : uniform (λ _, Raise e).
Proof. by intros a a' ?. Qed.

Lemma uniform_cluster_loop clusters cluster_id sample_perm :
  uniform (cluster_loop clusters cluster_id sample_perm).
Proof.
  induction clusters as [|c clusters IH]; [apply uniform_ret|].
  simpl. destruct (Np.take_mask _ _) as [slice_id|e]; unfold mbind at 1; simpl.
  - apply (uniform_bind (Np.iadd_outer slice_id)); [apply uniform_iadd_outer | done].
  - apply uniform_raise.
Qed.

Lemma uniform_update_linkage_matrix encode_mat sample_perm :
  uniform (update_linkage_matrix encode_mat sample_perm).
Proof.
  unfold update_linkage_matrix.
  destruct (match encode_mat with Labels _ => _ | Factors _ => _ end)
    as [[num_clusters cluster_id]|e]; unfold mbind at 1; simpl.
  - apply uniform_cluster_loop.
  - apply uniform_raise.
Qed.

Lemma uniform_update_indicator_matrix sample_perm :
  uniform (update_indicator_matrix sample_perm).
Proof. apply uniform_iadd_outer. Qed.

Lemma indicator_scan_cons tree tmp_dir tmp_f dir_list a :
  indicator_scan tree tmp_dir (tmp_f :: dir_list) a
  = indicator_step tree tmp_dir tmp_f a ≫= indicator_scan tree tmp_dir dir_list.
Proof. done. Qed.

Lemma linkage_scan_cons tree tmp_dir tmp_f dir_list a :
  linkage_scan tree tmp_dir (tmp_f :: dir_list) a
  = linkage_step tree tmp_dir tmp_f a ≫= linkage_scan tree tmp_dir dir_list.
Proof. done. Qed.

Lemma uniform_indicator_step tree tmp_dir tmp_f :
  uniform (indicator_step tree tmp_dir tmp_f).
Proof.
  unfold indicator_step. destruct (is_temp_p tmp_f); [|apply uniform_ret].
  destruct (np_load tree tmp_dir tmp_f) as [perm|e]; unfold mbind at 1; simpl.
  - apply uniform_update_indicator_matrix.
  - apply uniform_raise.
Qed.

Lemma uniform_linkage_step tree tmp_dir tmp_f :
  uniform (linkage_step tree tmp_dir tmp_f).
Proof.
  unfold linkage_step. destruct (is_temp_p tmp_f); [|apply uniform_ret].
  destruct (np_load tree tmp_dir tmp_f) as [perm|e]; unfold mbind at 1; simpl;
    [|apply uniform_raise].
  destruct (np_load tree tmp_dir (h_name tmp_f)) as [h|e]; unfold mbind at 1; simpl.
  - apply uniform_update_linkage_matrix.
  - apply uniform_raise.
Qed.

Lemma indicator_scan_steps tree tmp_dir dir_list a :
  indicator_scan tree tmp_dir dir_list a
  = run_steps (indicator_step tree tmp_dir <$> dir_list) a.
Proof.
  revert a. induction dir_list as [|tmp_f dir_list IH]; intros a; [done|].
  rewrite indicator_scan_cons. simpl.
  destruct (indicator_step tree tmp_dir tmp_f a); unfold mbind, result_bind; simpl; auto.
Qed.

Lemma linkage_scan_steps tree tmp_dir dir_list a :
  linkage_scan tree tmp_dir dir_list a
  = run_steps (linkage_step tree tmp_dir <$> dir_list) a.
Proof.
  revert a. induction dir_list as [|tmp_f dir_list IH]; intros a; [done|].
  rewrite linkage_scan_cons. simpl.
  destruct (linkage_step tree tmp_dir tmp_f a); unfold mbind, result_bind; simpl; auto.
Qed.

Lemma run_steps_Permutation steps1 steps2 :
  steps1 ≡ₚ steps2 → Forall uniform steps1 →
  ∀ a a', run_steps steps1 a = Ok a' → run_steps steps2 a = Ok a'.
Proof.
  induction 1 as [|step l1 l2 Hperm IH|step1 step2 l|l1 l2 l3 H12 IH12 H23 IH23];
    intros Huni a a' Hrun.
  - done.
  - apply Forall_cons in Huni as [Hstep Huni]. simpl in *.
    apply bind_Ok in Hrun as (a1 & Ha1 & Hrun). apply bind_Ok. eauto.
  - apply Forall_cons in Huni as [H2 [H1 _]%Forall_cons]. simpl in *.
    apply bind_Ok in Hrun as (a1 & Ha1 & Hrun).
    apply bind_Ok in Hrun as (a2 & Ha2 & Hrun).
    destruct (H2 _ _ Ha1) as (D2 & -> & Hb2).
    destruct (H1 _ _ Ha2) as (D1 & -> & Hb1).
    apply bind_Ok. exists (add_table D1 a). split.
    { apply Hb1. by rewrite row_lengths_add_table. }
    apply bind_Ok. exists (add_table D2 (add_table D1 a)). split.
    { apply Hb2. by rewrite row_lengths_add_table. }
    by rewrite add_table_comm.
  - apply IH23; [by rewrite <- H12|]. by apply IH12.
Qed.

Lemma indicator_scan_Permutation tree tmp_dir l1 l2 a a' :
  l1 ≡ₚ l2 →
  indicator_scan tree tmp_dir l1 a = Ok a' → indicator_scan tree tmp_dir l2 a = Ok a'.
Proof.
  rewrite !indicator_scan_steps. intros Hperm.
  apply run_steps_Permutation; [by apply fmap_Permutation|].
  apply Forall_fmap, Forall_forall. intros tmp_f _. apply uniform_indicator_step.
Qed.

Lemma linkage_scan_Permutation tree tmp_dir l1 l2 a a' :
  l1 ≡ₚ l2 →
  linkage_scan tree tmp_dir l1 a = Ok a' → linkage_scan tree tmp_dir l2 a = Ok a'.
Proof.
  rewrite !linkage_scan_steps. intros Hperm.
  apply run_steps_Permutation; [by apply fmap_Permutation|].
  apply Forall_fmap, Forall_forall. intros tmp_f _. apply uniform_linkage_step.
Qed.

Lemma get_indicator_matrix_Ok order tree run_parameters a a' :
  get_indicator_matrix order tree run_parameters a = Ok a' ↔
  ∃ tmp_dir files,
    scan_directory run_parameters = Ok tmp_dir ∧ tree !! tmp_dir = Some files ∧
    indicator_scan tree tmp_dir (order (elements (dom files))) a = Ok a'.
Proof.
  unfold get_indicator_matrix, os_listdir. split.
  - intros (tmp_dir & Hdir & Hscan)%bind_Ok.
    destruct (tree !! tmp_dir) as [files|] eqn:Hfiles;
      apply bind_Ok in Hscan as (dir_list & [= <-] & Hscan); eauto.
  - intros (tmp_dir & files & Hdir & Hfiles & Hscan).
    apply bind_Ok. exists tmp_dir. split; [done|]. by rewrite Hfiles.
Qed.

Lemma get_linkage_matrix_Ok order tree run_parameters a a' :
  get_linkage_matrix order tree run_parameters a = Ok a' ↔
  ∃ tmp_dir files,
    scan_directory run_parameters = Ok tmp_dir ∧ tree !! tmp_dir = Some files ∧
    linkage_scan tree tmp_dir (order (elements (dom files))) a = Ok a'.
Proof.
  unfold get_linkage_matrix, os_listdir. split.
  - intros (tmp_dir & Hdir & Hscan)%bind_Ok.
    destruct (tree !! tmp_dir) as [files|] eqn:Hfiles;
      apply bind_Ok in Hscan as (dir_list & [= <-] & Hscan); eauto.
  - intros (tmp_dir & files & Hdir & Hfiles & Hscan).
    apply bind_Ok. exists tmp_dir. split; [done|]. by rewrite Hfiles.
Qed.

Lemma get_indicator_matrix_order order1 order2 tree run_parameters a a' :
  enumeration order1 → enumeration order2 →
  get_indicator_matrix order1 tree run_parameters a = Ok a' →
  get_indicator_matrix order2 tree run_parameters a = Ok a'.
Proof.
  intros H1 H2. rewrite !get_indicator_matrix_Ok.
  intros (tmp_dir & files & Hdir & Hfiles & Hscan).
  exists tmp_dir, files. split_and!; [done..|].
  eapply indicator_scan_Permutation; [|done]. etrans; [apply H1 | symmetry; apply H2].
Qed.

Lemma get_linkage_matrix_order order1 order2 tree run_parameters a a' :
  enumeration order1 → enumeration order2 →
  get_linkage_matrix order1 tree run_parameters a = Ok a' →
  get_linkage_matrix order2 tree run_parameters a = Ok a'.
Proof.
  intros H1 H2. rewrite !get_linkage_matrix_Ok.
  intros (tmp_dir & files & Hdir & Hfiles & Hscan).
  exists tmp_dir, files. split_and!; [done..|].
  eapply linkage_scan_Permutation; [|done]. etrans; [apply H1 | symmetry; apply H2].
Qed.

Lemma form_consensus_matrix_Ok order tree run_parameters L0 I0 C :
  form_consensus_matrix order tree run_parameters L0 I0 = Ok C ↔
  ∃ L I,
    get_indicator_matrix order tree run_parameters I0 = Ok I ∧
    get_linkage_matrix order tree run_parameters L0 = Ok L ∧
    Np.divide L (Np.maximum I 1) = Ok C.
Proof.
  unfold form_consensus_matrix. split.
  - intros (I & HI & (L & HL & HC)%bind_Ok)%bind_Ok. eauto.
  - intros (L & I & HI & HL & HC). apply bind_Ok. exists I. split; [done|].
    apply bind_Ok. eauto.
Qed.

Lemma form_consensus_matrix_order order1 order2 tree run_parameters L0 I0 C :
  enumeration order1 → enumeration order2 →
  form_consensus_matrix order1 tree run_parameters L0 I0 = Ok C →
  form_consensus_matrix order2 tree run_parameters L0 I0 = Ok C.
Proof.
  intros H1 H2. rewrite !form_consensus_matrix_Ok.
  intros (L & I & HI & HL & HC). exists L, I.
  eauto using get_indicator_matrix_order, get_linkage_matrix_order.
Qed.

Lemma elem_of_zip_lookup (perm assign : list nat) i c :
  (i, c) ∈ zip perm assign ↔ ∃ p, perm !! p = Some i ∧ assign !! p = Some c.
Proof.
  rewrite list_elem_of_lookup. split.
  - intros (p & Hp). apply lookup_zip_with_Some in Hp as (x & y & [= -> ->] & ? & ?).
    eauto.
  - intros (p & Hi & Hc). exists p. apply lookup_zip_with_Some. eauto.
Qed.

Lemma co_clustered_lookup perm assign i j :
  co_clustered perm assign i j ↔
  ∃ p q c, perm !! p = Some i ∧ perm !! q = Some j ∧
           assign !! p = Some c ∧ assign !! q = Some c.
Proof.
  unfold co_clustered. rewrite Exists_exists. split.
  - intros ([i' c] & Hic & Hi & Hj). simpl in *. subst i'.
    apply elem_of_zip_lookup in Hic as (p & ? & ?).
    apply elem_of_zip_lookup in Hj as (q & ? & ?). eauto 10.
  - intros (p & q & c & Hp & Hq & Hcp & Hcq). exists (i, c). simpl.
    split_and!; [|done|]; apply elem_of_zip_lookup; eauto.
Qed.

Lemma co_clustered_co_sampled perm assign i j :
  co_clustered perm assign i j → co_sampled perm i j.
Proof.
  intros (p & q & c & Hp & Hq & _)%co_clustered_lookup.
  split; eapply list_elem_of_lookup_2; eauto.
Qed.

Lemma elem_of_select (perm assign : list nat) c i :
  length assign = length perm →
  i ∈ Np.select perm (Np.eq_scalar assign c) ↔ (i, c) ∈ zip perm assign.
Proof.
  revert assign. induction perm as [|x perm IH]; intros [|y assign] Hlen;
    simplify_eq/=; [set_solver|].
  case_bool_decide as Hy; rewrite ?elem_of_cons, IH by done; naive_solver.
Qed.

Lemma zip_functional (perm assign : list nat) i c c' :
  NoDup perm → (i, c) ∈ zip perm assign → (i, c') ∈ zip perm assign → c = c'.
Proof.
  intros Hnd (p & Hp & Hc)%elem_of_zip_lookup (q & Hq & Hc')%elem_of_zip_lookup.
  assert (p = q) as -> by eauto using NoDup_lookup. congruence.
Qed.

Lemma outer_select perm assign c i j :
  length assign = length perm →
  outer (Np.select perm (Np.eq_scalar assign c)) i j
  = if bool_decide ((i, c) ∈ zip perm assign ∧ (j, c) ∈ zip perm assign)
    then 1%Z else 0%Z.
Proof.
  intros Hlen. unfold outer.
  rewrite (bool_decide_ext _ ((i, c) ∈ zip perm assign ∧ (j, c) ∈ zip perm assign));
    [done|].
  by rewrite !elem_of_select.
Qed.

Lemma sum_at_most_one (f : nat → Z) (cs : list nat) :
  NoDup cs → (∀ c, f c = 0%Z ∨ f c = 1%Z) →
  (∀ c c', f c = 1%Z → f c' = 1%Z → c = c') →
  let s := foldr (λ c acc, (f c + acc)%Z) 0%Z cs in
  (s = 0%Z ∨ s = 1%Z) ∧ (s = 1%Z ↔ ∃ c, c ∈ cs ∧ f c = 1%Z).
Proof.
  intros Hnd H01 Huniq. induction Hnd as [|c cs Hc Hnd IH]; simpl.
  - split; [by left|]. split; [done|]. intros (c & Hc & _). by apply elem_of_nil in Hc.
  - destruct IH as [IH01 IH1]. destruct (H01 c) as [Hf|Hf]; rewrite Hf.
    + split; [destruct IH01; lia|]. rewrite Z.add_0_l, IH1. split.
      * intros (c' & ? & ?). exists c'. split; [by right|done].
      * intros (c' & [->|?]%elem_of_cons & ?); [congruence|eauto].
    + assert (Hs : foldr (λ c acc, (f c + acc)%Z) 0%Z cs = 0%Z).
      { destruct IH01 as [|Hs1]; [done|]. apply IH1 in Hs1 as (c' & Hc' & Hfc').
        rewrite (Huniq c c') in Hc by done. done. }
      rewrite Hs. split; [by right|]. split; [|done].
      intros _. exists c. split; [by left|done].
Qed.

Lemma init_le_foldl_max (x : nat) xs : (x ≤ foldl Nat.max x xs)%nat.
Proof.
  revert x. induction xs as [|y xs IH]; intros x; simpl; [done|].
  etrans; [|apply IH]. lia.
Qed.

Lemma le_py_max (x : nat) xs (c : nat) : c ∈ x :: xs → (c ≤ foldl Nat.max x xs)%nat.
Proof.
  revert x. induction xs as [|y xs IH]; intros x.
  - intros ->%list_elem_of_singleton. done.
  - simpl. intros [->|[->|Hc]%elem_of_cons]%elem_of_cons.
    + etrans; [|apply init_le_foldl_max]. lia.
    + etrans; [|apply init_le_foldl_max]. lia.
    + apply IH. by right.
Qed.

Lemma cluster_table_co_clustered perm assign m i j :
  NoDup perm → length assign = length perm → py_max assign = Ok m →
  cluster_table (seq 0 (m + 1)) assign perm i j
  = if bool_decide (co_clustered perm assign i j) then 1%Z else 0%Z.
Proof.
  intros Hnd Hlen Hmax. unfold cluster_table.
  pose (f := λ c, outer (Np.select perm (Np.eq_scalar assign c)) i j).
  destruct (sum_at_most_one f (seq 0 (m + 1))) as [H01 H1].
  - apply NoDup_seq.
  - intros c. unfold f, outer. case_bool_decide; auto.
  - intros c c'. unfold f. rewrite !outer_select by done.
    repeat case_bool_decide; try done. intros _ _.
    eapply zip_functional; [done|naive_solver..].
  - fold f in H01, H1 |- *. simpl in *.
    case_bool_decide as Hcc.
    + apply H1. apply Exists_exists in Hcc as ([i' c] & Hic & Hi & Hj).
      simpl in *. subst i'. exists c. split.
      * apply elem_of_seq. split; [lia|].
        destruct assign as [|x xs]; simplify_eq/=.
        assert (Hin : c ∈ x :: xs).
        { apply elem_of_zip_lookup in Hic as (p & _ & Hp).
          eapply list_elem_of_lookup_2. exact Hp. }
        pose proof (le_py_max x xs c Hin). lia.
      * unfold f. rewrite outer_select by done.
        by rewrite bool_decide_eq_true_2.
    + destruct H01 as [|Hs]; [done|]. exfalso. apply Hcc.
      apply H1 in Hs as (c & _ & Hfc). unfold f in Hfc.
      rewrite outer_select in Hfc by done. case_bool_decide as Hz; [|done].
      apply Exists_exists. exists (i, c). naive_solver.
Qed.

Lemma take_mask_Ok {A} (arr : list A) mask slice :
  Np.take_mask arr mask = Ok slice ↔ length mask = length arr ∧ slice = Np.select arr mask.
Proof. unfold Np.take_mask. case_bool_decide; naive_solver. Qed.

Lemma cluster_loop_Ok clusters cluster_id sample_perm a a' :
  cluster_loop clusters cluster_id sample_perm a = Ok a' →
  a' = add_table (cluster_table clusters cluster_id sample_perm) a
  ∧ (clusters ≠ [] → length cluster_id = length sample_perm).
Proof.
  revert a. induction clusters as [|c clusters IH]; intros a; simpl.
  - intros [= <-]. by rewrite add_table_zero.
  - intros (slice & [Hlen ->]%take_mask_Ok & (a1 & Ha1 & Hloop)%bind_Ok)%bind_Ok.
    rewrite iadd_outer_eq in Ha1. case_bool_decide; [|done]. simplify_eq.
    apply IH in Hloop as [-> _]. split.
    + rewrite add_table_add_table. done.
    + intros _. unfold Np.eq_scalar in Hlen. by rewrite length_fmap in Hlen.
Qed.

Lemma update_linkage_matrix_Labels_Ok h perm a a' :
  update_linkage_matrix (Labels h) perm a = Ok a' →
  ∃ m, py_max h = Ok m ∧ length h = length perm ∧
       a' = add_table (cluster_table (seq 0 (m + 1)) h perm) a.
Proof.
  unfold update_linkage_matrix.
  intros ([n cid] & (m & Hm & [= <- <-])%bind_Ok & Hloop)%bind_Ok.
  apply cluster_loop_Ok in Hloop as [-> Hlen]. exists m. split_and!; [done| |done].
  apply Hlen. rewrite Nat.add_1_r. done.
Qed.

Lemma update_linkage_matrix_record h perm a a' :
  NoDup perm →
  update_linkage_matrix (Labels h) perm a = Ok a' →
  a' = add_table (linked perm h) a.
Proof.
  intros Hnd (m & Hm & Hlen & ->)%update_linkage_matrix_Labels_Ok.
  apply add_table_ext. intros i j. by apply cluster_table_co_clustered.
Qed.

Lemma update_indicator_matrix_record perm a a' :
  update_indicator_matrix perm a = Ok a' → a' = add_table (sampled perm) a.
Proof.
  unfold update_indicator_matrix. rewrite iadd_outer_eq.
  case_bool_decide; [|done]. by intros [= <-].
Qed.

Lemma linked_le_sampled perm assign i j :
  (0 ≤ linked perm assign i j ≤ sampled perm i j)%Z.
Proof.
  unfold linked, sampled. case_bool_decide as Hl.
  - apply co_clustered_co_sampled in Hl. rewrite bool_decide_eq_true_2 by done. lia.
  - case_bool_decide; lia.
Qed.

Lemma co_sampled_sym perm i j : co_sampled perm i j ↔ co_sampled perm j i.
Proof. unfold co_sampled. naive_solver. Qed.

Lemma co_clustered_sym perm assign i j :
  co_clustered perm assign i j ↔ co_clustered perm assign j i.
Proof. rewrite !co_clustered_lookup. naive_solver. Qed.

Lemma outer_sym idx i j : outer idx i j = outer idx j i.
Proof. unfold outer. apply (f_equal (λ b : bool, if b then _ else _)),
  bool_decide_ext. naive_solver. Qed.

Lemma cluster_table_sym clusters cluster_id sample_perm i j :
  cluster_table clusters cluster_id sample_perm i j
  = cluster_table clusters cluster_id sample_perm j i.
Proof.
  unfold cluster_table. induction clusters as [|c clusters IH]; simpl; [done|].
  by rewrite IH, outer_sym.
Qed.

(** Success of the two updates on an N×N accumulator. *)
Lemma update_indicator_matrix_total N perm a :
  square N a → Forall (λ i, i < N) perm →
  update_indicator_matrix perm a = Ok (add_table (sampled perm) a).
Proof. intros. by eapply iadd_outer_square. Qed.

Lemma select_subseteq {A} (arr : list A) mask : Np.select arr mask ⊆ arr.
Proof.
  revert mask. induction arr as [|x arr IH]; intros [|[] mask]; simpl;
    try specialize (IH mask); set_solver.
Qed.

Lemma cluster_loop_total N clusters cluster_id sample_perm a :
  square N a → Forall (λ i, i < N) sample_perm →
  length cluster_id = length sample_perm →
  cluster_loop clusters cluster_id sample_perm a
  = Ok (add_table (cluster_table clusters cluster_id sample_perm) a).
Proof.
  intros Ha Hperm Hlen. revert a Ha.
  induction clusters as [|c clusters IH]; intros a Ha; simpl.
  - by rewrite add_table_zero.
  - unfold Np.take_mask, Np.eq_scalar. rewrite length_fmap.
    rewrite bool_decide_eq_true_2 by done. unfold mbind at 1; simpl.
    erewrite iadd_outer_square; [|done|].
    + unfold mbind, result_bind. rewrite IH by (by apply square_add_table).
      by rewrite add_table_add_table.
    + rewrite Forall_forall in Hperm |- *. intros i Hi. apply Hperm.
      by eapply select_subseteq.
Qed.

Lemma update_linkage_matrix_total N h perm a :
  square N a → Forall (λ i, i < N) perm → NoDup perm →
  length h = length perm → h ≠ [] →
  update_linkage_matrix (Labels h) perm a = Ok (add_table (linked perm h) a).
Proof.
  intros Ha Hperm Hnd Hlen Hne. unfold update_linkage_matrix.
  destruct h as [|x xs]; [done|]. simpl.
  erewrite cluster_loop_total by done. f_equal.
  apply add_table_ext. intros i j. by apply cluster_table_co_clustered.
Qed.

Lemma linkage_count_length records i j :
  linkage_count records i j
  = Z.of_nat (length (filter (λ r : record, co_clustered r.1 r.2 i j) records)).
Proof.
  induction records as [|r records IH]; [done|].
  simpl. rewrite filter_cons, IH. unfold linked.
  case_bool_decide; case_decide; try done; simpl; lia.
Qed.

Lemma indicator_count_length records i j :
  indicator_count records i j
  = Z.of_nat (length (filter (λ r : record, co_sampled r.1 i j) records)).
Proof.
  induction records as [|r records IH]; [done|].
  simpl. rewrite filter_cons, IH. unfold sampled.
  case_bool_decide; case_decide; try done; simpl; lia.
Qed.

Lemma np_load_Ok tree d f arr :
  np_load tree d f = Ok arr ↔ tree !! d ≫= (λ files, files !! f) = Some arr.
Proof. unfold np_load. destruct (tree !! d ≫= _); naive_solver. Qed.

Lemma persisted_records_cons tree tmp_dir tmp_f dir_list :
  persisted_records tree tmp_dir (tmp_f :: dir_list)
  = match record_of tree tmp_dir tmp_f with
    | Some r => r :: persisted_records tree tmp_dir dir_list
    | None => persisted_records tree tmp_dir dir_list
    end.
Proof. done. Qed.

Lemma record_of_Some tree tmp_dir tmp_f perm h :
  record_of tree tmp_dir tmp_f = Some (perm, h) ↔
  is_temp_p tmp_f = true ∧ np_load tree tmp_dir tmp_f = Ok perm ∧
  np_load tree tmp_dir (h_name tmp_f) = Ok h.
Proof.
  unfold record_of. rewrite !np_load_Ok. destruct (is_temp_p tmp_f); [|naive_solver].
  destruct (tree !! tmp_dir ≫= λ files, files !! tmp_f) as [perm'|]; simpl;
    [|naive_solver].
  destruct (tree !! tmp_dir ≫= λ files, files !! h_name tmp_f) as [h'|]; simpl;
    naive_solver.
Qed.

Lemma record_of_not_temp_p tree tmp_dir tmp_f :
  is_temp_p tmp_f = false → record_of tree tmp_dir tmp_f = None.
Proof. unfold record_of. by intros ->. Qed.

Lemma indicator_step_temp_p tree tmp_dir tmp_f a :
  is_temp_p tmp_f = true →
  indicator_step tree tmp_dir tmp_f a
  = np_load tree tmp_dir tmp_f ≫= λ perm, update_indicator_matrix perm a.
Proof. unfold indicator_step. by intros ->. Qed.

Lemma linkage_step_temp_p tree tmp_dir tmp_f a :
  is_temp_p tmp_f = true →
  linkage_step tree tmp_dir tmp_f a
  = np_load tree tmp_dir tmp_f ≫= λ perm,
      np_load tree tmp_dir (h_name tmp_f) ≫= λ h,
        update_linkage_matrix (Labels h) perm a.
Proof. unfold linkage_step. by intros ->. Qed.

Lemma indicator_step_other tree tmp_dir tmp_f a :
  is_temp_p tmp_f = false → indicator_step tree tmp_dir tmp_f a = Ok a.
Proof. unfold indicator_step. by intros ->. Qed.

Lemma linkage_step_other tree tmp_dir tmp_f a :
  is_temp_p tmp_f = false → linkage_step tree tmp_dir tmp_f a = Ok a.
Proof. unfold linkage_step. by intros ->. Qed.

Lemma scans_records tree tmp_dir dir_list L0 I0 L I :
  Forall (λ r : record, NoDup r.1) (persisted_records tree tmp_dir dir_list) →
  indicator_scan tree tmp_dir dir_list I0 = Ok I →
  linkage_scan tree tmp_dir dir_list L0 = Ok L →
  I = add_table (indicator_count (persisted_records tree tmp_dir dir_list)) I0 ∧
  L = add_table (linkage_count (persisted_records tree tmp_dir dir_list)) L0.
Proof.
  revert L0 I0. induction dir_list as [|tmp_f dir_list IH]; intros L0 I0 Hnd.
  - simpl. intros [= <-] [= <-]. by rewrite !add_table_zero.
  - rewrite indicator_scan_cons, linkage_scan_cons.
    intros (I1 & HI1 & HI)%bind_Ok (L1 & HL1 & HL)%bind_Ok.
    rewrite persisted_records_cons in Hnd |- *.
    destruct (is_temp_p tmp_f) eqn:Htemp.
    + rewrite indicator_step_temp_p in HI1 by done.
      rewrite linkage_step_temp_p in HL1 by done.
      apply bind_Ok in HI1 as (perm & Hperm & HI1).
      apply bind_Ok in HL1 as (perm' & Hperm' & (h & Hh & HL1)%bind_Ok).
      assert (perm' = perm) as -> by congruence.
      assert (Hrec : record_of tree tmp_dir tmp_f = Some (perm, h))
        by by apply record_of_Some.
      rewrite Hrec in Hnd |- *.
      apply Forall_cons in Hnd as [Hnd1 Hnd].
      apply update_indicator_matrix_record in HI1 as ->.
      apply update_linkage_matrix_record in HL1 as ->; [|done].
      destruct (IH _ _ Hnd HI HL) as [-> ->].
      by rewrite !add_table_add_table.
    + rewrite indicator_step_other in HI1 by done.
      rewrite linkage_step_other in HL1 by done.
      rewrite record_of_not_temp_p in Hnd |- * by done.
      simplify_eq. by apply IH.
Qed.

Lemma scans_total N tree tmp_dir dir_list L0 I0 :
  square N L0 → square N I0 →
  paired tree tmp_dir dir_list →
  Forall (λ r, well_formed N r ∧ r.2 ≠ []) (persisted_records tree tmp_dir dir_list) →
  indicator_scan tree tmp_dir dir_list I0
  = Ok (add_table (indicator_count (persisted_records tree tmp_dir dir_list)) I0) ∧
  linkage_scan tree tmp_dir dir_list L0
  = Ok (add_table (linkage_count (persisted_records tree tmp_dir dir_list)) L0).
Proof.
  revert L0 I0. induction dir_list as [|tmp_f dir_list IH]; intros L0 I0 HL0 HI0 Hp Hwf.
  - simpl. by rewrite !add_table_zero.
  - rewrite indicator_scan_cons, linkage_scan_cons.
    assert (Hp' : paired tree tmp_dir dir_list).
    { intros f Hf. apply Hp. by right. }
    specialize (Hp tmp_f (list_elem_of_here _ _)).
    rewrite persisted_records_cons in Hwf |- *.
    destruct (is_temp_p tmp_f) eqn:Htemp.
    + destruct Hp as [[perm h] Hrec]; [done|]. rewrite Hrec in Hwf |- *.
      apply record_of_Some in Hrec as (_ & Hperm & Hh).
      apply Forall_cons in Hwf as [[(Hnd & Hlt & Hlen) Hne] Hwf]. simpl in *.
      rewrite indicator_step_temp_p, linkage_step_temp_p by done.
      rewrite Hperm, !result_bind_Ok, Hh, !result_bind_Ok.
      erewrite update_indicator_matrix_total by done.
      erewrite update_linkage_matrix_total by done.
      rewrite !result_bind_Ok.
      destruct (IH (add_table (linked perm h) L0) (add_table (sampled perm) I0))
        as [-> ->]; [by apply square_add_table..|done|done|].
      by rewrite !add_table_add_table.
    + rewrite indicator_step_other, linkage_step_other by done.
      rewrite record_of_not_temp_p in Hwf |- * by done.
      rewrite !result_bind_Ok. by apply IH.
Qed.


(** ** Entries of the consensus matrix *)

Lemma row_lengths_maximum (a : Np.matrix) c :
  row_lengths (Np.maximum a c) = row_lengths a.
Proof.
  unfold row_lengths, Np.maximum. rewrite <- list_fmap_compose.
  apply list_fmap_ext. intros i row _. simpl. by rewrite length_fmap.
Qed.

Lemma entry_maximum (a : Np.matrix) c i j :
  Np.entry (Np.maximum a c) i j = (λ x, Z.max x c) <$> Np.entry a i j.
Proof.
  unfold Np.entry, Np.maximum. rewrite list_lookup_fmap.
  destruct (a !! i) as [row|]; simpl; [|done]. by rewrite list_lookup_fmap.
Qed.

Lemma divide_Ok (a b : Np.matrix) C :
  Np.divide a b = Ok C ↔
  row_lengths a = row_lengths b ∧
  C = zip_with (zip_with (λ x y, (inject_Z x / inject_Z y)%Q)) a b.
Proof. unfold Np.divide, row_lengths. case_bool_decide; naive_solver. Qed.

Lemma entry_divide (a b : Np.matrix) C i j :
  Np.divide a b = Ok C →
  Np.entry C i j
  = x ← Np.entry a i j; y ← Np.entry b i j; Some (inject_Z x / inject_Z y)%Q.
Proof.
  intros [Hlen ->]%divide_Ok. unfold Np.entry. rewrite lookup_zip_with.
  assert (Hi : length <$> a !! i = length <$> b !! i).
  { rewrite <- !list_lookup_fmap. fold (row_lengths a) (row_lengths b).
    by rewrite Hlen. }
  destruct (a !! i) as [ra|], (b !! i) as [rb|]; simplify_eq/=; [|done].
  rewrite lookup_zip_with.
  destruct (ra !! j) as [x|] eqn:Hx; simpl; [done|].
  destruct (rb !! j) as [y|] eqn:Hy; simpl; [|done].
  apply lookup_lt_Some in Hy. apply lookup_ge_None in Hx. lia.
Qed.

Lemma entry_consensus (L I : Np.matrix) C i j :
  Np.divide L (Np.maximum I 1) = Ok C →
  Np.entry C i j
  = l ← Np.entry L i j; k ← Np.entry I i j;
    Some (inject_Z l / inject_Z (Z.max k 1))%Q.
Proof.
  intros HC. rewrite (entry_divide _ _ _ _ _ HC), entry_maximum.
  destruct (Np.entry L i j); simpl; [|done]. by destruct (Np.entry I i j).
Qed.

Lemma symmetric_add_table D a :
  (∀ i j, D i j = D j i) → symmetric a → symmetric (add_table D a).
Proof.
  intros HD Ha i j. by rewrite !entry_add_table, Ha, HD.
Qed.

Lemma entry_zeros_outside N i j :
  ¬ (i < N ∧ j < N) → Np.entry (Np.zeros N N) i j = None.
Proof.
  intros Hij. unfold Np.entry, Np.zeros.
  destruct (replicate N (replicate N 0%Z) !! i) as [row|] eqn:Hrow; simpl; [|done].
  apply lookup_replicate in Hrow as [-> Hi]. apply lookup_replicate_None. lia.
Qed.

Lemma symmetric_zeros N : symmetric (Np.zeros N N).
Proof.
  intros i j. destruct (decide (i < N ∧ j < N)) as [[Hi Hj]|Hij].
  - by rewrite !entry_zeros.
  - rewrite !entry_zeros_outside; [done|lia|lia].
Qed.

(** ** Symmetry *)

Lemma update_indicator_matrix_symmetric_table perm a a' :
  update_indicator_matrix perm a = Ok a' →
  ∃ D, a' = add_table D a ∧ ∀ i j, D i j = D j i.
Proof.
  intros ->%update_indicator_matrix_record. exists (sampled perm). split; [done|].
  intros i j. unfold sampled.
  apply (f_equal (λ b : bool, if b then _ else _)), bool_decide_ext, co_sampled_sym.
Qed.

Lemma update_linkage_matrix_symmetric_table encode_mat perm a a' :
  update_linkage_matrix encode_mat perm a = Ok a' →
  ∃ D, a' = add_table D a ∧ ∀ i j, D i j = D j i.
Proof.
  unfold update_linkage_matrix.
  intros ([n cid] & _ & [-> _]%cluster_loop_Ok)%bind_Ok.
  eexists. split; [done|]. intros i j. apply cluster_table_sym.
Qed.

Lemma indicator_scan_symmetric_table tree tmp_dir dir_list a a' :
  indicator_scan tree tmp_dir dir_list a = Ok a' →
  ∃ D, a' = add_table D a ∧ ∀ i j, D i j = D j i.
Proof.
  revert a. induction dir_list as [|tmp_f dir_list IH]; intros a.
  - intros [= <-]. exists (λ _ _, 0%Z). by rewrite add_table_zero.
  - rewrite indicator_scan_cons. intros (a1 & Ha1 & Ha')%bind_Ok.
    apply IH in Ha' as (D2 & -> & HD2).
    assert (∃ D1, a1 = add_table D1 a ∧ ∀ i j, D1 i j = D1 j i) as (D1 & -> & HD1).
    { unfold indicator_step in Ha1. destruct (is_temp_p tmp_f).
      - apply bind_Ok in Ha1 as (perm & _ & Ha1).
        by eapply update_indicator_matrix_symmetric_table.
      - simplify_eq. exists (λ _ _, 0%Z). by rewrite add_table_zero. }
    eexists. split; [apply add_table_add_table|].
    intros i j. simpl. by rewrite HD1, HD2.
Qed.

Lemma linkage_scan_symmetric_table tree tmp_dir dir_list a a' :
  linkage_scan tree tmp_dir dir_list a = Ok a' →
  ∃ D, a' = add_table D a ∧ ∀ i j, D i j = D j i.
Proof.
  revert a. induction dir_list as [|tmp_f dir_list IH]; intros a.
  - intros [= <-]. exists (λ _ _, 0%Z). by rewrite add_table_zero.
  - rewrite linkage_scan_cons. intros (a1 & Ha1 & Ha')%bind_Ok.
    apply IH in Ha' as (D2 & -> & HD2).
    assert (∃ D1, a1 = add_table D1 a ∧ ∀ i j, D1 i j = D1 j i) as (D1 & -> & HD1).
    { unfold linkage_step in Ha1. destruct (is_temp_p tmp_f).
      - apply bind_Ok in Ha1 as (perm & _ & (h & _ & Ha1)%bind_Ok).
        by eapply update_linkage_matrix_symmetric_table.
      - simplify_eq. exists (λ _ _, 0%Z). by rewrite add_table_zero. }
    eexists. split; [apply add_table_add_table|].
    intros i j. simpl. by rewrite HD1, HD2.
Qed.

(** C7.  The updates of one record keep a symmetric accumulator symmetric,
    whichever form the encoding has; hence the linkage and the indicator
    matrix that the two scans return from the zero-initialised N×N
    accumulators are symmetric: [L[i][j] = L[j][i]] and [I[i][j] = I[j][i]]
    for all [i], [j]. *)
Theorem accumulators_symmetric :
  (∀ perm a a',
     symmetric a → update_indicator_matrix perm a = Ok a' → symmetric a') ∧
  (∀ encode_mat perm a a',
     symmetric a → update_linkage_matrix encode_mat perm a = Ok a' → symmetric a') ∧
  (∀ order tree run_parameters N I,
     get_indicator_matrix order tree run_parameters (Np.zeros N N) = Ok I →
     symmetric I) ∧
  (∀ order tree run_parameters N L,
     get_linkage_matrix order tree run_parameters (Np.zeros N N) = Ok L →
     symmetric L).
Proof.
  split_and!.
  - intros perm a a' Ha (D & -> & HD)%update_indicator_matrix_symmetric_table.
    by apply symmetric_add_table.
  - intros e perm a a' Ha (D & -> & HD)%update_linkage_matrix_symmetric_table.
    by apply symmetric_add_table.
  - intros order tree rp N I (d & files & _ & _ & Hscan)%get_indicator_matrix_Ok.
    apply indicator_scan_symmetric_table in Hscan as (D & -> & HD).
    apply symmetric_add_table; [done|apply symmetric_zeros].
  - intros order tree rp N L (d & files & _ & _ & Hscan)%get_linkage_matrix_Ok.
    apply linkage_scan_symmetric_table in Hscan as (D & -> & HD).
    apply symmetric_add_table; [done|apply symmetric_zeros].
Qed.

Lemma accumulators_symmetric_witness :
  symmetric [[1; 0; 1]; [0; 0; 0]; [1; 0; 1]]%Z ∧
  symmetric [[1; 0; 0]; [0; 1; 1]; [0; 1; 1]]%Z ∧
  symmetric [[1; 1]; [1; 1]]%Z ∧
  symmetric [[1; 1]; [1; 1]]%Z.
Proof.
  destruct accumulators_symmetric as (Hi & Hl & Hgi & Hgl). split_and!.
  - apply (Hi [2; 0] (Np.zeros 3 3)); [apply symmetric_zeros|].
    vm_compute. reflexivity.
  - apply (Hl (Labels [1; 0; 1]) [2; 0; 1] (Np.zeros 3 3)); [apply symmetric_zeros|].
    vm_compute. reflexivity.
  - apply (Hgi id Ex.tree1 Ex.params1 2). vm_compute. reflexivity.
  - apply (Hgl id Ex.tree1 Ex.params1 2). vm_compute. reflexivity.
Defined.

(** ** Order independence *)

Lemma enumeration_id : enumeration id.
Proof. by intros l. Qed.

Lemma enumeration_reverse : enumeration reverse.
Proof. intros l. apply reverse_Permutation. Qed.

(** C4.  Scanning the records of the directory in either of two
    enumeration orders, from the same initial accumulators, produces the same
    linkage matrix, the same indicator matrix and the same consensus matrix:
    whatever one order returns, the other returns too. *)
Theorem aggregation_order_independent order1 order2 tree run_parameters L0 I0 :
  enumeration order1 → enumeration order2 →
  (∀ I, get_indicator_matrix order1 tree run_parameters I0 = Ok I ↔
        get_indicator_matrix order2 tree run_parameters I0 = Ok I) ∧
  (∀ L, get_linkage_matrix order1 tree run_parameters L0 = Ok L ↔
        get_linkage_matrix order2 tree run_parameters L0 = Ok L) ∧
  (∀ C, form_consensus_matrix order1 tree run_parameters L0 I0 = Ok C ↔
        form_consensus_matrix order2 tree run_parameters L0 I0 = Ok C).
Proof.
  intros H1 H2. split_and!; intros x; split;
    eauto using get_indicator_matrix_order, get_linkage_matrix_order,
      form_consensus_matrix_order.
Qed.

Lemma aggregation_order_independent_witness :
  get_indicator_matrix reverse Ex.tree1 Ex.params1 (Np.zeros 2 2)
  = Ok [[1; 1]; [1; 1]]%Z ∧
  get_linkage_matrix reverse Ex.tree1 Ex.params1 (Np.zeros 2 2)
  = Ok [[1; 1]; [1; 1]]%Z ∧
  form_consensus_matrix reverse Ex.tree1 Ex.params1 (Np.zeros 2 2) (Np.zeros 2 2)
  = Ok [[1; 1]; [1; 1]]%Q.
Proof.
  destruct (aggregation_order_independent id reverse Ex.tree1 Ex.params1
              (Np.zeros 2 2) (Np.zeros 2 2) enumeration_id enumeration_reverse)
    as (HI & HL & HC).
  split_and!;
    [apply (proj1 (HI _)) | apply (proj1 (HL _)) | apply (proj1 (HC _))];
    vm_compute; reflexivity.
Defined.

(** ** Bounds *)

Lemma linkage_count_le_indicator_count records i j :
  (0 ≤ linkage_count records i j ≤ indicator_count records i j)%Z.
Proof.
  induction records as [|r records IH]; simpl; [lia|].
  pose proof (linked_le_sampled r.1 r.2 i j). lia.
Qed.

Lemma dominated_add_table L I records :
  dominated L I →
  dominated (add_table (linkage_count records) L)
            (add_table (indicator_count records) I).
Proof.
  intros HLI i j l k. rewrite !entry_add_table.
  destruct (Np.entry L i j) as [l0|] eqn:Hl, (Np.entry I i j) as [k0|] eqn:Hk;
    simpl; try done.
  intros [= <-] [= <-]. specialize (HLI i j l0 k0 Hl Hk).
  pose proof (linkage_count_le_indicator_count records i j). lia.
Qed.

Lemma dominated_zeros N : dominated (Np.zeros N N) (Np.zeros N N).
Proof. intros i j l k Hl Hk. assert (l = k) by congruence. subst.
  destruct (decide (i < N ∧ j < N)) as [[]|].
  - rewrite entry_zeros in Hl by done. simplify_eq. lia.
  - by rewrite entry_zeros_outside in Hl.
Qed.

Lemma get_matrices_records order tree run_parameters L0 I0 L I :
  Forall (λ r : record, NoDup r.1) (scanned_records order tree run_parameters) →
  get_indicator_matrix order tree run_parameters I0 = Ok I →
  get_linkage_matrix order tree run_parameters L0 = Ok L →
  I = add_table (indicator_count (scanned_records order tree run_parameters)) I0 ∧
  L = add_table (linkage_count (scanned_records order tree run_parameters)) L0.
Proof.
  unfold scanned_records.
  intros Hnd (d & files & Hd & Hfiles & HI)%get_indicator_matrix_Ok
         (d' & files' & Hd' & Hfiles' & HL)%get_linkage_matrix_Ok.
  assert (d' = d) as -> by congruence.
  assert (files' = files) as -> by congruence.
  rewrite Hd, Hfiles in Hnd |- *. by eapply scans_records.
Qed.

Lemma Qdiv_bounds (l k : Z) :
  (0 ≤ l ≤ k)%Z → (0 <= inject_Z l / inject_Z (Z.max k 1) <= 1)%Q.
Proof.
  intros Hlk. assert (Hpos : (0 < inject_Z (Z.max k 1))%Q).
  { change 0%Q with (inject_Z 0). rewrite <- Zlt_Qlt. lia. }
  split.
  - apply Qle_shift_div_l; [done|]. rewrite Qmult_0_l.
    change 0%Q with (inject_Z 0). rewrite <- Zle_Qle. lia.
  - apply Qle_shift_div_r; [done|]. rewrite Qmult_1_l.
    rewrite <- Zle_Qle. lia.
Qed.

Lemma entry_is_Some (a : Np.matrix) i j :
  is_Some (Np.entry a i j) ↔ ∃ n, row_lengths a !! i = Some n ∧ j < n.
Proof.
  unfold Np.entry, row_lengths. rewrite list_lookup_fmap.
  destruct (a !! i) as [row|]; simpl.
  - rewrite lookup_lt_is_Some. naive_solver.
  - split; [by intros []|naive_solver].
Qed.

Lemma entry_is_Some_row_lengths (a b : Np.matrix) i j :
  row_lengths a = row_lengths b → is_Some (Np.entry a i j) → is_Some (Np.entry b i j).
Proof. rewrite !entry_is_Some. by intros ->. Qed.

(** C6.  When the permutations of the scanned records hold no sample twice,
    the matrices returned from zero-initialised N×N accumulators satisfy
    [I[i][j] >= L[i][j] >= 0] at every pair of indices, the consensus matrix
    is returned as well, and each of its entries lies in [0,1]. *)
Theorem indicator_dominates_linkage order tree run_parameters N L I :
  Forall (λ r : record, NoDup r.1) (scanned_records order tree run_parameters) →
  get_linkage_matrix order tree run_parameters (Np.zeros N N) = Ok L →
  get_indicator_matrix order tree run_parameters (Np.zeros N N) = Ok I →
  ∃ C, form_consensus_matrix order tree run_parameters (Np.zeros N N) (Np.zeros N N)
       = Ok C ∧
    ∀ i j, i < N → j < N →
      ∃ l k c, Np.entry L i j = Some l ∧ Np.entry I i j = Some k ∧
               Np.entry C i j = Some c ∧
               (0 ≤ l ≤ k)%Z ∧ (0 <= c <= 1)%Q.
Proof.
  intros Hnd HL HI.
  destruct (get_matrices_records _ _ _ _ _ _ _ Hnd HI HL) as [HIeq HLeq].
  assert (HsqL : square N L) by (rewrite HLeq; apply square_add_table, square_zeros).
  assert (HsqI : square N I) by (rewrite HIeq; apply square_add_table, square_zeros).
  assert (Hdom : dominated L I).
  { rewrite HLeq, HIeq. apply dominated_add_table, dominated_zeros. }
  destruct (Np.divide L (Np.maximum I 1)) as [C|e] eqn:HC.
  2:{ exfalso. unfold Np.divide in HC. fold (row_lengths L) in HC.
      fold (row_lengths (Np.maximum I 1)) in HC.
      rewrite row_lengths_maximum, HsqL, HsqI in HC.
      by rewrite bool_decide_eq_true_2 in HC. }
  exists C. split.
  { apply form_consensus_matrix_Ok. eauto. }
  intros i j Hi Hj.
  destruct (square_entry N L i j) as [l Hl]; [done..|].
  destruct (square_entry N I i j) as [k Hk]; [done..|].
  exists l, k, (inject_Z l / inject_Z (Z.max k 1))%Q.
  split; [done|]. split; [done|]. split; [|split].
  - rewrite (entry_consensus _ _ _ _ _ HC), Hl, Hk. done.
  - by eapply Hdom.
  - apply Qdiv_bounds. by eapply Hdom.
Qed.

Lemma indicator_dominates_linkage_witness :
  ∃ C, form_consensus_matrix id Ex.tree1 Ex.params1 (Np.zeros 2 2) (Np.zeros 2 2)
       = Ok C ∧
    ∀ i j, i < 2 → j < 2 →
      ∃ l k c, Np.entry [[1; 1]; [1; 1]]%Z i j = Some l ∧
               Np.entry [[1; 1]; [1; 1]]%Z i j = Some k ∧
               Np.entry C i j = Some c ∧
               (0 ≤ l ≤ k)%Z ∧ (0 <= c <= 1)%Q.
Proof.
  apply (indicator_dominates_linkage id Ex.tree1 Ex.params1 2).
  - vm_compute. repeat constructor; set_solver.
  - vm_compute. reflexivity.
  - vm_compute. reflexivity.
Defined.

(** ** Where nothing was sampled nothing is linked *)

Lemma outer_bounds idx i j : (0 ≤ outer idx i j ≤ 1)%Z.
Proof. unfold outer. case_bool_decide; lia. Qed.

Lemma outer_select_support {perm : list nat} mask i j :
  outer perm i j = 0%Z → outer (Np.select perm mask) i j = 0%Z.
Proof.
  unfold outer. intros Hperm. rewrite (bool_decide_eq_false_2 (_ ∧ _)); [done|].
  intros [Hi Hj]. apply select_subseteq in Hi, Hj.
  by rewrite bool_decide_eq_true_2 in Hperm.
Qed.

Lemma cluster_table_support clusters cluster_id perm i j :
  (0 ≤ cluster_table clusters cluster_id perm i j)%Z ∧
  (outer perm i j = 0%Z → cluster_table clusters cluster_id perm i j = 0%Z).
Proof.
  unfold cluster_table. induction clusters as [|c clusters [IH0 IH]]; simpl; [done|].
  pose proof (outer_bounds (Np.select perm (Np.eq_scalar cluster_id c)) i j).
  split; [lia|]. intros Hperm.
  rewrite (outer_select_support _ _ _ Hperm), IH by done. done.
Qed.

Lemma supported_add_table DL DI L I :
  (∀ i j, (0 ≤ DL i j)%Z ∧ (0 ≤ DI i j)%Z ∧ (DI i j = 0%Z → DL i j = 0%Z)) →
  supported L I → supported (add_table DL L) (add_table DI I).
Proof.
  intros HD HLI i j l k. rewrite !entry_add_table.
  destruct (Np.entry L i j) as [l0|] eqn:Hl, (Np.entry I i j) as [k0|] eqn:Hk;
    simpl; try done.
  intros [= <-] [= <-]. destruct (HLI i j l0 k0 Hl Hk) as (? & ? & Hz).
  destruct (HD i j) as (? & ? & HDz). split_and!; [lia..|].
  intros Hsum. assert (k0 = 0%Z ∧ DI i j = 0%Z) as [Hk0 HDI] by lia.
  rewrite Hz, HDz by done. done.
Qed.

Lemma supported_zeros N : supported (Np.zeros N N) (Np.zeros N N).
Proof.
  intros i j l k Hl Hk. destruct (decide (i < N ∧ j < N)) as [[]|].
  - rewrite entry_zeros in Hl, Hk by done. by simplify_eq.
  - by rewrite entry_zeros_outside in Hl.
Qed.

Lemma scans_supported tree tmp_dir dir_list L0 I0 L I :
  supported L0 I0 →
  indicator_scan tree tmp_dir dir_list I0 = Ok I →
  linkage_scan tree tmp_dir dir_list L0 = Ok L →
  supported L I.
Proof.
  revert L0 I0. induction dir_list as [|tmp_f dir_list IH]; intros L0 I0 Hsup.
  - simpl. by intros [= <-] [= <-].
  - rewrite indicator_scan_cons, linkage_scan_cons.
    intros (I1 & HI1 & HI)%bind_Ok (L1 & HL1 & HL)%bind_Ok.
    apply (IH L1 I1); [|done..].
    destruct (is_temp_p tmp_f) eqn:Htemp.
    + rewrite indicator_step_temp_p in HI1 by done.
      rewrite linkage_step_temp_p in HL1 by done.
      apply bind_Ok in HI1 as (perm & Hperm & HI1).
      apply bind_Ok in HL1 as (perm' & Hperm' & (h & Hh & HL1)%bind_Ok).
      assert (perm' = perm) as -> by congruence.
      apply update_indicator_matrix_record in HI1 as ->.
      apply update_linkage_matrix_Labels_Ok in HL1 as (m & _ & _ & ->).
      apply supported_add_table; [|done]. intros i j.
      destruct (cluster_table_support (seq 0 (m + 1)) h perm i j) as [H0 Hz].
      split_and!; [done| |].
      * unfold sampled. case_bool_decide; lia.
      * intros Hs. apply Hz. unfold sampled, co_sampled in Hs. by unfold outer.
    + rewrite indicator_step_other in HI1 by done.
      rewrite linkage_step_other in HL1 by done. by simplify_eq.
Qed.

Lemma get_matrices_supported order tree run_parameters L0 I0 L I :
  supported L0 I0 →
  get_indicator_matrix order tree run_parameters I0 = Ok I →
  get_linkage_matrix order tree run_parameters L0 = Ok L →
  supported L I.
Proof.
  intros Hsup (d & files & Hd & Hfiles & HI)%get_indicator_matrix_Ok
         (d' & files' & Hd' & Hfiles' & HL)%get_linkage_matrix_Ok.
  assert (d' = d) as -> by congruence.
  assert (files' = files) as -> by congruence.
  by eapply scans_supported.
Qed.

(** ** The consensus matrix *)

Lemma indicator_scan_no_record tree tmp_dir dir_list a :
  Forall (λ tmp_f, is_temp_p tmp_f = false) dir_list →
  indicator_scan tree tmp_dir dir_list a = Ok a.
Proof.
  induction 1 as [|tmp_f dir_list Hf _ IH]; [done|].
  by rewrite indicator_scan_cons, indicator_step_other, result_bind_Ok.
Qed.

Lemma linkage_scan_no_record tree tmp_dir dir_list a :
  Forall (λ tmp_f, is_temp_p tmp_f = false) dir_list →
  linkage_scan tree tmp_dir dir_list a = Ok a.
Proof.
  induction 1 as [|tmp_f dir_list Hf _ IH]; [done|].
  by rewrite linkage_scan_cons, linkage_step_other, result_bind_Ok.
Qed.

Lemma consensus_of_zeros N :
  Np.divide (Np.zeros N N) (Np.maximum (Np.zeros N N) 1)
  = Ok (replicate N (replicate N 0%Q)).
Proof.
  unfold Np.divide, Np.maximum, Np.zeros.
  rewrite !fmap_replicate, !length_replicate.
  rewrite bool_decide_eq_true_2 by done. f_equal.
  by rewrite !zip_with_replicate.
Qed.

(** C1.  The matrix [form_consensus_matrix] returns is, entry by entry, the
    accumulated linkage divided by the greater of the accumulated indicator
    and 1, a divisor that is never below 1.  When the accumulators it is
    given are not negative and have a zero linkage entry wherever the
    indicator entry is zero (as zero-initialised ones and those left by an
    earlier call have), an indicator entry 0 gives a consensus entry 0.
    With no [temp_p] file in the
    directory and zero-initialised accumulators the result is the zero
    matrix. *)
Theorem consensus_is_quotient :
  (∀ order tree run_parameters L0 I0 C,
     form_consensus_matrix order tree run_parameters L0 I0 = Ok C →
     ∃ L I,
       get_linkage_matrix order tree run_parameters L0 = Ok L ∧
       get_indicator_matrix order tree run_parameters I0 = Ok I ∧
       ∀ i j,
         Np.entry C i j
         = (l ← Np.entry L i j; k ← Np.entry I i j;
            Some (inject_Z l / inject_Z (Z.max k 1))%Q) ∧
         ∀ k, Np.entry I i j = Some k → (1 ≤ Z.max k 1)%Z) ∧
  (∀ order tree run_parameters L0 I0 I C i j,
     supported L0 I0 →
     form_consensus_matrix order tree run_parameters L0 I0 = Ok C →
     get_indicator_matrix order tree run_parameters I0 = Ok I →
     Np.entry I i j = Some 0%Z →
     ∃ c, Np.entry C i j = Some c ∧ (c == 0)%Q) ∧
  (∀ order tree run_parameters N tmp_dir files,
     enumeration order →
     scan_directory run_parameters = Ok tmp_dir →
     tree !! tmp_dir = Some files →
     (∀ tmp_f, tmp_f ∈ dom files → is_temp_p tmp_f = false) →
     form_consensus_matrix order tree run_parameters (Np.zeros N N) (Np.zeros N N)
     = Ok (replicate N (replicate N 0%Q))).
Proof.
  split_and!.
  - intros order tree rp L0 I0 C (L & I & HI & HL & HC)%form_consensus_matrix_Ok.
    exists L, I. split_and!; [done..|]. intros i j. split.
    + by apply entry_consensus.
    + intros k _. lia.
  - intros order tree rp L0 I0 I C i j Hsup
      (L & I' & HI' & HL & HC)%form_consensus_matrix_Ok HI Hk.
    assert (I' = I) as -> by congruence.
    pose proof (get_matrices_supported _ _ _ _ _ _ _ Hsup HI HL) as HLI.
    pose proof HC as [Hlen _]%divide_Ok. rewrite row_lengths_maximum in Hlen.
    destruct (entry_is_Some_row_lengths I L i j) as [l Hl]; [done|by eexists|].
    assert (l = 0%Z) as ->.
    { destruct (HLI i j l 0%Z Hl Hk) as (_ & _ & Hz). by apply Hz. }
    eexists. split.
    + rewrite (entry_consensus _ _ _ _ _ HC), Hl, Hk. simpl. reflexivity.
    + reflexivity.
  - intros order tree rp N d files Horder Hd Hfiles Hnone.
    assert (Hall : Forall (λ tmp_f, is_temp_p tmp_f = false)
                     (order (elements (dom files)))).
    { apply Forall_forall. intros f Hf. apply Hnone.
      rewrite (Horder _) in Hf. by apply elem_of_elements in Hf. }
    apply form_consensus_matrix_Ok. exists (Np.zeros N N), (Np.zeros N N).
    split_and!.
    + apply get_indicator_matrix_Ok. exists d, files. split_and!; [done..|].
      by apply indicator_scan_no_record.
    + apply get_linkage_matrix_Ok. exists d, files. split_and!; [done..|].
      by apply linkage_scan_no_record.
    + apply consensus_of_zeros.
Qed.

Lemma consensus_is_quotient_witness :
  (∃ L I,
     get_linkage_matrix id Ex.tree1 Ex.params1 (Np.zeros 2 2) = Ok L ∧
     get_indicator_matrix id Ex.tree1 Ex.params1 (Np.zeros 2 2) = Ok I ∧
     ∀ i j,
       Np.entry [[1; 1]; [1; 1]]%Q i j
       = (l ← Np.entry L i j; k ← Np.entry I i j;
          Some (inject_Z l / inject_Z (Z.max k 1))%Q) ∧
       ∀ k, Np.entry I i j = Some k → (1 ≤ Z.max k 1)%Z) ∧
  (∃ c, Np.entry [[1; 1; 0]; [1; 1; 0]; [0; 0; 0]]%Q 2 2 = Some c ∧ (c == 0)%Q) ∧
  form_consensus_matrix id Ex.tree_lost Ex.params1 (Np.zeros 2 2) (Np.zeros 2 2)
  = Ok [[0; 0]; [0; 0]]%Q.
Proof.
  destruct consensus_is_quotient as (Hquot & Hzero & Hlost). split_and!.
  - apply (Hquot id Ex.tree1 Ex.params1 (Np.zeros 2 2) (Np.zeros 2 2)).
    vm_compute. reflexivity.
  - apply (Hzero id Ex.tree1 Ex.params1 (Np.zeros 3 3) (Np.zeros 3 3)
             [[1; 1; 0]; [1; 1; 0]; [0; 0; 0]]%Z).
    + apply supported_zeros.
    + vm_compute. reflexivity.
    + vm_compute. reflexivity.
    + vm_compute. reflexivity.
  - apply (Hlost id Ex.tree_lost Ex.params1 2 "tmp" Ex.files_lost).
    + apply enumeration_id.
    + vm_compute. reflexivity.
    + vm_compute. reflexivity.
    + intros tmp_f Hf. unfold Ex.files_lost in Hf.
      rewrite dom_singleton_L in Hf. apply elem_of_singleton in Hf as ->.
      vm_compute. reflexivity.
Defined.

(** ** Scanning again *)

Lemma uniform_run_steps steps : Forall uniform steps → uniform (run_steps steps).
Proof.
  induction 1 as [|step steps Hstep _ IH]; [apply uniform_ret|].
  simpl. by apply uniform_bind.
Qed.

Lemma uniform_indicator_scan tree tmp_dir dir_list :
  uniform (indicator_scan tree tmp_dir dir_list).
Proof.
  intros a a' Ha. rewrite indicator_scan_steps in Ha.
  apply uniform_run_steps in Ha as (D & -> & HD).
  - exists D. split; [done|]. intros b Hb. rewrite indicator_scan_steps. by apply HD.
  - apply Forall_fmap, Forall_forall. intros tmp_f _. apply uniform_indicator_step.
Qed.

Lemma uniform_linkage_scan tree tmp_dir dir_list :
  uniform (linkage_scan tree tmp_dir dir_list).
Proof.
  intros a a' Ha. rewrite linkage_scan_steps in Ha.
  apply uniform_run_steps in Ha as (D & -> & HD).
  - exists D. split; [done|]. intros b Hb. rewrite linkage_scan_steps. by apply HD.
  - apply Forall_fmap, Forall_forall. intros tmp_f _. apply uniform_linkage_step.
Qed.

Lemma entry_doubled N D i j :
  Np.entry (add_table D (add_table D (Np.zeros N N))) i j
  = (λ x, (2 * x)%Z) <$> Np.entry (add_table D (Np.zeros N N)) i j.
Proof.
  rewrite !entry_add_table. destruct (Np.entry (Np.zeros N N) i j) as [x|] eqn:Hx;
    simpl; [|done].
  assert (x = 0%Z) as ->.
  { destruct (decide (i < N ∧ j < N)) as [[]|].
    - rewrite entry_zeros in Hx by done. by simplify_eq.
    - by rewrite entry_zeros_outside in Hx. }
  f_equal. lia.
Qed.

Lemma Qdiv_doubled (l k : Z) :
  (0 ≤ l ≤ k)%Z →
  (inject_Z (2 * l) / inject_Z (Z.max (2 * k) 1)
   == inject_Z l / inject_Z (Z.max k 1))%Q.
Proof.
  intros Hlk. destruct (decide (k = 0%Z)) as [->|Hk].
  - assert (l = 0%Z) as -> by lia. reflexivity.
  - rewrite !Z.max_l by lia. rewrite !inject_Z_mult. field.
    change 0%Q with (inject_Z 0). rewrite inject_Z_injective. lia.
Qed.

(** C5, as the code has it.  Scanning the same records again reproduces the
    linkage, indicator and consensus matrices when the scan starts again from
    zero-initialised accumulators, in whatever order the directory is then
    listed.  Scanning again into the accumulators the previous scan returned
    (the scan updates them in place) adds every record once more: each entry
    of the linkage and of the indicator matrix doubles, and the consensus
    matrix keeps its value. *)
Theorem rescan_adds_again order order' tree run_parameters N L1 I1 C1 :
  enumeration order → enumeration order' →
  Forall (λ r : record, NoDup r.1) (scanned_records order tree run_parameters) →
  get_linkage_matrix order tree run_parameters (Np.zeros N N) = Ok L1 →
  get_indicator_matrix order tree run_parameters (Np.zeros N N) = Ok I1 →
  form_consensus_matrix order tree run_parameters (Np.zeros N N) (Np.zeros N N)
  = Ok C1 →
  (get_linkage_matrix order' tree run_parameters (Np.zeros N N) = Ok L1 ∧
   get_indicator_matrix order' tree run_parameters (Np.zeros N N) = Ok I1 ∧
   form_consensus_matrix order' tree run_parameters (Np.zeros N N) (Np.zeros N N)
   = Ok C1) ∧
  ∃ L2 I2 C2,
    get_linkage_matrix order' tree run_parameters L1 = Ok L2 ∧
    get_indicator_matrix order' tree run_parameters I1 = Ok I2 ∧
    form_consensus_matrix order' tree run_parameters L1 I1 = Ok C2 ∧
    ∀ i j,
      Np.entry L2 i j = (λ x, (2 * x)%Z) <$> Np.entry L1 i j ∧
      Np.entry I2 i j = (λ x, (2 * x)%Z) <$> Np.entry I1 i j ∧
      same_value (Np.entry C2 i j) (Np.entry C1 i j).
Proof.
  intros Ho Ho' Hnd HL1 HI1 HC1. split.
  { split_and!.
    - by apply (get_linkage_matrix_order order).
    - by apply (get_indicator_matrix_order order).
    - by apply (form_consensus_matrix_order order). }
  destruct (get_matrices_records _ _ _ _ _ _ _ Hnd HI1 HL1) as [HIeq HLeq].
  assert (Hdom : dominated L1 I1).
  { rewrite HLeq, HIeq. apply dominated_add_table, dominated_zeros. }
  pose proof HL1 as (d & files & Hd & Hfiles & HLscan)%get_linkage_matrix_Ok.
  pose proof HI1 as (d' & files' & Hd' & Hfiles' & HIscan)%get_indicator_matrix_Ok.
  assert (d' = d) as -> by congruence. assert (files' = files) as -> by congruence.
  destruct (uniform_linkage_scan _ _ _ _ _ HLscan) as (DL & HL1eq & HLb).
  destruct (uniform_indicator_scan _ _ _ _ _ HIscan) as (DI & HI1eq & HIb).
  assert (HL2 : get_linkage_matrix order' tree run_parameters L1
                = Ok (add_table DL L1)).
  { apply (get_linkage_matrix_order order); [done..|].
    apply get_linkage_matrix_Ok. exists d, files. split_and!; [done..|].
    apply HLb. rewrite HL1eq. apply row_lengths_add_table. }
  assert (HI2 : get_indicator_matrix order' tree run_parameters I1
                = Ok (add_table DI I1)).
  { apply (get_indicator_matrix_order order); [done..|].
    apply get_indicator_matrix_Ok. exists d, files. split_and!; [done..|].
    apply HIb. rewrite HI1eq. apply row_lengths_add_table. }
  pose proof HC1 as (L & I & HI & HL & HC)%form_consensus_matrix_Ok.
  assert (L = L1) as -> by congruence. assert (I = I1) as -> by congruence.
  pose proof HC as [Hlen _]%divide_Ok.
  destruct (Np.divide (add_table DL L1) (Np.maximum (add_table DI I1) 1))
    as [C2|e] eqn:HC2.
  2:{ exfalso. unfold Np.divide in HC2.
      fold (row_lengths (add_table DL L1)) in HC2.
      fold (row_lengths (Np.maximum (add_table DI I1) 1)) in HC2.
      rewrite row_lengths_maximum, !row_lengths_add_table in HC2.
      rewrite row_lengths_maximum in Hlen.
      by rewrite bool_decide_eq_true_2 in HC2. }
  exists (add_table DL L1), (add_table DI I1), C2. split_and!; [done|done| |].
  { apply form_consensus_matrix_Ok. eauto. }
  assert (HLd : ∀ i j, Np.entry (add_table DL L1) i j
                       = (λ x, (2 * x)%Z) <$> Np.entry L1 i j).
  { intros i j. rewrite HL1eq. apply entry_doubled. }
  assert (HId : ∀ i j, Np.entry (add_table DI I1) i j
                       = (λ x, (2 * x)%Z) <$> Np.entry I1 i j).
  { intros i j. rewrite HI1eq. apply entry_doubled. }
  intros i j. split_and!; [done..|].
  rewrite (entry_consensus _ _ _ _ _ HC2), (entry_consensus _ _ _ _ _ HC), HLd, HId.
  destruct (Np.entry L1 i j) as [l|] eqn:Hl; simpl; [|done].
  destruct (Np.entry I1 i j) as [k|] eqn:Hk; simpl; [|done].
  apply Qdiv_doubled. by eapply Hdom.
Qed.

Lemma rescan_adds_again_witness :
  (get_linkage_matrix reverse Ex.tree1 Ex.params1 (Np.zeros 2 2)
   = Ok [[1; 1]; [1; 1]]%Z ∧
   get_indicator_matrix reverse Ex.tree1 Ex.params1 (Np.zeros 2 2)
   = Ok [[1; 1]; [1; 1]]%Z ∧
   form_consensus_matrix reverse Ex.tree1 Ex.params1 (Np.zeros 2 2) (Np.zeros 2 2)
   = Ok [[1; 1]; [1; 1]]%Q) ∧
  ∃ L2 I2 C2,
    get_linkage_matrix reverse Ex.tree1 Ex.params1 [[1; 1]; [1; 1]]%Z = Ok L2 ∧
    get_indicator_matrix reverse Ex.tree1 Ex.params1 [[1; 1]; [1; 1]]%Z = Ok I2 ∧
    form_consensus_matrix reverse Ex.tree1 Ex.params1
      [[1; 1]; [1; 1]]%Z [[1; 1]; [1; 1]]%Z = Ok C2 ∧
    ∀ i j,
      Np.entry L2 i j = (λ x, (2 * x)%Z) <$> Np.entry [[1; 1]; [1; 1]]%Z i j ∧
      Np.entry I2 i j = (λ x, (2 * x)%Z) <$> Np.entry [[1; 1]; [1; 1]]%Z i j ∧
      same_value (Np.entry C2 i j) (Np.entry [[1; 1]; [1; 1]]%Q i j).
Proof.
  apply (rescan_adds_again id reverse Ex.tree1 Ex.params1 2).
  - apply enumeration_id.
  - apply enumeration_reverse.
  - vm_compute. repeat constructor; set_solver.
  - vm_compute. reflexivity.
  - vm_compute. reflexivity.
  - vm_compute. reflexivity.
Defined.

(** C5, as stated, fails: scanning the one record of the example a second
    time, into the accumulators the first scan returned, does not reproduce
    the linkage and indicator matrices. *)
Lemma rescan_not_idempotent :
  get_indicator_matrix id Ex.tree1 Ex.params1 (Np.zeros 2 2)
  = Ok [[1; 1]; [1; 1]]%Z ∧
  get_indicator_matrix id Ex.tree1 Ex.params1 [[1; 1]; [1; 1]]%Z
  = Ok [[2; 2]; [2; 2]]%Z ∧
  get_linkage_matrix id Ex.tree1 Ex.params1 (Np.zeros 2 2)
  = Ok [[1; 1]; [1; 1]]%Z ∧
  get_linkage_matrix id Ex.tree1 Ex.params1 [[1; 1]; [1; 1]]%Z
  = Ok [[2; 2]; [2; 2]]%Z ∧
  [[2; 2]; [2; 2]]%Z ≠ [[1; 1]; [1; 1]]%Z.
Proof. split_and!; [vm_compute; reflexivity..|done]. Qed.

(** ** Only the records count *)

Lemma indicator_scan_filter tree tmp_dir dir_list a :
  indicator_scan tree tmp_dir dir_list a
  = indicator_scan tree tmp_dir (filter (λ tmp_f, is_temp_p tmp_f) dir_list) a.
Proof.
  revert a. induction dir_list as [|tmp_f dir_list IH]; intros a; [done|].
  rewrite filter_cons. case_decide as Htemp.
  - rewrite !indicator_scan_cons.
    destruct (indicator_step tree tmp_dir tmp_f a) as [a1|e]; [|done].
    rewrite !result_bind_Ok. apply IH.
  - apply Is_true_false in Htemp.
    rewrite indicator_scan_cons, indicator_step_other, result_bind_Ok by done.
    apply IH.
Qed.

Lemma linkage_scan_filter tree tmp_dir dir_list a :
  linkage_scan tree tmp_dir dir_list a
  = linkage_scan tree tmp_dir (filter (λ tmp_f, is_temp_p tmp_f) dir_list) a.
Proof.
  revert a. induction dir_list as [|tmp_f dir_list IH]; intros a; [done|].
  rewrite filter_cons. case_decide as Htemp.
  - rewrite !linkage_scan_cons.
    destruct (linkage_step tree tmp_dir tmp_f a) as [a1|e]; [|done].
    rewrite !result_bind_Ok. apply IH.
  - apply Is_true_false in Htemp.
    rewrite linkage_scan_cons, linkage_step_other, result_bind_Ok by done.
    apply IH.
Qed.

Lemma np_load_files tree d files f :
  tree !! d = Some files →
  np_load tree d f
  = match files !! f with
    | Some arr => Ok arr
    | None => Raise (FileNotFoundError (OsPath.join d f))
    end.
Proof. unfold np_load. by intros ->. Qed.

Lemma same_records_steps tree1 tree2 d files1 files2 tmp_f a :
  tree1 !! d = Some files1 → tree2 !! d = Some files2 →
  same_records files1 files2 →
  indicator_step tree1 d tmp_f a = indicator_step tree2 d tmp_f a ∧
  linkage_step tree1 d tmp_f a = linkage_step tree2 d tmp_f a.
Proof.
  intros H1 H2 Hsame. unfold indicator_step, linkage_step.
  destruct (is_temp_p tmp_f) eqn:Htemp; [|done].
  destruct (Hsame tmp_f) as [Hp Hh]; [by rewrite Htemp|].
  rewrite !(np_load_files tree1 d files1), !(np_load_files tree2 d files2) by done.
  rewrite <- Hp. destruct (files1 !! tmp_f) as [perm|]; [|done].
  by rewrite Hh.
Qed.

Lemma same_records_scans tree1 tree2 d files1 files2 dir_list a :
  tree1 !! d = Some files1 → tree2 !! d = Some files2 →
  same_records files1 files2 →
  indicator_scan tree1 d dir_list a = indicator_scan tree2 d dir_list a ∧
  linkage_scan tree1 d dir_list a = linkage_scan tree2 d dir_list a.
Proof.
  intros H1 H2 Hsame. revert a.
  induction dir_list as [|tmp_f dir_list IH]; intros a; [done|].
  rewrite !indicator_scan_cons, !linkage_scan_cons.
  destruct (same_records_steps tree1 tree2 d files1 files2 tmp_f a) as [-> ->];
    [done..|].
  split.
  - destruct (indicator_step tree2 d tmp_f a); [|done].
    rewrite !result_bind_Ok. apply IH.
  - destruct (linkage_step tree2 d tmp_f a); [|done].
    rewrite !result_bind_Ok. apply IH.
Qed.

Lemma same_records_listing order1 order2 (files1 files2 : gmap string (list nat)) :
  enumeration order1 → enumeration order2 → same_records files1 files2 →
  filter (λ tmp_f, is_temp_p tmp_f) (order1 (elements (dom files1)))
  ≡ₚ filter (λ tmp_f, is_temp_p tmp_f) (order2 (elements (dom files2))).
Proof.
  intros H1 H2 Hsame. rewrite (H1 _), (H2 _).
  apply NoDup_Permutation.
  - apply NoDup_filter, NoDup_elements.
  - apply NoDup_filter, NoDup_elements.
  - intros f. rewrite !list_elem_of_filter, !elem_of_elements, !elem_of_dom.
    split; intros [Htemp Hf]; (split; [done|]);
      destruct (Hsame f Htemp) as [Hp _]; congruence.
Qed.

Lemma same_records_sym files1 files2 :
  same_records files1 files2 → same_records files2 files1.
Proof.
  intros Hsame f Hf. destruct (Hsame f Hf) as [Hp Hh]. split; [done|].
  rewrite <- Hp. intros Hsome. by rewrite Hh.
Qed.

Lemma same_records_get order1 order2 tree1 tree2 run_parameters d files1 files2 :
  enumeration order1 → enumeration order2 →
  scan_directory run_parameters = Ok d →
  tree1 !! d = Some files1 → tree2 !! d = Some files2 →
  same_records files1 files2 →
  (∀ a a', get_indicator_matrix order1 tree1 run_parameters a = Ok a' →
           get_indicator_matrix order2 tree2 run_parameters a = Ok a') ∧
  (∀ a a', get_linkage_matrix order1 tree1 run_parameters a = Ok a' →
           get_linkage_matrix order2 tree2 run_parameters a = Ok a').
Proof.
  intros Ho1 Ho2 Hd H1 H2 Hsame.
  pose proof (same_records_listing order1 order2 files1 files2 Ho1 Ho2 Hsame) as Hl.
  split; intros a a'.
  - intros (d' & files' & Hd' & Hfiles' & Hscan)%get_indicator_matrix_Ok.
    assert (d' = d) as -> by congruence. assert (files' = files1) as -> by congruence.
    apply get_indicator_matrix_Ok. exists d, files2. split_and!; [done..|].
    rewrite indicator_scan_filter in Hscan |- *.
    eapply indicator_scan_Permutation; [exact Hl|].
    by destruct (same_records_scans tree1 tree2 d files1 files2
      (filter (λ tmp_f, is_temp_p tmp_f) (order1 (elements (dom files1)))) a)
      as [<- _].
  - intros (d' & files' & Hd' & Hfiles' & Hscan)%get_linkage_matrix_Ok.
    assert (d' = d) as -> by congruence. assert (files' = files1) as -> by congruence.
    apply get_linkage_matrix_Ok. exists d, files2. split_and!; [done..|].
    rewrite linkage_scan_filter in Hscan |- *.
    eapply linkage_scan_Permutation; [exact Hl|].
    by destruct (same_records_scans tree1 tree2 d files1 files2
      (filter (λ tmp_f, is_temp_p tmp_f) (order1 (elements (dom files1)))) a)
      as [_ <-].
Qed.

(** C10.  Both scans skip every directory entry whose name does not begin
    with [temp_p]; and the linkage, indicator and consensus matrices are the
    same for any two directories that agree on their [temp_p] files and on
    the [temp_h] files paired with them, whatever else they hold and in
    whatever order they are listed. *)
Theorem only_records_count :
  (∀ tree tmp_dir dir_list a,
     indicator_scan tree tmp_dir dir_list a
     = indicator_scan tree tmp_dir (filter (λ tmp_f, is_temp_p tmp_f) dir_list) a ∧
     linkage_scan tree tmp_dir dir_list a
     = linkage_scan tree tmp_dir (filter (λ tmp_f, is_temp_p tmp_f) dir_list) a) ∧
  (∀ order1 order2 tree1 tree2 run_parameters tmp_dir files1 files2,
     enumeration order1 → enumeration order2 →
     scan_directory run_parameters = Ok tmp_dir →
     tree1 !! tmp_dir = Some files1 → tree2 !! tmp_dir = Some files2 →
     same_records files1 files2 →
     (∀ I0 I, get_indicator_matrix order1 tree1 run_parameters I0 = Ok I ↔
              get_indicator_matrix order2 tree2 run_parameters I0 = Ok I) ∧
     (∀ L0 L, get_linkage_matrix order1 tree1 run_parameters L0 = Ok L ↔
              get_linkage_matrix order2 tree2 run_parameters L0 = Ok L) ∧
     (∀ L0 I0 C, form_consensus_matrix order1 tree1 run_parameters L0 I0 = Ok C ↔
                 form_consensus_matrix order2 tree2 run_parameters L0 I0 = Ok C)).
Proof.
  split.
  { intros. split; [apply indicator_scan_filter | apply linkage_scan_filter]. }
  intros order1 order2 tree1 tree2 rp d files1 files2 Ho1 Ho2 Hd H1 H2 Hsame.
  destruct (same_records_get order1 order2 tree1 tree2 rp d files1 files2)
    as [HI12 HL12]; [done..|].
  destruct (same_records_get order2 order1 tree2 tree1 rp d files2 files1)
    as [HI21 HL21]; [done..|by apply same_records_sym|].
  split_and!.
  - intros I0 I. split; auto.
  - intros L0 L. split; auto.
  - intros L0 I0 C. rewrite !form_consensus_matrix_Ok.
    split; intros (L & I & HI & HL & HC); exists L, I; auto.
Qed.

Lemma same_records_bystander (files : gmap string (list nat)) other arr :
  is_temp_p other = false →
  (∀ tmp_f, is_temp_p tmp_f → is_Some (files !! tmp_f) → h_name tmp_f ≠ other) →
  same_records files (<[other := arr]> files).
Proof.
  intros Hother Hh tmp_f Hf. split.
  - rewrite lookup_insert_ne; [done|]. intros ->. by rewrite Hother in Hf.
  - intros Hsome. rewrite lookup_insert_ne; [done|]. intros Heq. by eapply Hh.
Qed.

Lemma only_records_count_witness :
  get_indicator_matrix reverse Ex.tree1 Ex.params1 (Np.zeros 2 2)
  = Ok [[1; 1]; [1; 1]]%Z ∧
  get_linkage_matrix reverse Ex.tree1 Ex.params1 (Np.zeros 2 2)
  = Ok [[1; 1]; [1; 1]]%Z ∧
  form_consensus_matrix reverse Ex.tree1 Ex.params1 (Np.zeros 2 2) (Np.zeros 2 2)
  = Ok [[1; 1]; [1; 1]]%Q.
Proof.
  destruct only_records_count as [_ Hsame].
  destruct (Hsame id reverse Ex.tree2 Ex.tree1 Ex.params1 "tmp"
              Ex.files_base Ex.files1)
    as (HI & HL & HC).
  - apply enumeration_id.
  - apply enumeration_reverse.
  - vm_compute. reflexivity.
  - apply lookup_singleton_eq.
  - apply lookup_singleton_eq.
  - apply same_records_bystander; [done|].
    intros tmp_f _ [arr Hf]. unfold Ex.files_base in Hf.
    apply lookup_insert_Some in Hf as [[<- _]|[_ Hf]]; [done|].
    apply lookup_singleton_Some in Hf as [<- _]. done.
  - split_and!;
      [apply (proj1 (HI _ _)) | apply (proj1 (HL _ _)) | apply (proj1 (HC _ _ _))];
      vm_compute; reflexivity.
Defined.

(** ** The dominant factor *)

Lemma argmax_from_spec (pre xs : list Q) best_i best :
  pre !! best_i = Some best →
  (∀ r v, pre !! r = Some v → (v <= best)%Q) →
  (∀ r v, r < best_i → pre !! r = Some v → (v < best)%Q) →
  ∃ v, (pre ++ xs) !! Np.argmax_from best_i best (length pre) xs = Some v ∧
       (∀ r v', (pre ++ xs) !! r = Some v' → (v' <= v)%Q) ∧
       (∀ r v', r < Np.argmax_from best_i best (length pre) xs →
                (pre ++ xs) !! r = Some v' → (v' < v)%Q).
Proof.
  revert pre best_i best. induction xs as [|x xs IH]; intros pre best_i best Hb Hle Hlt.
  - simpl. rewrite app_nil_r. eauto.
  - simpl. destruct (Qle_bool x best) eqn:Hx.
    + apply Qle_bool_iff in Hx.
      specialize (IH (pre ++ [x]) best_i best).
      rewrite length_app, Nat.add_1_r, <- app_assoc in IH. apply IH.
      * by apply lookup_app_l_Some.
      * intros r v [Hr|[_ Hr]]%lookup_app_Some; [eauto|].
        apply list_lookup_singleton_Some in Hr as [_ <-]. done.
      * intros r v Hr [Hv|[Hge _]]%lookup_app_Some; [eauto|].
        apply lookup_lt_Some in Hb. lia.
    + assert (Hbx : (best < x)%Q).
      { apply Qnot_le_lt. intros Hle'%Qle_bool_iff. congruence. }
      specialize (IH (pre ++ [x]) (length pre) x).
      rewrite length_app, Nat.add_1_r, <- app_assoc in IH. apply IH.
      * rewrite lookup_app_r by done. by rewrite Nat.sub_diag.
      * intros r v [Hr|[_ Hr]]%lookup_app_Some.
        -- apply Qlt_le_weak. eapply Qle_lt_trans; [by eapply Hle|done].
        -- apply list_lookup_singleton_Some in Hr as [_ <-]. apply Qle_refl.
      * intros r v Hr [Hv|[Hge _]]%lookup_app_Some; [|lia].
        eapply Qle_lt_trans; [by eapply Hle|done].
Qed.

Lemma argmax1_spec (xs : list Q) r :
  Np.argmax1 xs = Ok r →
  ∃ v, xs !! r = Some v ∧
       (∀ r' v', xs !! r' = Some v' → (v' <= v)%Q) ∧
       (∀ r' v', r' < r → xs !! r' = Some v' → (v' < v)%Q).
Proof.
  destruct xs as [|x xs]; [done|]. simpl. intros [= <-].
  apply (argmax_from_spec [x] xs 0 x).
  - done.
  - intros r v Hr. apply list_lookup_singleton_Some in Hr as [_ <-]. apply Qle_refl.
  - intros r v Hr. lia.
Qed.

Lemma column_lookup (h : list (list Q)) j r :
  r < length h → Np.column h j !! r = Some (cell h r j).
Proof.
  intros Hr. unfold Np.column, cell. rewrite list_lookup_fmap.
  destruct (lookup_lt_is_Some_2 h r Hr) as [row Hrow]. rewrite Hrow. simpl.
  f_equal. f_equal. symmetry. by apply nth_lookup_Some.
Qed.

Lemma argmax1_dominant (h : list (list Q)) j r :
  Np.argmax1 (Np.column h j) = Ok r → dominant h j r.
Proof.
  intros (v & Hv & Hle & Hlt)%argmax1_spec.
  assert (Hr : r < length h).
  { apply lookup_lt_Some in Hv. unfold Np.column in Hv. by rewrite length_fmap in Hv. }
  rewrite column_lookup in Hv by done. simplify_eq. split_and!; [done| |].
  - intros r' Hr'. eapply Hle. by apply column_lookup.
  - intros r' Hr'. apply (Hlt r'); [done|]. apply column_lookup. lia.
Qed.

Lemma mapM_result_Ok {A B} (f : A → result B) (l : list A) :
  (∀ x, x ∈ l → is_Ok (f x)) →
  ∃ ys, mapM f l = Ok ys ∧ length ys = length l ∧
        ∀ i x, l !! i = Some x → ∃ y, ys !! i = Some y ∧ f x = Ok y.
Proof.
  induction l as [|x l IH]; intros Hf.
  - exists []. split_and!; [done..|]. intros i x Hx. by rewrite lookup_nil in Hx.
  - destruct (Hf x) as [y Hy]; [by left|].
    destruct IH as (ys & Hys & Hlen & Hlook); [intros; apply Hf; by right|].
    exists (y :: ys). split_and!.
    + simpl. rewrite Hy, result_bind_Ok. fold (mapM f l). by rewrite Hys.
    + simpl. by rewrite Hlen.
    + intros [|i] x' Hx'; simplify_eq/=; eauto.
Qed.

Lemma argmax0_dominant (h : list (list Q)) (n : nat) :
  h ≠ [] → Forall (λ row, length row = n) h →
  ∃ cluster_id, Np.argmax0 h = Ok cluster_id ∧ length cluster_id = n ∧
    ∀ j, j < n → ∃ r, cluster_id !! j = Some r ∧ dominant h j r.
Proof.
  intros Hne Hrows. destruct h as [|row h]; [done|].
  assert (Hrow : length row = n) by (by apply Forall_cons in Hrows as [? _]).
  unfold Np.argmax0. rewrite Hrow.
  destruct (mapM_result_Ok (λ j, Np.argmax1 (Np.column (row :: h) j)) (seq 0 n))
    as (cid & Hcid & Hlen & Hlook).
  { intros j _. simpl. by eexists. }
  exists cid. split_and!; [done|by rewrite Hlen, length_seq|].
  intros j Hj. destruct (Hlook j j) as (r & Hr & Harg).
  { by apply lookup_seq_lt. }
  exists r. split; [done|]. by apply argmax1_dominant.
Qed.

(** ** Persisting a record *)

Lemma io_bind_run {A B} (m : io A) (f : A → io B) w :
  (m ≫= f) w
  = match m w with
    | (Ok a, w') => f a w'
    | (Raise e, w') => (Raise e, w')
    end.
Proof. done. Qed.

Lemma io_bind_lift {A B} (r : result A) (f : A → io B) w :
  (lift r ≫= f) w
  = match r with
    | Ok a => f a w
    | Raise e => (Raise e, w)
    end.
Proof. by destruct r. Qed.

Lemma io_bind_reading {A B} (g : world → result A) (f : A → io B) w :
  (reading g ≫= f) w
  = match g w with
    | Ok a => f a w
    | Raise e => (Raise e, w)
    end.
Proof. rewrite io_bind_run. unfold reading. by destruct (g w). Qed.

Lemma temp_names_differ time_stamp : "temp_h" +:+ time_stamp ≠ "temp_p" +:+ time_stamp.
Proof. simpl. by intros [=]. Qed.

Lemma substring_all s : substring 0 (String.length s) s = s.
Proof. induction s as [|c s IH]; simpl; [done|]. by rewrite IH. Qed.

Lemma is_temp_p_name sfx : is_temp_p ("temp_p" +:+ sfx) = true.
Proof.
  unfold is_temp_p. apply bool_decide_eq_true_2. simpl.
  by destruct sfx.
Qed.

Lemma h_name_suffix sfx : h_name ("temp_p" +:+ sfx) = "temp_h" +:+ sfx.
Proof.
  unfold h_name. simpl. rewrite Nat.sub_0_r.
  destruct sfx as [|c sfx]; simpl; [done|]. by rewrite substring_all.
Qed.

Section Saving.
Context `{Collaborators}.

Lemma save_a_clustering_to_tmp_run h_matrix perm run_parameters sequence_number
    w tmp_dir time_stamp w1 cluster_id :
  getitem run_parameters "tmp_directory" ≫= as_path = Ok tmp_dir →
  kn_create_timestamped_filename ("_N" +:+ pretty sequence_number) None
    (1000000000000 # 1) w = (Ok time_stamp, w1) →
  Np.argmax0 h_matrix = Ok cluster_id →
  save_a_clustering_to_tmp h_matrix perm run_parameters sequence_number w
  = (Ok (),
     World (<[tmp_dir := <["temp_p" +:+ time_stamp := perm]>
                           (<["temp_h" +:+ time_stamp := cluster_id]>
                              (files_of w1 tmp_dir))]> (fs w1))
           (time_time w1)).
Proof.
  intros (v & Hv & Hdir)%bind_Ok Hstamp Harg. unfold save_a_clustering_to_tmp.
  rewrite io_bind_lift, Hv. rewrite io_bind_run, Hstamp.
  rewrite io_bind_lift, Hdir. rewrite io_bind_run.
  unfold files_of, os_makedirs.
  destruct (fs w1 !! tmp_dir) as [files|] eqn:Hfiles; simpl.
  - rewrite io_bind_lift, Harg. rewrite io_bind_run. unfold dump.
    rewrite Hfiles. simpl.
    rewrite lookup_insert_eq. simpl. by rewrite insert_insert_eq.
  - rewrite io_bind_lift, Harg. rewrite io_bind_run. unfold dump. simpl.
    rewrite lookup_insert_eq. simpl.
    rewrite lookup_insert_eq. simpl. by rewrite !insert_insert_eq.
Qed.

(** C8.  For a factor matrix with at least one factor and one column per
    retained sample, [save_a_clustering_to_tmp] completes and the assignment
    vector it persists holds, for each retained sample, the index of the
    dominant factor of that sample's column: the first row attaining the
    greatest entry.  Its length is that of the persisted permutation. *)
Theorem persisted_assignment_is_argmax h_matrix perm run_parameters sequence_number
    w tmp_dir time_stamp w1 :
  getitem run_parameters "tmp_directory" ≫= as_path = Ok tmp_dir →
  kn_create_timestamped_filename ("_N" +:+ pretty sequence_number) None
    (1000000000000 # 1) w = (Ok time_stamp, w1) →
  h_matrix ≠ [] → Forall (λ row, length row = length perm) h_matrix →
  ∃ w' cluster_id,
    save_a_clustering_to_tmp h_matrix perm run_parameters sequence_number w
    = (Ok (), w') ∧
    np_load (fs w') tmp_dir ("temp_h" +:+ time_stamp) = Ok cluster_id ∧
    np_load (fs w') tmp_dir ("temp_p" +:+ time_stamp) = Ok perm ∧
    length cluster_id = length perm ∧
    ∀ j, j < length perm → ∃ r, cluster_id !! j = Some r ∧ dominant h_matrix j r.
Proof.
  intros Hdir Hstamp Hne Hrows.
  destruct (argmax0_dominant h_matrix (length perm) Hne Hrows)
    as (cluster_id & Harg & Hlen & Hdom).
  eexists _, cluster_id. split_and!; [|  | |done|done].
  - by apply save_a_clustering_to_tmp_run.
  - simpl. unfold np_load. rewrite lookup_insert_eq. simpl.
    rewrite lookup_insert_ne by (symmetry; apply temp_names_differ).
    by rewrite lookup_insert_eq.
  - simpl. unfold np_load. rewrite lookup_insert_eq. simpl.
    by rewrite lookup_insert_eq.
Qed.

End Saving.

Lemma persisted_assignment_is_argmax_witness :
  ∃ w' cluster_id,
    @save_a_clustering_to_tmp Ex.stub Ex.h3 [2; 0; 1] Ex.params1 4 Ex.world_tmp
    = (Ok (), w') ∧
    np_load (fs w') "tmp" ("temp_h" +:+ "_N4_15000000000000") = Ok cluster_id ∧
    np_load (fs w') "tmp" ("temp_p" +:+ "_N4_15000000000000") = Ok [2; 0; 1] ∧
    length cluster_id = length [2; 0; 1] ∧
    ∀ j, j < length [2; 0; 1] → ∃ r, cluster_id !! j = Some r ∧ dominant Ex.h3 j r.
Proof.
  apply (@persisted_assignment_is_argmax Ex.stub Ex.h3 [2; 0; 1] Ex.params1 4
           Ex.world_tmp "tmp" "_N4_15000000000000" Ex.world_tmp).
  - vm_compute. reflexivity.
  - vm_compute. reflexivity.
  - discriminate.
  - repeat constructor.
Defined.

Example persisted_assignment_ex :
  Np.argmax0 Ex.h3 = Ok [0; 1; 0].
Proof. vm_compute. reflexivity. Qed.

Lemma argmax0_total (h : list (list Q)) : h ≠ [] → is_Ok (Np.argmax0 h).
Proof.
  destruct h as [|row h]; [done|]. intros _. unfold Np.argmax0.
  destruct (mapM_result_Ok (λ j, Np.argmax1 (Np.column (row :: h) j))
              (seq 0 (length row))) as (cid & Hcid & _).
  - intros j _. simpl. by eexists.
  - by exists cid.
Qed.

Section Naming.
Context `{Collaborators}.

(** C9.  A record is persisted as two files of the temporary directory,
    named [temp_h] and [temp_p] followed by one and the same suffix, the
    name the timestamping helper makes at precision 1e12 from [_N] and the
    replicate id; nothing else in the directory changes.  For a directory
    entry named [temp_p] followed by a suffix, the linkage scan loads the
    permutation from that entry and the assignment from the entry named
    [temp_h] followed by the same suffix. *)
Theorem record_files_share_suffix :
  (∀ h_matrix perm run_parameters sequence_number w tmp_dir time_stamp w1,
     getitem run_parameters "tmp_directory" ≫= as_path = Ok tmp_dir →
     kn_create_timestamped_filename ("_N" +:+ pretty sequence_number) None
       (1000000000000 # 1) w = (Ok time_stamp, w1) →
     h_matrix ≠ [] →
     ∃ w' cluster_id,
       save_a_clustering_to_tmp h_matrix perm run_parameters sequence_number w
       = (Ok (), w') ∧
       files_of w' tmp_dir
       = <["temp_p" +:+ time_stamp := perm]>
           (<["temp_h" +:+ time_stamp := cluster_id]> (files_of w1 tmp_dir)) ∧
       "temp_h" +:+ time_stamp ≠ "temp_p" +:+ time_stamp ∧
       ∀ d, d ≠ tmp_dir → fs w' !! d = fs w1 !! d) ∧
  (∀ tree tmp_dir suffix dir_list linkage_matrix,
     is_temp_p ("temp_p" +:+ suffix) = true ∧
     h_name ("temp_p" +:+ suffix) = "temp_h" +:+ suffix ∧
     linkage_scan tree tmp_dir (("temp_p" +:+ suffix) :: dir_list) linkage_matrix
     = (sample_permutation ← np_load tree tmp_dir ("temp_p" +:+ suffix);
        h_mat ← np_load tree tmp_dir ("temp_h" +:+ suffix);
        linkage_matrix' ←
          update_linkage_matrix (Labels h_mat) sample_permutation linkage_matrix;
        linkage_scan tree tmp_dir dir_list linkage_matrix')).
Proof.
  split.
  - intros h perm rp seq w d ts w1 Hdir Hstamp Hne.
    destruct (argmax0_total h Hne) as [cid Harg].
    eexists _, cid. split_and!.
    + by apply save_a_clustering_to_tmp_run.
    + unfold files_of at 1. simpl. by rewrite lookup_insert_eq.
    + apply temp_names_differ.
    + intros d' Hd'. simpl. by rewrite lookup_insert_ne.
  - intros tree d sfx dir_list L. split_and!.
    + apply is_temp_p_name.
    + apply h_name_suffix.
    + rewrite linkage_scan_cons, linkage_step_temp_p by apply is_temp_p_name.
      rewrite h_name_suffix.
      destruct (np_load tree d ("temp_p" +:+ sfx)) as [perm|e]; [|done].
      rewrite !result_bind_Ok.
      destruct (np_load tree d ("temp_h" +:+ sfx)) as [hm|e]; [|done].
      by rewrite !result_bind_Ok.
Qed.

End Naming.

Lemma record_files_share_suffix_witness :
  ∃ w' cluster_id,
    @save_a_clustering_to_tmp Ex.stub Ex.h3 [2; 0; 1] Ex.params1 4 Ex.world_tmp
    = (Ok (), w') ∧
    files_of w' "tmp"
    = <["temp_p" +:+ "_N4_15000000000000" := [2; 0; 1]]>
        (<["temp_h" +:+ "_N4_15000000000000" := cluster_id]>
           (files_of Ex.world_tmp "tmp")) ∧
    "temp_h" +:+ "_N4_15000000000000" ≠ "temp_p" +:+ "_N4_15000000000000" ∧
    ∀ d, d ≠ "tmp" → fs w' !! d = fs Ex.world_tmp !! d.
Proof.
  apply (proj1 (@record_files_share_suffix Ex.stub) Ex.h3 [2; 0; 1] Ex.params1 4
           Ex.world_tmp "tmp" "_N4_15000000000000" Ex.world_tmp).
  - vm_compute. reflexivity.
  - vm_compute. reflexivity.
  - discriminate.
Defined.

(** ** An unrecognised execution strategy *)

Lemma eq_str_false method s : method ≠ PStr s → eq_str method s = false.
Proof.
  intros Hne. destruct method as [s'| |]; simpl; [|done..].
  apply bool_decide_eq_false_2. congruence.
Qed.

Lemma create_dir_outcome dir_path dir_name w :
  (∃ e, create_dir dir_path dir_name None w = (Raise e, w)) ∨
  (∃ d, fs w !! d = None ∧
        create_dir dir_path dir_name None w
        = (Ok d, World (<[d := ∅]> (fs w)) (time_time w))).
Proof.
  unfold create_dir. rewrite io_bind_run. unfold get_timestamp.
  set (ts := pretty _). cbn beta iota. rewrite io_bind_run. unfold os_mkdir.
  destruct (fs w !! OsPath.join dir_path (dir_name +:+ ts)) as [files|] eqn:Hd.
  - left. by eexists.
  - right. exists (OsPath.join dir_path (dir_name +:+ ts)). done.
Qed.

Lemma update_tmp_directory_outcome run_parameters tmp_dir w :
  (∃ e, update_tmp_directory run_parameters tmp_dir w = (Raise e, w)) ∨
  (∃ d, fs w !! d = None ∧
        update_tmp_directory run_parameters tmp_dir w
        = (Ok (<["tmp_directory" := PStr d]> run_parameters),
           World (<[d := ∅]> (fs w)) (time_time w))).
Proof.
  unfold update_tmp_directory. rewrite !io_bind_lift.
  destruct (getitem run_parameters "processing_method") as [method|e];
    [|left; by eexists].
  destruct (eq_str method "distribute"); rewrite !io_bind_lift.
  - destruct (getitem run_parameters "cluster_shared_volumn" ≫= as_path)
      as [volume|e]; [|left; by eexists].
    rewrite !io_bind_run.
    destruct (create_dir_outcome volume tmp_dir w) as [[e ->]|(d & Hd & ->)].
    + left. by eexists.
    + right. by exists d.
  - destruct (getitem run_parameters "run_directory" ≫= as_path)
      as [run_directory|e]; [|left; by eexists].
    rewrite !io_bind_run.
    destruct (create_dir_outcome run_directory tmp_dir w) as [[e ->]|(d & Hd & ->)].
    + left. by eexists.
    + right. by exists d.
Qed.

Lemma getitem_insert_ne (run_parameters : gmap string pyval) key key' v :
  key ≠ key' →
  getitem (<[key := v]> run_parameters) key' = getitem run_parameters key'.
Proof. intros Hne. unfold getitem. by rewrite lookup_insert_ne. Qed.

Section Dispatch.
Context `{Collaborators}.

Lemma dispatch_refuses run_parameters method in_parallel worker w :
  getitem run_parameters "processing_method" = Ok method →
  method ∉ [PStr "serial"; PStr "parallel"; PStr "distribute"] →
  dispatch run_parameters in_parallel worker w
  = (Raise (ValueError "processing_method contains bad value."), w).
Proof.
  intros Hmethod Hbad. unfold dispatch.
  rewrite Hmethod.
  rewrite io_bind_lift. cbn beta iota. rewrite eq_str_false by set_solver.
  rewrite io_bind_lift. cbn beta iota. rewrite eq_str_false by set_solver.
  rewrite io_bind_lift. cbn beta iota. rewrite eq_str_false by set_solver.
  done.
Qed.

Lemma prepare_network_world run_parameters w :
  (prepare_network run_parameters w).2 = w.
Proof.
  unfold prepare_network. rewrite io_bind_reading.
  destruct (_ ≫= _) as [df|e]; [|done].
  rewrite io_bind_reading.
  destruct (_ ≫= _) as [ndf|e]; [|done]. done.
Qed.

End Dispatch.

Section Refusal.
Context `{Collaborators}.

Lemma run_cc_nmf_refuses run_parameters method w :
  getitem run_parameters "processing_method" = Ok method →
  method ∉ [PStr "serial"; PStr "parallel"; PStr "distribute"] →
  ∃ e w', run_cc_nmf run_parameters w = (Raise e, w') ∧ left_behind w w' ∧
    ∀ rp1 w1 df m,
      update_tmp_directory run_parameters "tmp_cc_nmf" w = (Ok rp1, w1) →
      (path ← getitem rp1 "spreadsheet_name_full_path";
       kn_get_spreadsheet_df path w1) = Ok df →
      kn_get_quantile_norm_matrix (as_matrix df) = Ok m →
      e = ValueError "processing_method contains bad value." ∧ w' = w1.
Proof.
  intros Hmethod Hbad. unfold run_cc_nmf. rewrite io_bind_run.
  destruct (update_tmp_directory_outcome run_parameters "tmp_cc_nmf" w)
    as [[e ->]|(d & Hd & ->)].
  { exists e, w. split_and!; [done|by left|]. by intros. }
  rewrite io_bind_reading.
  destruct (_ ≫= _) as [df|e] eqn:Hdf.
  2:{ eexists _, _. split_and!; [done|right; eauto|].
      intros rp1 w1 df m [= <- <-] Hdf'. congruence. }
  rewrite io_bind_lift.
  destruct (kn_get_quantile_norm_matrix (as_matrix df)) as [m|e] eqn:Hm.
  2:{ eexists _, _. split_and!; [done|right; eauto|].
      intros rp1 w1 df' m [= <- <-] Hdf' Hm'. congruence. }
  rewrite io_bind_run.
  erewrite dispatch_refuses; [|by rewrite getitem_insert_ne|done].
  eexists _, _. split_and!; [done|right; eauto|].
  intros rp1 w1 df' m' [= <- <-] _ _. done.
Qed.

Lemma run_cc_net_nmf_refuses run_parameters method w :
  getitem run_parameters "processing_method" = Ok method →
  method ∉ [PStr "serial"; PStr "parallel"; PStr "distribute"] →
  ∃ e w', run_cc_net_nmf run_parameters w = (Raise e, w') ∧ left_behind w w' ∧
    ∀ rp1 w1 prepared,
      update_tmp_directory run_parameters "tmp_cc_net_nmf" w = (Ok rp1, w1) →
      (prepare_network rp1 w1).1 = Ok prepared →
      e = ValueError "processing_method contains bad value." ∧ w' = w1.
Proof.
  intros Hmethod Hbad. unfold run_cc_net_nmf. rewrite io_bind_run.
  destruct (update_tmp_directory_outcome run_parameters "tmp_cc_net_nmf" w)
    as [[e ->]|(d & Hd & ->)].
  { exists e, w. split_and!; [done|by left|]. by intros. }
  rewrite io_bind_run.
  pose proof (prepare_network_world
                (<["tmp_directory" := PStr d]> run_parameters)
                (World (<[d := ∅]> (fs w)) (time_time w))) as Hw.
  destruct (prepare_network _ _) as [[[[[df nm] ld] lp]|e] w1] eqn:Hprep;
    simpl in Hw; subst w1.
  2:{ eexists _, _. split_and!; [done|right; eauto|].
      intros rp1 w1 prepared [= <- <-]. rewrite Hprep. done. }
  rewrite io_bind_run.
  erewrite dispatch_refuses; [|by rewrite getitem_insert_ne|done].
  eexists _, _. split_and!; [done|right; eauto|].
  intros rp1 w1 prepared [= <- <-] _. done.
Qed.

(** C2, as the code has it.  With a [processing_method] that is none of
    [serial], [parallel] and [distribute], [run_cc_nmf] and [run_cc_net_nmf]
    never complete: they raise, and no replicate runs, since all they leave
    behind is at most one new directory without any file in it, the
    temporary directory that [update_tmp_directory] makes before the method
    is looked at.  When that directory is made and the inputs are read, the
    exception is [ValueError('processing_method contains bad value.')]. *)
Theorem unrecognised_method_refused run_parameters method :
  getitem run_parameters "processing_method" = Ok method →
  method ∉ [PStr "serial"; PStr "parallel"; PStr "distribute"] →
  (∀ w, ∃ e w',
     run_cc_nmf run_parameters w = (Raise e, w') ∧ left_behind w w' ∧
     ∀ rp1 w1 df m,
       update_tmp_directory run_parameters "tmp_cc_nmf" w = (Ok rp1, w1) →
       (path ← getitem rp1 "spreadsheet_name_full_path";
        kn_get_spreadsheet_df path w1) = Ok df →
       kn_get_quantile_norm_matrix (as_matrix df) = Ok m →
       e = ValueError "processing_method contains bad value." ∧ w' = w1) ∧
  (∀ w, ∃ e w',
     run_cc_net_nmf run_parameters w = (Raise e, w') ∧ left_behind w w' ∧
     ∀ rp1 w1 prepared,
       update_tmp_directory run_parameters "tmp_cc_net_nmf" w = (Ok rp1, w1) →
       (prepare_network rp1 w1).1 = Ok prepared →
       e = ValueError "processing_method contains bad value." ∧ w' = w1).
Proof.
  intros Hmethod Hbad. split; intros w.
  - by eapply run_cc_nmf_refuses.
  - by eapply run_cc_net_nmf_refuses.
Qed.

End Refusal.

Lemma unrecognised_method_refused_witness :
  (∀ w, ∃ e w',
     @run_cc_nmf Ex.stub Ex.params_bad w = (Raise e, w') ∧ left_behind w w' ∧
     ∀ rp1 w1 df m,
       update_tmp_directory Ex.params_bad "tmp_cc_nmf" w = (Ok rp1, w1) →
       (path ← getitem rp1 "spreadsheet_name_full_path";
        @kn_get_spreadsheet_df Ex.stub path w1) = Ok df →
       @kn_get_quantile_norm_matrix Ex.stub (@as_matrix Ex.stub df) = Ok m →
       e = ValueError "processing_method contains bad value." ∧ w' = w1) ∧
  (∀ w, ∃ e w',
     @run_cc_net_nmf Ex.stub Ex.params_bad w = (Raise e, w') ∧ left_behind w w' ∧
     ∀ rp1 w1 prepared,
       update_tmp_directory Ex.params_bad "tmp_cc_net_nmf" w = (Ok rp1, w1) →
       (@prepare_network Ex.stub rp1 w1).1 = Ok prepared →
       e = ValueError "processing_method contains bad value." ∧ w' = w1).
Proof.
  apply (@unrecognised_method_refused Ex.stub Ex.params_bad (PStr "paralel")).
  - vm_compute. reflexivity.
  - intros Hin. repeat (apply elem_of_cons in Hin as [Hin|Hin]; [discriminate|]).
    by apply elem_of_nil in Hin.
Defined.

(** C2, as stated, fails: the refused run of the example has created its
    temporary directory, which was not there before and stays. *)
Lemma refused_run_leaves_directory :
  @run_cc_nmf Ex.stub Ex.params_bad Ex.world0
  = (Raise (ValueError "processing_method contains bad value."),
     World (<["/run/tmp_cc_nmf15000000" := ∅]> (fs Ex.world0)) (time_time Ex.world0)) ∧
  @run_cc_net_nmf Ex.stub Ex.params_bad Ex.world0
  = (Raise (ValueError "processing_method contains bad value."),
     World (<["/run/tmp_cc_net_nmf15000000" := ∅]> (fs Ex.world0))
           (time_time Ex.world0)) ∧
  fs Ex.world0 !! "/run/tmp_cc_nmf15000000" = None ∧
  fs Ex.world0 !! "/run/tmp_cc_net_nmf15000000" = None ∧
  World (<["/run/tmp_cc_nmf15000000" := ∅]> (fs Ex.world0)) (time_time Ex.world0)
  ≠ Ex.world0 ∧
  World (<["/run/tmp_cc_net_nmf15000000" := ∅]> (fs Ex.world0)) (time_time Ex.world0)
  ≠ Ex.world0.
Proof.
  split_and!.
  - vm_compute. reflexivity.
  - vm_compute. reflexivity.
  - vm_compute. reflexivity.
  - vm_compute. reflexivity.
  - intros Heq. apply (f_equal (λ w, fs w !! "/run/tmp_cc_nmf15000000")) in Heq.
    vm_compute in Heq. discriminate.
  - intros Heq. apply (f_equal (λ w, fs w !! "/run/tmp_cc_net_nmf15000000")) in Heq.
    vm_compute in Heq. discriminate.
Qed.

(** ** Counting records *)

Lemma aggregation_counts order tree run_parameters N tmp_dir files :
  scan_directory run_parameters = Ok tmp_dir →
  tree !! tmp_dir = Some files →
  paired tree tmp_dir (order (elements (dom files))) →
  Forall (λ r, well_formed N r ∧ r.2 ≠ [])
         (scanned_records order tree run_parameters) →
  ∃ L I,
    get_linkage_matrix order tree run_parameters (Np.zeros N N) = Ok L ∧
    get_indicator_matrix order tree run_parameters (Np.zeros N N) = Ok I ∧
    ∀ i j, i < N → j < N →
      Np.entry L i j
      = Some (Z.of_nat (length (filter (λ r : record, co_clustered r.1 r.2 i j)
                                  (scanned_records order tree run_parameters)))) ∧
      Np.entry I i j
      = Some (Z.of_nat (length (filter (λ r : record, co_sampled r.1 i j)
                                  (scanned_records order tree run_parameters)))).
Proof.
  intros Hd Hfiles Hpaired Hwf. unfold scanned_records in *.
  rewrite Hd, Hfiles in Hwf |- *.
  destruct (scans_total N tree tmp_dir (order (elements (dom files)))
              (Np.zeros N N) (Np.zeros N N)) as [HI HL];
    [apply square_zeros..|done|done|].
  eexists _, _. split_and!.
  - apply get_linkage_matrix_Ok. eauto.
  - apply get_indicator_matrix_Ok. eauto.
  - intros i j Hi Hj. rewrite !entry_add_table, !entry_zeros by done. simpl.
    by rewrite linkage_count_length, indicator_count_length.
Qed.

(** C3 at a record without samples.  A replicate that retains no sample
    persists an empty assignment and an empty permutation; the indicator
    scan takes the record as adding nothing, and so does the linkage update
    on the factor matrix itself, but the linkage scan, and with it
    [form_consensus_matrix], raises [ValueError] instead of returning the
    counts. *)
Theorem empty_record_breaks_linkage_scan :
  let saved := @save_a_clustering_to_tmp Ex.stub [[]; []] [] Ex.params1 0 Ex.world_tmp in
  saved.1 = Ok () ∧
  files_of saved.2 "tmp"
  = {[ "temp_h_N0_15000000000000" := []; "temp_p_N0_15000000000000" := [] ]} ∧
  get_indicator_matrix id (fs saved.2) Ex.params1 (Np.zeros 2 2) = Ok (Np.zeros 2 2) ∧
  get_linkage_matrix id (fs saved.2) Ex.params1 (Np.zeros 2 2)
  = Raise (ValueError "max() arg is an empty sequence") ∧
  form_consensus_matrix id (fs saved.2) Ex.params1 (Np.zeros 2 2) (Np.zeros 2 2)
  = Raise (ValueError "max() arg is an empty sequence") ∧
  update_linkage_matrix (Factors [[]; []]) [] (Np.zeros 2 2) = Ok (Np.zeros 2 2) ∧
  update_indicator_matrix [] (Np.zeros 2 2) = Ok (Np.zeros 2 2).
Proof. split_and!; vm_compute; reflexivity. Qed.

(** Why C6 asks for permutations without repetition: a sample kept twice,
    once in each cluster, is linked with itself twice and sampled once. *)
Example repeated_sample_breaks_domination :
  update_linkage_matrix (Labels [0; 1]) [0; 0] (Np.zeros 1 1) = Ok [[2%Z]] ∧
  update_indicator_matrix [0; 0] (Np.zeros 1 1) = Ok [[1%Z]].
Proof. split; vm_compute; reflexivity. Qed.

(** * The two encodings of a replicate's clustering *)

Lemma iadd_outer_nil (a : Np.matrix) : Np.iadd_outer [] a = Ok a.
Proof.
  rewrite iadd_outer_eq, bool_decide_eq_true_2 by constructor.
  f_equal. rewrite <- (add_table_zero a) at 2. apply add_table_ext.
  intros i j. unfold outer. rewrite bool_decide_eq_false_2; [done|].
  intros [Hi _]. by apply elem_of_nil in Hi.
Qed.

Lemma cluster_loop_app cs1 cs2 cluster_id sample_perm a :
  cluster_loop (cs1 ++ cs2) cluster_id sample_perm a
  = cluster_loop cs1 cluster_id sample_perm a ≫= cluster_loop cs2 cluster_id sample_perm.
Proof.
  revert a. induction cs1 as [|c cs1 IH]; intros a; [done|]. simpl.
  destruct (Np.take_mask _ _) as [slice|]; [|done]. rewrite !result_bind_Ok.
  destruct (Np.iadd_outer slice a) as [a1|]; [|done]. rewrite !result_bind_Ok.
  apply IH.
Qed.

Lemma select_eq_scalar_absent (sample_perm cluster_id : list nat) c :
  c ∉ cluster_id → Np.select sample_perm (Np.eq_scalar cluster_id c) = [].
Proof.
  revert sample_perm. induction cluster_id as [|x cluster_id IH]; intros [|p perm] Hc;
    try done.
  apply not_elem_of_cons in Hc as [Hne Hc]. simpl.
  rewrite bool_decide_eq_false_2 by done. by apply IH.
Qed.

Lemma cluster_loop_absent cs cluster_id sample_perm a :
  length cluster_id = length sample_perm → Forall (λ c, c ∉ cluster_id) cs →
  cluster_loop cs cluster_id sample_perm a = Ok a.
Proof.
  intros Hlen. induction 1 as [|c cs Hc _ IH]; [done|]. simpl.
  unfold Np.take_mask. rewrite bool_decide_eq_true_2
    by (unfold Np.eq_scalar; by rewrite length_fmap).
  rewrite result_bind_Ok, select_eq_scalar_absent, iadd_outer_nil by done.
  by rewrite result_bind_Ok.
Qed.

Lemma foldl_max_elem (x : nat) xs : foldl Nat.max x xs ∈ x :: xs.
Proof.
  revert x. induction xs as [|y xs IH]; intros x; simpl; [by left|].
  pose proof (IH (x `max` y)) as [Heq|Hin]%elem_of_cons.
  - rewrite Heq. destruct (Nat.max_spec x y) as [[_ ->]|[_ ->]]; [right|]; by left.
  - by do 2 right.
Qed.

Lemma py_max_Ok (xs : list nat) m :
  py_max xs = Ok m ↔ m ∈ xs ∧ ∀ c : nat, c ∈ xs → (c ≤ m)%nat.
Proof.
  destruct xs as [|x xs]; simpl.
  - split; [done|]. intros [Hm _]. by apply elem_of_nil in Hm.
  - split.
    + intros [= <-]. split; [apply foldl_max_elem|]. intros c. apply le_py_max.
    + intros [Hm Hle]. f_equal. apply Nat.le_antisymm.
      * apply Hle, foldl_max_elem.
      * by apply le_py_max.
Qed.

Lemma argmax1_lt (xs : list Q) r : Np.argmax1 xs = Ok r → r < length xs.
Proof. intros (v & Hv & _)%argmax1_spec. by eapply lookup_lt_Some. Qed.

Lemma mapM_result_Forall2 {A B} (f : A → result B) (l : list A) ys :
  mapM f l = Ok ys → Forall2 (λ x y, f x = Ok y) l ys.
Proof.
  revert ys. induction l as [|x l IH]; intros ys; simpl.
  - intros [= <-]. constructor.
  - intros (y & Hy & (k & Hk & [= <-])%bind_Ok)%bind_Ok. constructor; auto.
Qed.

Lemma argmax0_lt (h : list (list Q)) cluster_id :
  Np.argmax0 h = Ok cluster_id → Forall (λ c, c < length h) cluster_id.
Proof.
  unfold Np.argmax0. destruct h as [|row h]; [done|].
  intros Hall%mapM_result_Forall2. apply Forall_forall. intros c Hc.
  apply list_elem_of_lookup in Hc as [j Hj].
  destruct (Forall2_lookup_r _ _ _ _ _ Hall Hj) as (j' & _ & Hmax).
  apply argmax1_lt in Hmax. unfold Np.column in Hmax. by rewrite length_fmap in Hmax.
Qed.

Lemma factors_as_labels (h : list (list Q)) cluster_id sample_perm linkage_matrix :
  Np.argmax0 h = Ok cluster_id → cluster_id ≠ [] →
  update_linkage_matrix (Factors h) sample_perm linkage_matrix
  = update_linkage_matrix (Labels cluster_id) sample_perm linkage_matrix.
Proof.
  intros Hcid Hne. unfold update_linkage_matrix. rewrite Hcid.
  destruct (py_max cluster_id) as [m|e] eqn:Hm; [|by destruct cluster_id].
  rewrite !result_bind_Ok. cbn beta iota.
  apply py_max_Ok in Hm as [Hm Hle].
  assert (Hlt : m < length h).
  { apply argmax0_lt in Hcid. by apply (proj1 (Forall_forall _ _) Hcid). }
  replace (length h) with ((m + 1) + (length h - (m + 1))) by lia.
  rewrite seq_app, cluster_loop_app.
  destruct (cluster_loop (seq 0 (m + 1)) cluster_id sample_perm linkage_matrix)
    as [a1|e] eqn:Hloop; [|done].
  rewrite result_bind_Ok. apply cluster_loop_Ok in Hloop as [_ Hlen].
  apply cluster_loop_absent.
  - apply Hlen. by rewrite Nat.add_1_r.
  - apply Forall_forall. intros c [Hc _]%elem_of_seq Hin. apply Hle in Hin. lia.
Qed.

(** The factor matrix and the assignment vector taken from it give the same
    update, exceptions included, as soon as one sample is retained. *)
Theorem encodings_agree (h : list (list Q)) cluster_id sample_perm linkage_matrix :
  Np.argmax0 h = Ok cluster_id → cluster_id ≠ [] →
  update_linkage_matrix (Factors h) sample_perm linkage_matrix
  = update_linkage_matrix (Labels cluster_id) sample_perm linkage_matrix.
Proof. apply factors_as_labels. Qed.

Lemma encodings_agree_witness :
  update_linkage_matrix (Factors Ex.h3) [2; 0; 1] (Np.zeros 3 3)
  = update_linkage_matrix (Labels [0; 1; 0]) [2; 0; 1] (Np.zeros 3 3).
Proof. apply encodings_agree; [vm_compute; reflexivity | done]. Defined.

(** * Outcome of the linkage update on an N×N accumulator *)

Lemma cluster_loop_out_of_range N cs (cluster_id sample_perm : list nat) a
    (c q p : nat) :
  square N a → length cluster_id = length sample_perm →
  c ∈ cs → sample_perm !! q = Some p → cluster_id !! q = Some c → (N ≤ p)%nat →
  cluster_loop cs cluster_id sample_perm a = Raise IndexError.
Proof.
  intros Hsq Hlen Hc Hp Hq HN. revert a Hsq Hc.
  induction cs as [|c0 cs IH]; intros a Hsq Hc; [by apply elem_of_nil in Hc|].
  simpl. unfold Np.take_mask.
  rewrite bool_decide_eq_true_2 by (unfold Np.eq_scalar; by rewrite length_fmap).
  rewrite result_bind_Ok, iadd_outer_eq.
  case_bool_decide as Hall; [|done]. rewrite result_bind_Ok.
  apply elem_of_cons in Hc as [<-|Hc].
  - exfalso. rewrite Forall_forall in Hall. destruct (Hall p) as [Hp0 _].
    + apply elem_of_select; [done|]. apply elem_of_zip_lookup. eauto.
    + rewrite (square_shape0 N) in Hp0 by done. lia.
  - apply IH; [|done]. by apply square_add_table.
Qed.

Lemma update_linkage_matrix_Labels_eq N h perm a :
  square N a →
  update_linkage_matrix (Labels h) perm a
  = m ← py_max h;
    if bool_decide (length h = length perm ∧ Forall (λ i, i < N) perm)
    then Ok (add_table (cluster_table (seq 0 (m + 1)) h perm) a)
    else Raise IndexError.
Proof.
  intros Hsq. unfold update_linkage_matrix.
  destruct (py_max h) as [m|e] eqn:Hm; [|done]. rewrite !result_bind_Ok.
  cbn beta iota. case_bool_decide as Hok.
  - destruct Hok as [Hlen Hlt]. by eapply cluster_loop_total.
  - destruct (decide (length h = length perm)) as [Hlen|Hlen].
    + assert (Hex : Exists (λ i, ¬ i < N) perm).
      { apply not_Forall_Exists; [apply _|]. naive_solver. }
      apply Exists_exists in Hex as (p & [q Hq]%list_elem_of_lookup & Hp).
      destruct (lookup_lt_is_Some_2 h q) as [c Hc].
      { rewrite Hlen. by eapply lookup_lt_Some. }
      apply py_max_Ok in Hm as [_ Hle].
      eapply (cluster_loop_out_of_range N _ _ _ _ c q p); try done; [|lia].
      apply elem_of_seq. split; [lia|].
      assert (c ≤ m)%nat by (apply Hle; by eapply list_elem_of_lookup_2). lia.
    + rewrite Nat.add_1_r. simpl. unfold Np.take_mask.
      rewrite bool_decide_eq_false_2; [done|].
      unfold Np.eq_scalar. by rewrite length_fmap.
Qed.

(** On an N×N accumulator the linkage update raises [ValueError] exactly
    for an empty assignment vector, [IndexError] exactly when the
    assignment and the permutation differ in length or a sample index lies
    outside the accumulator, and returns in every other case. *)
Theorem update_linkage_matrix_outcome N cluster_id sample_perm linkage_matrix :
  square N linkage_matrix →
  (update_linkage_matrix (Labels cluster_id) sample_perm linkage_matrix
   = Raise (ValueError "max() arg is an empty sequence") ↔ cluster_id = []) ∧
  (update_linkage_matrix (Labels cluster_id) sample_perm linkage_matrix
   = Raise IndexError ↔
   cluster_id ≠ [] ∧
   (length cluster_id ≠ length sample_perm ∨ ∃ i : nat, i ∈ sample_perm ∧ (N ≤ i)%nat)) ∧
  (is_Ok (update_linkage_matrix (Labels cluster_id) sample_perm linkage_matrix) ↔
   cluster_id ≠ [] ∧ length cluster_id = length sample_perm ∧
   ∀ i, i ∈ sample_perm → i < N).
Proof.
  intros Hsq. rewrite (update_linkage_matrix_Labels_eq N) by done.
  destruct cluster_id as [|c cluster_id]; [unfold is_Ok; naive_solver|].
  change (py_max (c :: cluster_id)) with (Ok (foldl Nat.max c cluster_id)).
  rewrite result_bind_Ok. case_bool_decide as Hok.
  - destruct Hok as [Hlen Hlt]. rewrite Forall_forall in Hlt.
    split_and!; [done| |].
    + split; [done|]. intros (_ & [?|(i & Hi%Hlt & ?)]); [done|lia].
    + split; [done|]. intros _. by eexists.
  - split_and!; [done| |].
    + split; [|done]. intros _. split; [done|].
      destruct (decide (length (c :: cluster_id) = length sample_perm)); [|by left].
      right. assert (Hex : Exists (λ i, ¬ i < N) sample_perm).
      { apply not_Forall_Exists; [apply _|]. naive_solver. }
      apply Exists_exists in Hex as (i & Hi & Hlt). exists i. split; [done|lia].
    + split; [by intros [? ?]|]. intros (_ & Hlen & Hlt). destruct Hok.
      split; [done|]. by apply Forall_forall.
Qed.

Lemma update_linkage_matrix_outcome_witness :
  (update_linkage_matrix (Labels [1; 0; 1]) [2; 0; 1] (Np.zeros 3 3)
   = Raise (ValueError "max() arg is an empty sequence") ↔ [1; 0; 1] = []) ∧
  (update_linkage_matrix (Labels [1; 0; 1]) [2; 0; 1] (Np.zeros 3 3)
   = Raise IndexError ↔
   [1; 0; 1] ≠ [] ∧
   (length [1; 0; 1] ≠ length [2; 0; 1] ∨ ∃ i : nat, i ∈ [2; 0; 1] ∧ (3 ≤ i)%nat)) ∧
  (is_Ok (update_linkage_matrix (Labels [1; 0; 1]) [2; 0; 1] (Np.zeros 3 3)) ↔
   [1; 0; 1] ≠ [] ∧ length [1; 0; 1] = length [2; 0; 1] ∧
   ∀ i, i ∈ [2; 0; 1] → i < 3).
Proof. apply (update_linkage_matrix_outcome 3). apply square_zeros. Defined.

(** * A sample listed twice is counted once *)

(** The indicator update depends on the set of retained samples only: two
    permutation vectors with the same entries, in whatever order and however
    often repeated, give the same update, exception included. *)
Theorem indicator_update_by_sample_set (perm perm' : list nat) indicator_matrix :
  (∀ i, i ∈ perm ↔ i ∈ perm') →
  update_indicator_matrix perm indicator_matrix
  = update_indicator_matrix perm' indicator_matrix.
Proof.
  intros Hset. unfold update_indicator_matrix. rewrite !iadd_outer_eq.
  rewrite (bool_decide_ext _
             (Forall (λ i, i < Np.shape0 indicator_matrix ∧
                           i < Np.shape1 indicator_matrix) perm')).
  2:{ rewrite !Forall_forall. naive_solver. }
  case_bool_decide; [|done]. f_equal. apply add_table_ext. intros i j.
  unfold outer. apply (f_equal (λ b : bool, if b then _ else _)), bool_decide_ext.
  by rewrite !Hset.
Qed.

Lemma indicator_update_by_sample_set_witness :
  update_indicator_matrix [1; 0; 1; 1] (Np.zeros 2 2)
  = update_indicator_matrix [0; 1] (Np.zeros 2 2).
Proof.
  apply indicator_update_by_sample_set. intros i.
  rewrite !elem_of_cons, !elem_of_nil. naive_solver.
Defined.

(** * What the linkage update reads from a record *)

Lemma update_linkage_matrix_Labels_linked N h perm a :
  square N a → NoDup perm →
  update_linkage_matrix (Labels h) perm a
  = match h with
    | [] => Raise (ValueError "max() arg is an empty sequence")
    | _ => if bool_decide (length h = length perm ∧ Forall (λ i, i < N) perm)
           then Ok (add_table (linked perm h) a)
           else Raise IndexError
    end.
Proof.
  intros Hsq Hnd. rewrite (update_linkage_matrix_Labels_eq N) by done.
  destruct h as [|c h]; [done|].
  change (py_max (c :: h)) with (Ok (foldl Nat.max c h)). rewrite result_bind_Ok.
  case_bool_decide as Hok; [|done]. destruct Hok as [Hlen _].
  f_equal. apply add_table_ext. intros i j.
  by apply cluster_table_co_clustered.
Qed.

Lemma co_clustered_relabel (f : nat → nat) perm h i j :
  Inj (=) (=) f → co_clustered perm (f <$> h) i j ↔ co_clustered perm h i j.
Proof.
  intros Hf. rewrite !co_clustered_lookup. split.
  - intros (p & q & c & Hp & Hq & Hcp & Hcq).
    rewrite list_lookup_fmap in Hcp, Hcq.
    destruct (h !! p) as [cp|] eqn:E1; [|done].
    destruct (h !! q) as [cq|] eqn:E2; [|done].
    simpl in *. exists p, q, cp. split_and!; try done.
    rewrite E2. f_equal. apply Hf. congruence.
  - intros (p & q & c & Hp & Hq & Hcp & Hcq). exists p, q, (f c).
    by rewrite !list_lookup_fmap, Hcp, Hcq.
Qed.

(** Cluster ids are names: renaming them one-to-one changes nothing in the
    update of an N×N accumulator by a record that holds no sample twice. *)
Theorem relabelling_invariant N (f : nat → nat) cluster_id sample_perm linkage_matrix :
  Inj (=) (=) f → square N linkage_matrix → NoDup sample_perm →
  update_linkage_matrix (Labels (f <$> cluster_id)) sample_perm linkage_matrix
  = update_linkage_matrix (Labels cluster_id) sample_perm linkage_matrix.
Proof.
  intros Hf Hsq Hnd. rewrite !(update_linkage_matrix_Labels_linked N) by done.
  destruct cluster_id as [|c cluster_id]; [done|].
  rewrite fmap_cons, <- fmap_cons, length_fmap.
  case_bool_decide; [|done]. f_equal. apply add_table_ext. intros i j.
  unfold linked. apply (f_equal (λ b : bool, if b then _ else _)), bool_decide_ext.
  by apply co_clustered_relabel.
Qed.

Lemma relabelling_invariant_witness :
  update_linkage_matrix (Labels (S <$> [1; 0; 1])) [2; 0; 1] (Np.zeros 3 3)
  = update_linkage_matrix (Labels [1; 0; 1]) [2; 0; 1] (Np.zeros 3 3).
Proof.
  apply (relabelling_invariant 3); [apply _ | apply square_zeros |].
  apply NoDup_ListNoDup. repeat constructor; simpl; lia.
Defined.

Lemma co_clustered_pairs (pairs : list (nat * nat)) i j :
  co_clustered pairs.*1 pairs.*2 i j ↔ ∃ c, (i, c) ∈ pairs ∧ (j, c) ∈ pairs.
Proof.
  unfold co_clustered. rewrite zip_fst_snd, Exists_exists. split.
  - intros ([i' c] & Hin & <- & Hj). eauto.
  - intros (c & Hi & Hj). exists (i, c). eauto.
Qed.

(** A record is a set of (sample, cluster) pairs: listing them in another
    order, permutation and assignment vector alike, gives the same update
    of an N×N accumulator, exception included. *)
Theorem record_order_irrelevant N (pairs pairs' : list (nat * nat)) linkage_matrix :
  pairs ≡ₚ pairs' → square N linkage_matrix → NoDup pairs.*1 →
  update_linkage_matrix (Labels pairs.*2) pairs.*1 linkage_matrix
  = update_linkage_matrix (Labels pairs'.*2) pairs'.*1 linkage_matrix.
Proof.
  intros Hperm Hsq Hnd.
  assert (Hnd' : NoDup pairs'.*1) by by rewrite <- Hperm.
  rewrite !(update_linkage_matrix_Labels_linked N) by done.
  destruct pairs as [|pc pairs].
  { apply Permutation_nil_l in Hperm as ->. done. }
  destruct pairs' as [|pc' pairs'].
  { by apply Permutation_nil_r in Hperm. }
  rewrite !fmap_cons, <- !fmap_cons, !length_fmap.
  rewrite (bool_decide_ext _
             (length (pc' :: pairs') = length (pc' :: pairs') ∧
              Forall (λ i, i < N) (pc' :: pairs').*1)).
  2:{ rewrite Hperm. done. }
  case_bool_decide; [|done]. f_equal. apply add_table_ext. intros i j.
  unfold linked. apply (f_equal (λ b : bool, if b then _ else _)), bool_decide_ext.
  rewrite !co_clustered_pairs. by setoid_rewrite Hperm.
Qed.

Lemma record_order_irrelevant_witness :
  update_linkage_matrix (Labels [(2, 1); (0, 0); (1, 1)].*2)
    [(2, 1); (0, 0); (1, 1)].*1 (Np.zeros 3 3)
  = update_linkage_matrix (Labels [(0, 0); (1, 1); (2, 1)].*2)
      [(0, 0); (1, 1); (2, 1)].*1 (Np.zeros 3 3).
Proof.
  apply (record_order_irrelevant 3); [|apply square_zeros|].
  - etrans; [apply Permutation_swap|]. apply perm_skip, Permutation_swap.
  - apply NoDup_ListNoDup. repeat constructor; simpl; lia.
Defined.

(** * A sample the record does not retain *)

Lemma entry_add_table_zero D (a : Np.matrix) i j :
  D i j = 0%Z → Np.entry (add_table D a) i j = Np.entry a i j.
Proof.
  intros HD. rewrite entry_add_table, HD. destruct (Np.entry a i j) as [x|]; [|done].
  simpl. f_equal. lia.
Qed.

Lemma outer_absent (idx : list nat) i j : i ∉ idx ∨ j ∉ idx → outer idx i j = 0%Z.
Proof. intros Hno. unfold outer. rewrite bool_decide_eq_false_2; naive_solver. Qed.

(** Neither update touches row or column [i] of its accumulator when the
    record does not retain sample [i]. *)
Theorem dropped_sample_untouched encode_mat (sample_perm : list nat) (i : nat) a :
  i ∉ sample_perm →
  (∀ a', update_indicator_matrix sample_perm a = Ok a' →
     ∀ j, Np.entry a' i j = Np.entry a i j ∧ Np.entry a' j i = Np.entry a j i) ∧
  (∀ a', update_linkage_matrix encode_mat sample_perm a = Ok a' →
     ∀ j, Np.entry a' i j = Np.entry a i j ∧ Np.entry a' j i = Np.entry a j i).
Proof.
  intros Hi. split.
  - intros a' ->%update_indicator_matrix_record j.
    split; apply entry_add_table_zero; unfold sampled, co_sampled;
      rewrite bool_decide_eq_false_2; naive_solver.
  - unfold update_linkage_matrix.
    intros a' ([n cid] & _ & [-> _]%cluster_loop_Ok)%bind_Ok j.
    split; apply entry_add_table_zero, cluster_table_support, outer_absent; auto.
Qed.

Lemma dropped_sample_untouched_witness :
  (∀ a', update_indicator_matrix [2; 0] [[5; 6; 7]; [8; 9; 10]; [11; 12; 13]]%Z = Ok a' →
     ∀ j, Np.entry a' 1 j = Np.entry [[5; 6; 7]; [8; 9; 10]; [11; 12; 13]]%Z 1 j ∧
          Np.entry a' j 1 = Np.entry [[5; 6; 7]; [8; 9; 10]; [11; 12; 13]]%Z j 1) ∧
  (∀ a', update_linkage_matrix (Labels [0; 0]) [2; 0]
           [[5; 6; 7]; [8; 9; 10]; [11; 12; 13]]%Z = Ok a' →
     ∀ j, Np.entry a' 1 j = Np.entry [[5; 6; 7]; [8; 9; 10]; [11; 12; 13]]%Z 1 j ∧
          Np.entry a' j 1 = Np.entry [[5; 6; 7]; [8; 9; 10]; [11; 12; 13]]%Z j 1).
Proof.
  apply dropped_sample_untouched.
  rewrite !not_elem_of_cons. split_and!; [lia..|apply not_elem_of_nil].
Defined.

(** * The diagonal of the accumulators *)

Lemma linked_diagonal (perm h : list nat) i :
  length h = length perm → linked perm h i i = sampled perm i i.
Proof.
  intros Hlen. unfold linked, sampled.
  apply (f_equal (λ b : bool, if b then _ else _)), bool_decide_ext.
  rewrite co_clustered_lookup. unfold co_sampled. split.
  - intros (p & _ & c & Hp & _). split; by eapply list_elem_of_lookup_2.
  - intros [[p Hp]%list_elem_of_lookup _].
    destruct (lookup_lt_is_Some_2 h p) as [c Hc].
    { rewrite Hlen. by eapply lookup_lt_Some. }
    by exists p, p, c.
Qed.

Lemma linked_le_diagonal (perm h : list nat) i j :
  (linked perm h i j ≤ linked perm h i i)%Z.
Proof.
  unfold linked. case_bool_decide as Hij; case_bool_decide as Hii; try lia.
  destruct Hii. apply co_clustered_lookup in Hij as (p & q & c & Hp & _ & Hc & _).
  apply co_clustered_lookup. by exists p, p, c.
Qed.

Lemma sampled_le_diagonal (perm : list nat) i j :
  (sampled perm i j ≤ sampled perm i i)%Z.
Proof.
  unfold sampled, co_sampled. repeat case_bool_decide; try lia. naive_solver.
Qed.

Lemma linkage_count_diagonal (records : list record) i :
  Forall (λ r : record, length r.2 = length r.1) records →
  linkage_count records i i = indicator_count records i i.
Proof.
  induction 1 as [|r records Hr _ IH]; [done|]. simpl.
  by rewrite IH, linked_diagonal.
Qed.

Lemma counts_le_diagonal (records : list record) i j :
  (linkage_count records i j ≤ linkage_count records i i)%Z ∧
  (indicator_count records i j ≤ indicator_count records i i)%Z.
Proof.
  induction records as [|r records [IHl IHi]]; [done|]. simpl.
  pose proof (linked_le_diagonal r.1 r.2 i j).
  pose proof (sampled_le_diagonal r.1 i j). lia.
Qed.

Lemma linkage_scan_lengths tree tmp_dir dir_list L0 L :
  linkage_scan tree tmp_dir dir_list L0 = Ok L →
  Forall (λ r : record, length r.2 = length r.1)
         (persisted_records tree tmp_dir dir_list).
Proof.
  revert L0. induction dir_list as [|tmp_f dir_list IH]; intros L0.
  - intros _. constructor.
  - rewrite linkage_scan_cons. intros (L1 & HL1 & HL)%bind_Ok.
    rewrite persisted_records_cons. apply IH in HL.
    destruct (record_of tree tmp_dir tmp_f) as [[perm h]|] eqn:Hrec; [|done].
    constructor; [|done]. apply record_of_Some in Hrec as (Htemp & Hperm & Hh).
    rewrite linkage_step_temp_p, Hperm, result_bind_Ok, Hh, result_bind_Ok in HL1
      by done.
    by apply update_linkage_matrix_Labels_Ok in HL1 as (m & _ & Hlen & _).
Qed.

Lemma get_linkage_matrix_lengths order tree run_parameters L0 L :
  get_linkage_matrix order tree run_parameters L0 = Ok L →
  Forall (λ r : record, length r.2 = length r.1)
         (scanned_records order tree run_parameters).
Proof.
  intros (d & files & Hd & Hfiles & HL)%get_linkage_matrix_Ok.
  unfold scanned_records. rewrite Hd, Hfiles. by eapply linkage_scan_lengths.
Qed.

Lemma divide_square N (L I : Np.matrix) :
  square N L → square N I → is_Ok (Np.divide L (Np.maximum I 1)).
Proof.
  intros HL HI. unfold Np.divide. fold (row_lengths L).
  fold (row_lengths (Np.maximum I 1)).
  rewrite row_lengths_maximum, HL, HI, bool_decide_eq_true_2 by done. by eexists.
Qed.

Lemma Qdiv_self (k : Z) :
  (0 ≤ k)%Z →
  (inject_Z k / inject_Z (Z.max k 1) == if bool_decide (k = 0%Z) then 0 else 1)%Q.
Proof.
  intros Hk. case_bool_decide as Hz.
  - subst k. reflexivity.
  - rewrite Z.max_l by lia. apply Qmult_inv_r. intros Heq.
    apply Hz. by apply inject_Z_injective.
Qed.

(** From zero-initialised N×N accumulators, for records that hold no sample
    twice: entry [i], [i] of the linkage matrix and of the indicator matrix
    are both the number of records that retain sample [i], and the consensus
    matrix has 1 there when some record retains the sample and 0 when none
    does. *)
Theorem diagonal_counts_retention order tree run_parameters N L I :
  Forall (λ r : record, NoDup r.1) (scanned_records order tree run_parameters) →
  get_linkage_matrix order tree run_parameters (Np.zeros N N) = Ok L →
  get_indicator_matrix order tree run_parameters (Np.zeros N N) = Ok I →
  ∃ C, form_consensus_matrix order tree run_parameters (Np.zeros N N) (Np.zeros N N)
       = Ok C ∧
    ∀ i, i < N →
      let k := Z.of_nat (length (filter (λ r : record, i ∈ r.1)
                                   (scanned_records order tree run_parameters))) in
      Np.entry L i i = Some k ∧ Np.entry I i i = Some k ∧
      ∃ c, Np.entry C i i = Some c ∧ (c == if bool_decide (k = 0%Z) then 0 else 1)%Q.
Proof.
  intros Hnd HL HI.
  pose proof (get_linkage_matrix_lengths _ _ _ _ _ HL) as Hlen.
  destruct (get_matrices_records _ _ _ _ _ _ _ Hnd HI HL) as [HIeq HLeq].
  destruct (divide_square N L I) as [C HC].
  { rewrite HLeq. apply square_add_table, square_zeros. }
  { rewrite HIeq. apply square_add_table, square_zeros. }
  exists C. split; [apply form_consensus_matrix_Ok; eauto|].
  intros i Hi k.
  assert (HkI : indicator_count (scanned_records order tree run_parameters) i i = k).
  { rewrite indicator_count_length. unfold k. do 2 f_equal.
    apply list_filter_iff. intros r. unfold co_sampled. naive_solver. }
  assert (HLi : Np.entry L i i = Some k).
  { rewrite HLeq, entry_add_table, entry_zeros by done. simpl.
    by rewrite linkage_count_diagonal, HkI. }
  assert (HIi : Np.entry I i i = Some k).
  { rewrite HIeq, entry_add_table, entry_zeros by done. simpl. by rewrite HkI. }
  split_and!; [done..|]. eexists. split.
  - rewrite (entry_consensus _ _ _ _ _ HC), HLi, HIi. done.
  - apply Qdiv_self. unfold k. lia.
Qed.

Lemma diagonal_counts_retention_witness :
  ∃ C, form_consensus_matrix id Ex.tree1 Ex.params1 (Np.zeros 3 3) (Np.zeros 3 3)
       = Ok C ∧
    ∀ i, i < 3 →
      let k := Z.of_nat (length (filter (λ r : record, i ∈ r.1)
                                   (scanned_records id Ex.tree1 Ex.params1))) in
      Np.entry [[1; 1; 0]; [1; 1; 0]; [0; 0; 0]]%Z i i = Some k ∧
      Np.entry [[1; 1; 0]; [1; 1; 0]; [0; 0; 0]]%Z i i = Some k ∧
      ∃ c, Np.entry C i i = Some c ∧ (c == if bool_decide (k = 0%Z) then 0 else 1)%Q.
Proof.
  apply (diagonal_counts_retention id Ex.tree1 Ex.params1 3).
  - vm_compute. repeat constructor; set_solver.
  - vm_compute. reflexivity.
  - vm_compute. reflexivity.
Defined.

(** Under the same conditions no pair of samples is counted more often than
    either of its members: each entry of the linkage and of the indicator
    matrix is at most the diagonal entry of its row. *)
Theorem off_diagonal_at_most_diagonal order tree run_parameters N L I :
  Forall (λ r : record, NoDup r.1) (scanned_records order tree run_parameters) →
  get_linkage_matrix order tree run_parameters (Np.zeros N N) = Ok L →
  get_indicator_matrix order tree run_parameters (Np.zeros N N) = Ok I →
  ∀ i j, i < N → j < N →
    ∃ lij lii kij kii,
      Np.entry L i j = Some lij ∧ Np.entry L i i = Some lii ∧
      Np.entry I i j = Some kij ∧ Np.entry I i i = Some kii ∧
      (lij ≤ lii)%Z ∧ (kij ≤ kii)%Z.
Proof.
  intros Hnd HL HI i j Hi Hj.
  destruct (get_matrices_records _ _ _ _ _ _ _ Hnd HI HL) as [-> ->].
  rewrite !entry_add_table, !entry_zeros by done. simpl.
  destruct (counts_le_diagonal (scanned_records order tree run_parameters) i j).
  eexists _, _, _, _. split_and!; try done; lia.
Qed.

Lemma off_diagonal_at_most_diagonal_witness :
  ∃ lij lii kij kii,
    Np.entry [[1; 1; 0]; [1; 1; 0]; [0; 0; 0]]%Z 0 1 = Some lij ∧
    Np.entry [[1; 1; 0]; [1; 1; 0]; [0; 0; 0]]%Z 0 0 = Some lii ∧
    Np.entry [[1; 1; 0]; [1; 1; 0]; [0; 0; 0]]%Z 0 1 = Some kij ∧
    Np.entry [[1; 1; 0]; [1; 1; 0]; [0; 0; 0]]%Z 0 0 = Some kii ∧
    (lij ≤ lii)%Z ∧ (kij ≤ kii)%Z.
Proof.
  apply (off_diagonal_at_most_diagonal id Ex.tree1 Ex.params1 3).
  - vm_compute. repeat constructor; set_solver.
  - vm_compute. reflexivity.
  - vm_compute. reflexivity.
  - lia.
  - lia.
Defined.

(** * Symmetry of the consensus matrix *)

Lemma get_matrices_symmetric order tree run_parameters :
  (∀ I0 I, symmetric I0 →
     get_indicator_matrix order tree run_parameters I0 = Ok I → symmetric I) ∧
  (∀ L0 L, symmetric L0 →
     get_linkage_matrix order tree run_parameters L0 = Ok L → symmetric L).
Proof.
  split.
  - intros I0 I Hsym (d & files & _ & _ & HI)%get_indicator_matrix_Ok.
    apply indicator_scan_symmetric_table in HI as (D & -> & HD).
    by apply symmetric_add_table.
  - intros L0 L Hsym (d & files & _ & _ & HL)%get_linkage_matrix_Ok.
    apply linkage_scan_symmetric_table in HL as (D & -> & HD).
    by apply symmetric_add_table.
Qed.

(** The consensus matrix formed from symmetric accumulators reads the same
    across its diagonal. *)
Theorem consensus_symmetric order tree run_parameters L0 I0 C :
  symmetric L0 → symmetric I0 →
  form_consensus_matrix order tree run_parameters L0 I0 = Ok C →
  ∀ i j, Np.entry C i j = Np.entry C j i.
Proof.
  intros HL0 HI0 (L & I & HI & HL & HC)%form_consensus_matrix_Ok i j.
  apply (proj1 (get_matrices_symmetric _ _ _)) in HI; [|done].
  apply (proj2 (get_matrices_symmetric _ _ _)) in HL; [|done].
  by rewrite !(entry_consensus _ _ _ _ _ HC), (HL i j), (HI i j).
Qed.

Lemma consensus_symmetric_witness :
  Np.entry [[1; 1; 0]; [1; 1; 0]; [0; 0; 0]]%Q 0 2
  = Np.entry [[1; 1; 0]; [1; 1; 0]; [0; 0; 0]]%Q 2 0.
Proof.
  apply (consensus_symmetric id Ex.tree1 Ex.params1 (Np.zeros 3 3) (Np.zeros 3 3));
    [apply symmetric_zeros..|]. vm_compute. reflexivity.
Defined.

(** * The pairing of permutation and assignment files *)

Lemma is_temp_p_inv tmp_f : is_temp_p tmp_f = true → ∃ sfx, tmp_f = "temp_p" +:+ sfx.
Proof.
  unfold is_temp_p. intros Hp%bool_decide_eq_true.
  do 6 (destruct tmp_f as [|? tmp_f]; [done|]). simpl in Hp.
  exists tmp_f. destruct tmp_f; by simplify_eq/=.
Qed.

Lemma is_temp_p_h_name tmp_f : is_temp_p tmp_f = true → is_temp_p (h_name tmp_f) = false.
Proof.
  intros [sfx ->]%is_temp_p_inv. rewrite h_name_suffix.
  unfold is_temp_p. apply bool_decide_eq_false_2. simpl. by destruct sfx.
Qed.

Lemma h_name_inj tmp_f tmp_g :
  is_temp_p tmp_f = true → is_temp_p tmp_g = true →
  h_name tmp_f = h_name tmp_g → tmp_f = tmp_g.
Proof.
  intros [sfx ->]%is_temp_p_inv [sfx' ->]%is_temp_p_inv.
  rewrite !h_name_suffix. intros Heq. f_equal. by simplify_eq/=.
Qed.

(** The scans pair files one to one: the assignment file of a permutation
    file is never itself taken for a permutation file, and two different
    permutation files never share an assignment file. *)
Theorem pairing_one_to_one tmp_f tmp_g :
  is_temp_p tmp_f = true → is_temp_p tmp_g = true →
  is_temp_p (h_name tmp_f) = false ∧
  h_name tmp_f ≠ tmp_g ∧
  (h_name tmp_f = h_name tmp_g → tmp_f = tmp_g).
Proof.
  intros Hf Hg. split_and!.
  - by apply is_temp_p_h_name.
  - intros Heq. apply is_temp_p_h_name in Hf. congruence.
  - by apply h_name_inj.
Qed.

Lemma pairing_one_to_one_witness :
  is_temp_p (h_name "temp_p_N3_15") = false ∧
  h_name "temp_p_N3_15" ≠ "temp_p_N4_15" ∧
  (h_name "temp_p_N3_15" = h_name "temp_p_N4_15" → "temp_p_N3_15" = "temp_p_N4_15").
Proof. apply pairing_one_to_one; vm_compute; reflexivity. Defined.

(** * A permutation file without its assignment file *)

Lemma linkage_scan_paired tree tmp_dir dir_list L0 L :
  linkage_scan tree tmp_dir dir_list L0 = Ok L → paired tree tmp_dir dir_list.
Proof.
  revert L0. induction dir_list as [|tmp_f dir_list IH]; intros L0.
  - intros _ f Hf. by apply elem_of_nil in Hf.
  - rewrite linkage_scan_cons. intros (L1 & HL1 & HL)%bind_Ok.
    intros f [->|Hf]%elem_of_cons Htemp; [|by eapply IH].
    apply Is_true_true in Htemp.
    rewrite linkage_step_temp_p in HL1 by done.
    apply bind_Ok in HL1 as (perm & Hperm & (h & Hh & _)%bind_Ok).
    exists (perm, h). by apply record_of_Some.
Qed.

(** A permutation file whose assignment file is missing makes the linkage
    scan, and with it the forming of the consensus matrix, raise, whatever
    the order of enumeration. *)
Theorem unpaired_permutation_file_breaks_linkage order tree run_parameters
    tmp_dir files tmp_f :
  enumeration order →
  scan_directory run_parameters = Ok tmp_dir → tree !! tmp_dir = Some files →
  is_temp_p tmp_f = true → is_Some (files !! tmp_f) → files !! h_name tmp_f = None →
  (∀ L0, ¬ is_Ok (get_linkage_matrix order tree run_parameters L0)) ∧
  (∀ L0 I0, ¬ is_Ok (form_consensus_matrix order tree run_parameters L0 I0)).
Proof.
  intros Horder Hd Hfiles Htemp Hf Hh.
  assert (Hno : ∀ L0, ¬ is_Ok (get_linkage_matrix order tree run_parameters L0)).
  { intros L0 [L (d & files' & Hd' & Hfiles' & HL)%get_linkage_matrix_Ok].
    assert (d = tmp_dir) as -> by congruence.
    assert (files' = files) as -> by congruence.
    apply linkage_scan_paired in HL.
    destruct (HL tmp_f) as [[perm h] Hrec].
    - rewrite (Horder _). by apply elem_of_elements, elem_of_dom.
    - by apply Is_true_true.
    - apply record_of_Some in Hrec as (_ & _ & Hload).
      apply np_load_Ok in Hload. rewrite Hfiles in Hload. simpl in Hload.
      congruence. }
  split; [done|].
  intros L0 I0 [C (L & I & _ & HL & _)%form_consensus_matrix_Ok].
  apply (Hno L0). by exists L.
Qed.

Lemma unpaired_permutation_file_breaks_linkage_witness :
  (∀ L0, ¬ is_Ok (get_linkage_matrix id {[ "tmp" := {[ "temp_p_N0_1" := [0; 1] ]} ]}
                    Ex.params1 L0)) ∧
  (∀ L0 I0, ¬ is_Ok (form_consensus_matrix id
                       {[ "tmp" := {[ "temp_p_N0_1" := [0; 1] ]} ]} Ex.params1 L0 I0)).
Proof.
  apply (unpaired_permutation_file_breaks_linkage id _ Ex.params1 "tmp"
           {[ "temp_p_N0_1" := [0; 1] ]} "temp_p_N0_1").
  - apply enumeration_id.
  - vm_compute. reflexivity.
  - vm_compute. reflexivity.
  - vm_compute. reflexivity.
  - vm_compute. by eexists.
  - vm_compute. reflexivity.
Defined.

(** * A record that has just been saved *)

Lemma indicator_scan_app tree d l1 l2 a :
  indicator_scan tree d (l1 ++ l2) a
  = indicator_scan tree d l1 a ≫= indicator_scan tree d l2.
Proof.
  revert a. induction l1 as [|f l1 IH]; intros a; [done|].
  rewrite <- app_comm_cons, !indicator_scan_cons.
  destruct (indicator_step tree d f a); [|done]. rewrite !result_bind_Ok. apply IH.
Qed.

Lemma linkage_scan_app tree d l1 l2 a :
  linkage_scan tree d (l1 ++ l2) a
  = linkage_scan tree d l1 a ≫= linkage_scan tree d l2.
Proof.
  revert a. induction l1 as [|f l1 IH]; intros a; [done|].
  rewrite <- app_comm_cons, !linkage_scan_cons.
  destruct (linkage_step tree d f a); [|done]. rewrite !result_bind_Ok. apply IH.
Qed.

Lemma get_indicator_matrix_scan order tree run_parameters d files I0 :
  scan_directory run_parameters = Ok d → tree !! d = Some files →
  get_indicator_matrix order tree run_parameters I0
  = indicator_scan tree d (order (elements (dom files))) I0.
Proof.
  intros Hd Hfiles. unfold get_indicator_matrix, os_listdir.
  by rewrite Hd, result_bind_Ok, Hfiles, result_bind_Ok.
Qed.

Lemma get_linkage_matrix_scan order tree run_parameters d files L0 :
  scan_directory run_parameters = Ok d → tree !! d = Some files →
  get_linkage_matrix order tree run_parameters L0
  = linkage_scan tree d (order (elements (dom files))) L0.
Proof.
  intros Hd Hfiles. unfold get_linkage_matrix, os_listdir.
  by rewrite Hd, result_bind_Ok, Hfiles, result_bind_Ok.
Qed.

Lemma temp_h_not_temp_p sfx : is_temp_p ("temp_h" +:+ sfx) = false.
Proof. rewrite <- h_name_suffix. apply is_temp_p_h_name, is_temp_p_name. Qed.

Lemma fresh_record_steps (tree tree' : gmap string (gmap string (list nat)))
    d files sfx perm cid tmp_f a :
  tree !! d = Some files →
  tree' !! d = Some (<["temp_p" +:+ sfx := perm]> (<["temp_h" +:+ sfx := cid]> files)) →
  tmp_f ≠ "temp_p" +:+ sfx →
  indicator_step tree' d tmp_f a = indicator_step tree d tmp_f a ∧
  linkage_step tree' d tmp_f a = linkage_step tree d tmp_f a.
Proof.
  intros Ht Ht' Hne. destruct (is_temp_p tmp_f) eqn:Htemp.
  - rewrite !indicator_step_temp_p, !linkage_step_temp_p by done.
    rewrite !(np_load_files _ _ _ _ Ht), !(np_load_files _ _ _ _ Ht').
    assert (tmp_f ≠ "temp_h" +:+ sfx).
    { intros ->. by rewrite temp_h_not_temp_p in Htemp. }
    assert (h_name tmp_f ≠ "temp_p" +:+ sfx).
    { intros Heq. pose proof (is_temp_p_h_name _ Htemp) as Hh.
      by rewrite Heq, is_temp_p_name in Hh. }
    assert (h_name tmp_f ≠ "temp_h" +:+ sfx).
    { rewrite <- h_name_suffix. intros Heq%h_name_inj; [done..|apply is_temp_p_name]. }
    by rewrite !lookup_insert_ne by done.
  - by rewrite !indicator_step_other, !linkage_step_other by done.
Qed.

Lemma fresh_record_scans (tree tree' : gmap string (gmap string (list nat)))
    d files sfx perm cid dir_list a :
  tree !! d = Some files →
  tree' !! d = Some (<["temp_p" +:+ sfx := perm]> (<["temp_h" +:+ sfx := cid]> files)) →
  "temp_p" +:+ sfx ∉ dir_list →
  indicator_scan tree' d dir_list a = indicator_scan tree d dir_list a ∧
  linkage_scan tree' d dir_list a = linkage_scan tree d dir_list a.
Proof.
  intros Ht Ht'. revert a. induction dir_list as [|f dir_list IH]; intros a Hno; [done|].
  apply not_elem_of_cons in Hno as [Hne Hno].
  rewrite !indicator_scan_cons, !linkage_scan_cons.
  destruct (fresh_record_steps tree tree' d files sfx perm cid f a) as [-> ->];
    [done..|].
  split.
  - destruct (indicator_step tree d f a); [|done]. rewrite !result_bind_Ok.
    by apply IH.
  - destruct (linkage_step tree d f a); [|done]. rewrite !result_bind_Ok.
    by apply IH.
Qed.

Lemma fresh_record_bystander (files : gmap string (list nat)) sfx cid :
  files !! ("temp_p" +:+ sfx) = None →
  same_records files (<["temp_h" +:+ sfx := cid]> files).
Proof.
  intros Hfresh. apply same_records_bystander; [apply temp_h_not_temp_p|].
  intros tmp_f Htemp%Is_true_true [arr Harr]. rewrite <- h_name_suffix.
  intros Heq%h_name_inj; [|done|apply is_temp_p_name]. congruence.
Qed.

Lemma fresh_record_listing order order' (files : gmap string (list nat)) sfx perm cid :
  enumeration order → enumeration order' →
  files !! ("temp_p" +:+ sfx) = None →
  filter (λ tmp_f, is_temp_p tmp_f)
    (order' (elements (dom (<["temp_p" +:+ sfx := perm]>
                              (<["temp_h" +:+ sfx := cid]> files)))))
  ≡ₚ filter (λ tmp_f, is_temp_p tmp_f) (order (elements (dom files)))
     ++ ["temp_p" +:+ sfx].
Proof.
  intros Horder Horder' Hfresh.
  rewrite (Horder' _), dom_insert_L, elements_union_singleton.
  2:{ rewrite elem_of_dom, lookup_insert_ne by apply temp_names_differ.
      rewrite Hfresh. by intros []. }
  rewrite filter_cons_True by (apply Is_true_true, is_temp_p_name).
  rewrite <- Permutation_cons_append. apply perm_skip.
  symmetry. apply (same_records_listing order id); [done|apply enumeration_id|].
  by apply fresh_record_bystander.
Qed.

Lemma fresh_record_get order run_parameters
    (tree tree' : gmap string (gmap string (list nat))) d files sfx perm cid :
  enumeration order → scan_directory run_parameters = Ok d →
  tree !! d = Some files →
  tree' !! d = Some (<["temp_p" +:+ sfx := perm]> (<["temp_h" +:+ sfx := cid]> files)) →
  files !! ("temp_p" +:+ sfx) = None →
  (∀ I0 I, get_indicator_matrix order tree' run_parameters I0 = Ok I ↔
     ∃ I1, get_indicator_matrix order tree run_parameters I0 = Ok I1 ∧
           update_indicator_matrix perm I1 = Ok I) ∧
  (∀ L0 L, get_linkage_matrix order tree' run_parameters L0 = Ok L ↔
     ∃ L1, get_linkage_matrix order tree run_parameters L0 = Ok L1 ∧
           update_linkage_matrix (Labels cid) perm L1 = Ok L).
Proof.
  intros Horder Hd Ht Ht' Hfresh.
  pose proof (fresh_record_listing order order files sfx perm cid Horder Horder Hfresh)
    as Hlist.
  assert (Hno : "temp_p" +:+ sfx
                ∉ filter (λ tmp_f, is_temp_p tmp_f) (order (elements (dom files)))).
  { rewrite list_elem_of_filter, (Horder _), elem_of_elements, elem_of_dom, Hfresh.
    by intros [_ []]. }
  pose proof (λ a, fresh_record_scans tree tree' d files sfx perm cid _ a Ht Ht' Hno)
    as Hsc.
  split.
  - intros I0 I.
    rewrite (get_indicator_matrix_scan _ _ _ _ _ _ Hd Ht'),
            (get_indicator_matrix_scan _ _ _ _ _ _ Hd Ht).
    rewrite (indicator_scan_filter tree), (indicator_scan_filter tree').
    assert (Hlast : ∀ I1, indicator_scan tree' d ["temp_p" +:+ sfx] I1
                         = update_indicator_matrix perm I1).
    { intros I1. rewrite indicator_scan_cons, indicator_step_temp_p
        by apply is_temp_p_name.
      rewrite (np_load_files _ _ _ _ Ht'), lookup_insert_eq, result_bind_Ok.
      by destruct (update_indicator_matrix perm I1). }
    split.
    + intros Hscan. eapply indicator_scan_Permutation in Hscan; [|exact Hlist].
      rewrite indicator_scan_app, (proj1 (Hsc _)) in Hscan.
      apply bind_Ok in Hscan as (I1 & HI1 & Hlast'). rewrite Hlast in Hlast'. eauto.
    + intros (I1 & HI1 & Hup).
      eapply indicator_scan_Permutation; [symmetry; exact Hlist|].
      by rewrite indicator_scan_app, (proj1 (Hsc _)), HI1, result_bind_Ok, Hlast.
  - intros L0 L.
    rewrite (get_linkage_matrix_scan _ _ _ _ _ _ Hd Ht'),
            (get_linkage_matrix_scan _ _ _ _ _ _ Hd Ht).
    rewrite (linkage_scan_filter tree), (linkage_scan_filter tree').
    assert (Hlast : ∀ L1, linkage_scan tree' d ["temp_p" +:+ sfx] L1
                         = update_linkage_matrix (Labels cid) perm L1).
    { intros L1. rewrite linkage_scan_cons, linkage_step_temp_p
        by apply is_temp_p_name.
      rewrite h_name_suffix, !(np_load_files _ _ _ _ Ht'), lookup_insert_eq,
        result_bind_Ok.
      rewrite lookup_insert_ne, lookup_insert_eq, result_bind_Ok
        by (intros Heq; by apply (temp_names_differ sfx)).
      by destruct (update_linkage_matrix (Labels cid) perm L1). }
    split.
    + intros Hscan. eapply linkage_scan_Permutation in Hscan; [|exact Hlist].
      rewrite linkage_scan_app, (proj2 (Hsc _)) in Hscan.
      apply bind_Ok in Hscan as (L1 & HL1 & Hlast'). rewrite Hlast in Hlast'. eauto.
    + intros (L1 & HL1 & Hup).
      eapply linkage_scan_Permutation; [symmetry; exact Hlist|].
      by rewrite linkage_scan_app, (proj2 (Hsc _)), HL1, result_bind_Ok, Hlast.
Qed.

Section Aggregating.
Context `{Collaborators}.

(** Saving a record under a name not yet in the directory and aggregating
    afterwards is aggregating first and then applying the updates of that
    one record: the indicator update with the saved permutation, the
    linkage update with the saved assignment vector. *)
Theorem saved_record_is_aggregated order h_matrix perm run_parameters sequence_number
    w tmp_dir time_stamp w1 files cluster_id :
  enumeration order →
  getitem run_parameters "tmp_directory" ≫= as_path = Ok tmp_dir →
  scan_directory run_parameters = Ok tmp_dir →
  kn_create_timestamped_filename ("_N" +:+ pretty sequence_number) None
    (1000000000000 # 1) w = (Ok time_stamp, w1) →
  fs w1 !! tmp_dir = Some files → files !! ("temp_p" +:+ time_stamp) = None →
  Np.argmax0 h_matrix = Ok cluster_id →
  ∃ w',
    save_a_clustering_to_tmp h_matrix perm run_parameters sequence_number w
    = (Ok (), w') ∧
    (∀ I0 I, get_indicator_matrix order (fs w') run_parameters I0 = Ok I ↔
       ∃ I1, get_indicator_matrix order (fs w1) run_parameters I0 = Ok I1 ∧
             update_indicator_matrix perm I1 = Ok I) ∧
    (∀ L0 L, get_linkage_matrix order (fs w') run_parameters L0 = Ok L ↔
       ∃ L1, get_linkage_matrix order (fs w1) run_parameters L0 = Ok L1 ∧
             update_linkage_matrix (Labels cluster_id) perm L1 = Ok L).
Proof.
  intros Horder Hdir Hscan Hstamp Hfiles Hfresh Hmax.
  eexists. split; [by eapply save_a_clustering_to_tmp_run|].
  unfold files_of. rewrite Hfiles. simpl.
  eapply fresh_record_get; try done. by rewrite lookup_insert_eq.
Qed.

End Aggregating.

Lemma saved_record_is_aggregated_witness :
  ∃ w',
    @save_a_clustering_to_tmp Ex.stub Ex.h3 [2; 0; 1] Ex.params1 4 Ex.world_tmp
    = (Ok (), w') ∧
    (∀ I0 I, get_indicator_matrix id (fs w') Ex.params1 I0 = Ok I ↔
       ∃ I1, get_indicator_matrix id (fs Ex.world_tmp) Ex.params1 I0 = Ok I1 ∧
             update_indicator_matrix [2; 0; 1] I1 = Ok I) ∧
    (∀ L0 L, get_linkage_matrix id (fs w') Ex.params1 L0 = Ok L ↔
       ∃ L1, get_linkage_matrix id (fs Ex.world_tmp) Ex.params1 L0 = Ok L1 ∧
             update_linkage_matrix (Labels [0; 1; 0]) [2; 0; 1] L1 = Ok L).
Proof.
  apply (@saved_record_is_aggregated Ex.stub id Ex.h3 [2; 0; 1] Ex.params1 4
           Ex.world_tmp "tmp" "_N4_15000000000000" Ex.world_tmp ∅ [0; 1; 0]).
  - apply enumeration_id.
  - vm_compute. reflexivity.
  - vm_compute. reflexivity.
  - vm_compute. reflexivity.
  - vm_compute. reflexivity.
  - vm_compute. reflexivity.
  - vm_compute. reflexivity.
Defined.

(** * A record half written *)




(** * Paths of temporary directories *)

Lemma string_app_assoc (a b c : string) : (a +:+ b) +:+ c = a +:+ b +:+ c.
Proof.
  induction a as [|x a IH]; [done|].
  change (String x ((a +:+ b) +:+ c) = String x (a +:+ b +:+ c)). by rewrite IH.
Qed.

Lemma string_app_nil_r (a : string) : a +:+ "" = a.
Proof.
  induction a as [|x a IH]; [done|].
  change (String x (a +:+ "") = String x a). by rewrite IH.
Qed.

Lemma occurs_app c (a b : string) : occurs c (a +:+ b) = occurs c a || occurs c b.
Proof.
  induction a as [|x a IH]; [done|].
  change (occurs c (String x a +:+ b)) with (Ascii.eqb x c || occurs c (a +:+ b)).
  rewrite IH. simpl. by rewrite orb_assoc.
Qed.

Lemma split_sep_free cur s :
  occurs "/" s = false → OsPath.split_sep cur s = [cur +:+ s].
Proof.
  revert cur. induction s as [|c s IH]; intros cur; simpl.
  - intros _. by rewrite string_app_nil_r.
  - intros [Hc Hs]%orb_false_elim. rewrite Hc, IH by done.
    by rewrite string_app_assoc.
Qed.

Lemma split_sep_app cur (a b : string) :
  OsPath.split_sep cur (a +:+ "/" +:+ b)
  = OsPath.split_sep cur a ++ OsPath.split_sep "" b.
Proof.
  revert cur. induction a as [|c a IH]; intros cur; simpl; [done|].
  destruct (Ascii.eqb c "/"); simpl; by rewrite IH.
Qed.

Lemma basename_app (a b : string) :
  occurs "/" b = false → OsPath.basename (a +:+ "/" +:+ b) = b.
Proof.
  intros Hb. unfold OsPath.basename.
  by rewrite split_sep_app, (split_sep_free "" b), last_last.
Qed.

Lemma basename_free (b : string) : occurs "/" b = false → OsPath.basename b = b.
Proof. intros Hb. unfold OsPath.basename. by rewrite split_sep_free. Qed.

Lemma endswith_sep_inv (v : string) :
  OsPath.endswith_sep v = true → ∃ v0, v = v0 +:+ "/".
Proof.
  unfold OsPath.endswith_sep. intros Hv%bool_decide_eq_true.
  induction v as [|c v IH]; [done|].
  destruct v as [|c' v].
  - simpl in Hv. exists "". by simplify_eq.
  - destruct IH as [v0 Hv0].
    + simpl in Hv |- *. by rewrite Nat.sub_0_r in *.
    + exists (String c v0). by rewrite Hv0.
Qed.

Lemma join_sep_snoc (comps : list string) (name : string) :
  comps ≠ [] →
  OsPath.join_sep (comps ++ [name]) = OsPath.join_sep comps +:+ "/" +:+ name.
Proof.
  induction comps as [|c comps IH]; [done|]. intros _.
  destruct comps as [|c' comps]; [done|].
  change (OsPath.join_sep ((c :: c' :: comps) ++ [name]))
    with (c +:+ "/" +:+ OsPath.join_sep ((c' :: comps) ++ [name])).
  rewrite IH by done.
  change (OsPath.join_sep (c :: c' :: comps))
    with (c +:+ "/" +:+ OsPath.join_sep (c' :: comps)).
  by rewrite !string_app_assoc.
Qed.

Lemma repeat_sep_S n : OsPath.repeat_sep (S n) = OsPath.repeat_sep n +:+ "/".
Proof.
  induction n as [|n IH]; [done|].
  change (OsPath.repeat_sep (S (S n))) with ("/" +:+ OsPath.repeat_sep (S n)).
  rewrite IH at 1.
  change (OsPath.repeat_sep (S n)) with ("/" +:+ OsPath.repeat_sep n).
  by rewrite string_app_assoc.
Qed.

(** A path that ends in the component [name]. *)
Lemma split_sep_join cur (v name : string) :
  name ≠ "" → occurs "/" name = false →
  ∃ pre, OsPath.split_sep cur (OsPath.join v name) = pre ++ [name]
         ∨ (v = "" ∧ OsPath.split_sep cur (OsPath.join v name) = [cur +:+ name]).
Proof.
  intros Hne Hfree. unfold OsPath.join.
  assert (String.prefix "/" name = false) as ->.
  { destruct name as [|c name]; [done|]. simpl in Hfree.
    apply orb_false_elim in Hfree as [Hc _].
    change (String.prefix "/" (String c name))
      with (if ascii_dec "/" c then String.prefix "" name else false).
    destruct (ascii_dec "/" c) as [<-|]; [by vm_compute in Hc|done]. }
  case_bool_decide as Hv; simpl.
  - subst v. exists []. right. split; [done|]. by apply split_sep_free.
  - destruct (OsPath.endswith_sep v) eqn:Hend.
    + apply endswith_sep_inv in Hend as [v0 ->]. rewrite string_app_assoc.
      rewrite split_sep_app, (split_sep_free "" name) by done. eauto.
    + rewrite split_sep_app, (split_sep_free "" name) by done. eauto.
Qed.

Lemma norm_step_keep slashes new_comps (name : string) :
  name ≠ "" → name ≠ "." → name ≠ ".." →
  OsPath.norm_step slashes new_comps name = name :: new_comps.
Proof.
  intros Hne Hdot Hdots. unfold OsPath.norm_step.
  rewrite bool_decide_eq_false_2 by naive_solver.
  by rewrite bool_decide_eq_true_2 by (by left).
Qed.

Lemma app_sep_nonempty (a b : string) : a +:+ "/" +:+ b ≠ "".
Proof. by destruct a. Qed.

Lemma basename_normpath_join (v name : string) :
  name ≠ "" → name ≠ "." → name ≠ ".." → occurs "/" name = false →
  OsPath.basename (OsPath.normpath (OsPath.join v name)) = name.
Proof.
  intros Hne Hdot Hdots Hfree. unfold OsPath.normpath.
  destruct (split_sep_join "" v name) as [pre Hsplit]; [done..|].
  assert (Hp : OsPath.join v name ≠ "").
  { intros Heq. rewrite Heq in Hsplit. simpl in Hsplit.
    destruct Hsplit as [Hs|[_ Hs]].
    - destruct pre as [|? [|? ?]]; simplify_eq/=.
    - simplify_eq/=. }
  rewrite bool_decide_eq_false_2 by done.
  set (sl := OsPath.initial_slashes _).
  assert (∃ X, foldl (OsPath.norm_step sl) [] (OsPath.split_sep "" (OsPath.join v name))
               = name :: X) as [X ->].
  { destruct Hsplit as [->|[_ ->]].
    - rewrite foldl_app. simpl. eexists. by apply norm_step_keep.
    - simpl. eexists. by apply norm_step_keep. }
  simpl rev. destruct (rev X) as [|y Y] eqn:HY.
  - simpl. destruct sl as [|n].
    + simpl. rewrite bool_decide_eq_false_2 by done. by apply basename_free.
    + rewrite repeat_sep_S, string_app_assoc.
      rewrite bool_decide_eq_false_2 by apply app_sep_nonempty.
      by apply basename_app.
  - rewrite join_sep_snoc by done. rewrite <- string_app_assoc.
    rewrite bool_decide_eq_false_2 by apply app_sep_nonempty.
    by apply basename_app.
Qed.

(** ** Time stamps are digits *)

Lemma pretty_N_char_digit (d : N) : occurs (pretty_N_char d) "0123456789" = true.
Proof. unfold pretty_N_char. by repeat case_match. Qed.

Lemma occurs_eqb c c' s : occurs c s = false → occurs c' s = true → Ascii.eqb c' c = false.
Proof. intros Hc Hc'. destruct (Ascii.eqb_spec c' c) as [->|]; [congruence|done]. Qed.

Lemma occurs_pretty_N_go c (x : N) s :
  occurs c "0123456789" = false → occurs c (pretty_N_go x s) = occurs c s.
Proof.
  intros Hc. revert s. induction (N.lt_wf_0 x) as [x _ IH]. intros s.
  destruct (decide (0 < x)%N) as [Hx|Hx].
  - rewrite pretty_N_go_step by done. rewrite IH by (apply N.div_lt; lia). simpl.
    assert (Ascii.eqb (pretty_N_char (x `mod` 10)) c = false) as ->; [|done].
    eapply occurs_eqb; [exact Hc|apply pretty_N_char_digit].
  - assert (x = 0%N) as -> by lia. by rewrite pretty_N_go_0.
Qed.

Lemma pretty_N_go_nonempty (x : N) s :
  (0 < x)%N ∨ s ≠ "" → pretty_N_go x s ≠ "".
Proof.
  revert s. induction (N.lt_wf_0 x) as [x _ IH]. intros s Hor.
  destruct (decide (0 < x)%N) as [Hx|Hx].
  - rewrite pretty_N_go_step by done. apply IH; [apply N.div_lt; lia|by right].
  - assert (x = 0%N) as -> by lia. rewrite pretty_N_go_0. destruct Hor; [lia|done].
Qed.

Lemma pretty_Z_chars c (z : Z) :
  occurs c "-0123456789" = false →
  occurs c (pretty z) = false ∧ pretty z ≠ "".
Proof.
  intros Hc.
  change (Ascii.eqb "-" c || occurs c "0123456789" = false) in Hc.
  apply orb_false_elim in Hc as [Hdash Hc].
  assert (Hn : ∀ p : positive,
             occurs c (pretty p) = false ∧ pretty p ≠ "").
  { intros p. unfold pretty, pretty_positive, pretty, pretty_N.
    rewrite decide_False by done. split.
    - by rewrite occurs_pretty_N_go.
    - apply pretty_N_go_nonempty. left. lia. }
  destruct z as [|p|p]; unfold pretty, pretty_Z.
  - split; [|done].
    change (Ascii.eqb "0" c || occurs c "123456789" = false) in Hc.
    apply orb_false_elim in Hc as [Hzero _].
    change (Ascii.eqb "0" c || false = false). by rewrite Hzero.
  - apply Hn.
  - destruct (Hn p) as [Hp _]. split; [|done].
    change (occurs c ("-" +:+ pretty p)) with (Ascii.eqb "-" c || occurs c (pretty p)).
    by rewrite Hdash, Hp.
Qed.

Lemma app_not_dots (a b : string) :
  b ≠ "" → occurs "." b = false →
  a +:+ b ≠ "" ∧ a +:+ b ≠ "." ∧ a +:+ b ≠ "..".
Proof.
  intros Hne Hdot. destruct a as [|c a].
  - change ("" +:+ b) with b. split_and!; [done|..]; intros ->; by vm_compute in Hdot.
  - change (String c a +:+ b) with (String c (a +:+ b)). split_and!; [done|..].
    + intros [= -> Heq]. destruct a; [done|discriminate].
    + intros [= -> Heq]. destruct a as [|c' a].
      * change ("" +:+ b) with b in Heq. subst b. by vm_compute in Hdot.
      * change (String c' a +:+ b) with (String c' (a +:+ b)) in Heq.
        injection Heq as -> Heq. destruct a; [done|discriminate].
Qed.

Lemma stamped_name (tmp_dir : string) (z : Z) :
  occurs "/" tmp_dir = false →
  let name := tmp_dir +:+ pretty z in
  name ≠ "" ∧ name ≠ "." ∧ name ≠ ".." ∧ occurs "/" name = false.
Proof.
  intros Hfree name. unfold name.
  destruct (pretty_Z_chars "/" z) as [Hsep Hne]; [done|].
  destruct (pretty_Z_chars "." z) as [Hdot _]; [done|].
  destruct (app_not_dots tmp_dir (pretty z)) as (? & ? & ?); [done..|].
  split_and!; [done..|]. by rewrite occurs_app, Hfree, Hsep.
Qed.

(** * The temporary directory of a run *)

Lemma create_dir_None dir_path dir_name w :
  create_dir dir_path dir_name None w
  = let d := OsPath.join dir_path
               (dir_name +:+ pretty (py_int (time_time w * (1000000 # 1))%Q)) in
    match fs w !! d with
    | Some _ => (Raise (FileExistsError d), w)
    | None => (Ok d, World (<[d := ∅]> (fs w)) (time_time w))
    end.
Proof.
  unfold create_dir. rewrite io_bind_run. unfold get_timestamp.
  change (Qle_bool (1000000 # 1) 1) with false. cbn beta iota zeta.
  rewrite io_bind_run. unfold os_mkdir.
  by destruct (fs w !! _).
Qed.

Lemma update_tmp_directory_Ok run_parameters tmp_dir w rp' w' :
  update_tmp_directory run_parameters tmp_dir w = (Ok rp', w') →
  ∃ method base,
    getitem run_parameters "processing_method" = Ok method ∧
    getitem run_parameters
      (if eq_str method "distribute" then "cluster_shared_volumn" else "run_directory")
      ≫= as_path = Ok base ∧
    let d := OsPath.join base
               (tmp_dir +:+ pretty (py_int (time_time w * (1000000 # 1))%Q)) in
    fs w !! d = None ∧
    rp' = <["tmp_directory" := PStr d]> run_parameters ∧
    w' = World (<[d := ∅]> (fs w)) (time_time w).
Proof.
  unfold update_tmp_directory. rewrite !io_bind_lift.
  destruct (getitem run_parameters "processing_method") as [method|e]; [|done].
  destruct (eq_str method "distribute") eqn:Hm; rewrite !io_bind_lift.
  - destruct (getitem run_parameters "cluster_shared_volumn" ≫= as_path)
      as [base|e] eqn:Hbase; [|done].
    rewrite io_bind_run, create_dir_None. cbn zeta.
    destruct (fs w !! _) eqn:Hd; [done|]. intros [= <- <-].
    exists method, base. rewrite Hm. by rewrite Hbase.
  - destruct (getitem run_parameters "run_directory" ≫= as_path)
      as [base|e] eqn:Hbase; [|done].
    rewrite io_bind_run, create_dir_None. cbn zeta.
    destruct (fs w !! _) eqn:Hd; [done|]. intros [= <- <-].
    exists method, base. rewrite Hm. by rewrite Hbase.
Qed.

(** The directory [update_tmp_directory] creates is the one the workers
    write to and the one both scans read, in every processing method: under
    [distribute] the scans rebuild its path from the shared volume and the
    last component of [tmp_directory], and arrive at the same path. *)
Theorem aggregator_reads_created_directory run_parameters tmp_dir w rp' w' :
  occurs "/" tmp_dir = false →
  update_tmp_directory run_parameters tmp_dir w = (Ok rp', w') →
  ∃ d, getitem rp' "tmp_directory" ≫= as_path = Ok d ∧
       scan_directory rp' = Ok d ∧
       fs w !! d = None ∧ fs w' !! d = Some ∅ ∧
       ∀ d', d' ≠ d → fs w' !! d' = fs w !! d'.
Proof.
  intros Hfree (method & base & Hmethod & Hbase & Hd & -> & ->)%update_tmp_directory_Ok.
  cbn zeta in *.
  set (name := tmp_dir +:+ pretty (py_int (time_time w * (1000000 # 1))%Q)) in *.
  exists (OsPath.join base name).
  assert (Hget : ∀ key, key ≠ "tmp_directory" →
            getitem (<["tmp_directory" := PStr (OsPath.join base name)]> run_parameters) key
            = getitem run_parameters key).
  { intros key Hkey. by apply getitem_insert_ne. }
  assert (Htmp : getitem (<["tmp_directory" := PStr (OsPath.join base name)]>
                            run_parameters) "tmp_directory"
                 = Ok (PStr (OsPath.join base name))).
  { unfold getitem. by rewrite lookup_insert_eq. }
  split_and!.
  - by rewrite Htmp.
  - unfold scan_directory. rewrite (Hget "processing_method") by (by intros [=]).
    rewrite Hmethod, result_bind_Ok.
    destruct (eq_str method "distribute").
    + rewrite (Hget "cluster_shared_volumn") by (by intros [=]).
      apply bind_Ok in Hbase as (volume & Hvol & Hpath). rewrite Hvol, result_bind_Ok.
      rewrite Htmp, !result_bind_Ok.
      change (as_path (PStr (OsPath.join base name))) with (Ok (OsPath.join base name)).
      rewrite result_bind_Ok, Hpath, result_bind_Ok. f_equal. f_equal.
      destruct (stamped_name tmp_dir (py_int (time_time w * (1000000 # 1))%Q))
        as (? & ? & ? & ?); [done|].
      by apply basename_normpath_join.
    + by rewrite Htmp.
  - done.
  - simpl. by rewrite lookup_insert_eq.
  - intros d' Hd'. simpl. by rewrite lookup_insert_ne.
Qed.

Lemma aggregator_reads_created_directory_witness :
  ∃ d, getitem (<["tmp_directory" := PStr "/vol/tmp_cc_nmf15000000"]>
                  (<["processing_method" := PStr "distribute"]>
                     (<["cluster_shared_volumn" := PStr "/vol/"]> Ex.params_bad)))
         "tmp_directory" ≫= as_path = Ok d ∧
       scan_directory (<["tmp_directory" := PStr "/vol/tmp_cc_nmf15000000"]>
                         (<["processing_method" := PStr "distribute"]>
                            (<["cluster_shared_volumn" := PStr "/vol/"]> Ex.params_bad)))
       = Ok d ∧
       fs Ex.world0 !! d = None ∧
       fs (World (<["/vol/tmp_cc_nmf15000000" := ∅]> (fs Ex.world0)) (15 # 1)%Q) !! d
       = Some ∅ ∧
       ∀ d', d' ≠ d →
         fs (World (<["/vol/tmp_cc_nmf15000000" := ∅]> (fs Ex.world0)) (15 # 1)%Q) !! d'
         = fs Ex.world0 !! d'.
Proof.
  apply (aggregator_reads_created_directory
           (<["processing_method" := PStr "distribute"]>
              (<["cluster_shared_volumn" := PStr "/vol/"]> Ex.params_bad))
           "tmp_cc_nmf" Ex.world0).
  - reflexivity.
  - reflexivity.
Defined.

(** What [update_tmp_directory] creates, [kn.remove_dir] of the new
    [tmp_directory] entry takes away again: the first and the last step of a
    run leave the directory tree as it was, also when record files were
    written to the temporary directory in between. *)
Theorem temporary_directory_round_trip run_parameters tmp_dir w rp' w' :
  update_tmp_directory run_parameters tmp_dir w = (Ok rp', w') →
  (lift (getitem rp' "tmp_directory" ≫= as_path) ≫= remove_dir) w' = (Ok (), w) ∧
  ∀ w2, (∀ d, getitem rp' "tmp_directory" = Ok (PStr d) →
              is_Some (fs w2 !! d) ∧ ∀ d', d' ≠ d → fs w2 !! d' = fs w !! d') →
    (lift (getitem rp' "tmp_directory" ≫= as_path) ≫= remove_dir) w2
    = (Ok (), World (fs w) (time_time w2)).
Proof.
  intros (method & base & _ & _ & Hd & -> & ->)%update_tmp_directory_Ok.
  cbn zeta in *.
  set (d := OsPath.join base _) in *.
  assert (Htmp : getitem (<["tmp_directory" := PStr d]> run_parameters) "tmp_directory"
                 = Ok (PStr d)).
  { unfold getitem. by rewrite lookup_insert_eq. }
  rewrite Htmp. split.
  - rewrite io_bind_lift. simpl. unfold remove_dir. simpl.
    rewrite lookup_insert_eq, delete_insert_eq, delete_id by done. by destruct w.
  - intros w2 Hw2. destruct (Hw2 d eq_refl) as [[files Hfiles] Hother].
    rewrite io_bind_lift. simpl. unfold remove_dir. rewrite Hfiles. do 2 f_equal.
    apply map_eq. intros d'. destruct (decide (d' = d)) as [->|Hne].
    + by rewrite lookup_delete_eq, Hd.
    + rewrite lookup_delete_ne by done. by apply Hother.
Qed.

Lemma temporary_directory_round_trip_witness :
  (lift (getitem (<["tmp_directory" := PStr "/run/tmp_cc_nmf15000000"]> Ex.params_bad)
           "tmp_directory" ≫= as_path) ≫= remove_dir)
    (World (<["/run/tmp_cc_nmf15000000" := ∅]> (fs Ex.world0)) (15 # 1)%Q)
  = (Ok (), Ex.world0) ∧
  ∀ w2, (∀ d, getitem (<["tmp_directory" := PStr "/run/tmp_cc_nmf15000000"]>
                         Ex.params_bad) "tmp_directory" = Ok (PStr d) →
              is_Some (fs w2 !! d) ∧ ∀ d', d' ≠ d → fs w2 !! d' = fs Ex.world0 !! d') →
    (lift (getitem (<["tmp_directory" := PStr "/run/tmp_cc_nmf15000000"]> Ex.params_bad)
             "tmp_directory" ≫= as_path) ≫= remove_dir) w2
    = (Ok (), World (fs Ex.world0) (time_time w2)).
Proof.
  apply (temporary_directory_round_trip Ex.params_bad "tmp_cc_nmf" Ex.world0).
  reflexivity.
Defined.

(** * One factorisation, no resampling *)

Lemma co_membership (h : list (list Q)) n :
  h ≠ [] → Forall (λ row, length row = n) h →
  ∃ cluster_id L,
    Np.argmax0 h = Ok cluster_id ∧ length cluster_id = n ∧
    update_linkage_matrix (Factors h) (seq 0 n) (Np.zeros n n) = Ok L ∧
    ∀ i j, i < n → j < n →
      Np.entry L i j
      = Some (if bool_decide (cluster_id !! i = cluster_id !! j) then 1 else 0)%Z.
Proof.
  intros Hne Hrows.
  destruct (argmax0_dominant h n Hne Hrows) as (cid & Hcid & Hlen & _).
  exists cid. destruct (decide (n = 0)) as [->|Hn].
  - exists []. split_and!; [done..| |intros; lia].
    unfold update_linkage_matrix. rewrite Hcid, result_bind_Ok. cbn beta iota.
    apply nil_length_inv in Hlen as ->.
    apply cluster_loop_absent; [done|]. apply Forall_forall. intros c _.
    apply not_elem_of_nil.
  - assert (Hcne : cid ≠ []) by (intros ->; simpl in Hlen; lia).
    rewrite (factors_as_labels _ _ _ _ Hcid Hcne).
    rewrite (update_linkage_matrix_total n).
    + eexists. split_and!; [done..|]. intros i j Hi Hj.
      rewrite entry_add_table, entry_zeros by done.
      set (perm := seq 0 n). simpl. subst perm. f_equal.
      unfold linked.
      apply (f_equal (λ b : bool, if b then _ else _)), bool_decide_ext.
      rewrite co_clustered_lookup. split.
      * intros (p & q & c & Hp & Hq & Hcp & Hcq).
        apply lookup_seq in Hp as [-> _]. apply lookup_seq in Hq as [-> _].
        rewrite !Nat.add_0_l. congruence.
      * intros Heq. destruct (lookup_lt_is_Some_2 cid i) as [c Hc]; [lia|].
        exists i, j, c. rewrite !lookup_seq. split_and!; try done; congruence.
    + apply square_zeros.
    + apply Forall_forall. intros i [_ Hi]%elem_of_seq. lia.
    + apply NoDup_seq.
    + by rewrite length_seq.
    + done.
Qed.

Section SingleRun.
Context `{Collaborators}.

(** What [run_nmf] clusters: when the factorisation returns a factor matrix
    with at least one row and one column per sample, the matrix handed to
    k-means is the co-membership matrix of the dominant factors, 1 where two
    samples have the same arg-max and 0 elsewhere, and the labels found for
    it are what both reports receive. *)
Theorem run_nmf_clusters_co_membership run_parameters w df m h w1 :
  (path ← getitem run_parameters "spreadsheet_name_full_path";
   kn_get_spreadsheet_df path w) = Ok df →
  kn_get_quantile_norm_matrix (as_matrix df) = Ok m →
  kn_perform_nmf m run_parameters w = (Ok h, w1) →
  h ≠ [] → Forall (λ row, length row = shape_1 m) h →
  ∃ cluster_id L,
    Np.argmax0 h = Ok cluster_id ∧
    (∀ i j, i < shape_1 m → j < shape_1 m →
       Np.entry L i j
       = Some (if bool_decide (cluster_id !! i = cluster_id !! j) then 1 else 0)%Z) ∧
    run_nmf run_parameters w
    = (labels ← lift (number_of_clusters ← getitem run_parameters "number_of_clusters";
                      kn_perform_kmeans (to_float L) number_of_clusters);
       _ ← save_final_samples_clustering (columns df) labels run_parameters;
       save_spreadsheet_and_variance_heatmap df labels run_parameters None) w1.
Proof.
  intros Hdf Hm Hnmf Hne Hrows.
  destruct (co_membership h (shape_1 m) Hne Hrows) as (cid & L & Hcid & _ & HL & Hentries).
  exists cid, L. split_and!; [done..|].
  unfold run_nmf. rewrite io_bind_reading, Hdf. cbn zeta.
  rewrite io_bind_lift, Hm, io_bind_run, Hnmf. cbn zeta.
  by rewrite io_bind_lift, HL.
Qed.

(** The same for [run_net_nmf], whose factor matrix comes from the smoothed
    and normalised spreadsheet. *)
Theorem run_net_nmf_clusters_co_membership run_parameters w df net lap_diag lap_pos
    smooth iterations m h w1 :
  prepare_network run_parameters w = (Ok (df, net, lap_diag, lap_pos), w) →
  kn_smooth_matrix_with_rwr (as_matrix df) net run_parameters = Ok (smooth, iterations) →
  kn_get_quantile_norm_matrix smooth = Ok m →
  kn_perform_net_nmf m lap_pos lap_diag run_parameters w = (Ok h, w1) →
  h ≠ [] → Forall (λ row, length row = shape_1 (as_matrix df)) h →
  ∃ cluster_id L,
    Np.argmax0 h = Ok cluster_id ∧
    (∀ i j, i < shape_1 (as_matrix df) → j < shape_1 (as_matrix df) →
       Np.entry L i j
       = Some (if bool_decide (cluster_id !! i = cluster_id !! j) then 1 else 0)%Z) ∧
    run_net_nmf run_parameters w
    = (labels ← lift (number_of_clusters ← getitem run_parameters "number_of_clusters";
                      kn_perform_kmeans (to_float L) number_of_clusters);
       _ ← save_final_samples_clustering (columns df) labels run_parameters;
       save_spreadsheet_and_variance_heatmap df labels run_parameters (Some net)) w1.
Proof.
  intros Hprep Hsmooth Hm Hnmf Hne Hrows.
  destruct (co_membership h (shape_1 (as_matrix df)) Hne Hrows)
    as (cid & L & Hcid & _ & HL & Hentries).
  exists cid, L. split_and!; [done..|].
  unfold run_net_nmf. rewrite io_bind_run, Hprep. cbn zeta.
  rewrite io_bind_lift, Hsmooth, io_bind_lift, Hm, io_bind_run, Hnmf.
  by rewrite io_bind_lift, HL.
Qed.

End SingleRun.

Lemma run_nmf_clusters_co_membership_witness :
  ∃ cluster_id L,
    Np.argmax0 [[1; 0]; [0; 1]]%Q = Ok cluster_id ∧
    (∀ i j, i < @shape_1 Ex.stub () → j < @shape_1 Ex.stub () →
       Np.entry L i j
       = Some (if bool_decide (cluster_id !! i = cluster_id !! j) then 1 else 0)%Z) ∧
    @run_nmf Ex.stub Ex.params_bad Ex.world0
    = (labels ← lift (number_of_clusters ← getitem Ex.params_bad "number_of_clusters";
                      @kn_perform_kmeans Ex.stub (to_float L) number_of_clusters);
       _ ← @save_final_samples_clustering Ex.stub (@columns Ex.stub ()) labels
             Ex.params_bad;
       @save_spreadsheet_and_variance_heatmap Ex.stub () labels Ex.params_bad None)
        Ex.world0.
Proof.
  apply (@run_nmf_clusters_co_membership Ex.stub Ex.params_bad Ex.world0 () ()
           [[1; 0]; [0; 1]]%Q Ex.world0).
  - reflexivity.
  - reflexivity.
  - reflexivity.
  - done.
  - by repeat constructor.
Defined.

Lemma run_net_nmf_clusters_co_membership_witness :
  ∃ cluster_id L,
    Np.argmax0 [[1; 0]; [0; 1]]%Q = Ok cluster_id ∧
    (∀ i j, i < @shape_1 Ex.stub () → j < @shape_1 Ex.stub () →
       Np.entry L i j
       = Some (if bool_decide (cluster_id !! i = cluster_id !! j) then 1 else 0)%Z) ∧
    @run_net_nmf Ex.stub Ex.params_bad Ex.world0
    = (labels ← lift (number_of_clusters ← getitem Ex.params_bad "number_of_clusters";
                      @kn_perform_kmeans Ex.stub (to_float L) number_of_clusters);
       _ ← @save_final_samples_clustering Ex.stub (@columns Ex.stub ()) labels
             Ex.params_bad;
       @save_spreadsheet_and_variance_heatmap Ex.stub () labels Ex.params_bad
         (Some ())) Ex.world0.
Proof.
  apply (@run_net_nmf_clusters_co_membership Ex.stub Ex.params_bad Ex.world0
           () () () () () 0 () [[1; 0]; [0; 1]]%Q Ex.world0).
  - reflexivity.
  - reflexivity.
  - reflexivity.
  - reflexivity.
  - done.
  - by repeat constructor.
Defined.

(** * Names of records *)

Lemma occurs_pretty_N c (x : N) :
  occurs c "0123456789" = false → occurs c (pretty x) = false.
Proof.
  intros Hc. unfold pretty, pretty_N. case_decide.
  - change (Ascii.eqb "0" c || occurs c "123456789" = false) in Hc.
    apply orb_false_elim in Hc as [Hzero _].
    change (Ascii.eqb "0" c || false = false). by rewrite Hzero.
  - by rewrite occurs_pretty_N_go.
Qed.

Lemma split_at_first c (a b s t : string) :
  occurs c a = false → occurs c b = false →
  a +:+ String c s = b +:+ String c t → a = b ∧ s = t.
Proof.
  revert b. induction a as [|x a IH]; intros [|y b] Ha Hb Heq.
  - by injection Heq as ->.
  - change (String c s = String y (b +:+ String c t)) in Heq. injection Heq as -> _.
    simpl in Hb. by rewrite Ascii.eqb_refl in Hb.
  - change (String x (a +:+ String c s) = String c t) in Heq. injection Heq as -> _.
    simpl in Ha. by rewrite Ascii.eqb_refl in Ha.
  - change (String x (a +:+ String c s) = String y (b +:+ String c t)) in Heq.
    injection Heq as -> Heq. simpl in Ha, Hb.
    apply orb_false_elim in Ha as [_ Ha]. apply orb_false_elim in Hb as [_ Hb].
    destruct (IH b Ha Hb Heq) as [-> ->]. done.
Qed.

(** Two names made by [create_timestamped_filename] for replicates [n1] and
    [n2] are the same name exactly when the replicate numbers are the same
    and the clock shows the same tick of the chosen resolution. *)
Theorem stamped_names_injective (n1 n2 : nat) stamp_units w1 w2 :
  let units := if Qle_bool stamp_units 1 then 1%Q else stamp_units in
  (create_timestamped_filename ("_N" +:+ pretty n1) stamp_units w1).1
  = (create_timestamped_filename ("_N" +:+ pretty n2) stamp_units w2).1
  ↔ n1 = n2 ∧
    py_int (time_time w1 * units)%Q = py_int (time_time w2 * units)%Q.
Proof.
  intros units. unfold create_timestamped_filename.
  rewrite !io_bind_run. unfold get_timestamp. fold units. cbn beta iota.
  unfold mret, io_ret. simpl fst. split.
  - intros [= Heq]. rewrite !string_app_assoc in Heq.
    apply split_at_first in Heq as [Hn Hz].
    + split; [by apply (inj pretty) in Hn|by apply (inj pretty) in Hz].
    + by apply occurs_pretty_N.
    + by apply occurs_pretty_N.
  - by intros [-> ->].
Qed.

(** * Accumulators only grow *)





